(** * Range resolution, corpus search and talk lookup of the
      unofficial-gospel-library MCP server

    A shallow embedding of the TypeScript functions [parseVerseRange],
    [parseParagraphRange], [searchScriptures], [getConferenceTalk] (local-JSON
    revision, server version 1.1.0) and [getScripture] (web-scraping
    revision), together with the parts of the ECMAScript built-ins they call.

    Conventions of the embedding
    - a JavaScript string is the list of its UTF-16 code units ([JS.str]);
    - a Number produced by [parseInt] is [NaN] or an integer; the embedding
      keeps the exact integer.  The source only feeds such a number to
      [Array.prototype.slice], which clamps it to the length of the array, and
      compares it with verse or paragraph numbers, which are small integers;
      both uses give the same answer on the double nearest to the integer, and
      on [+0] and [-0];
    - the argument [paragraph] of [getConferenceTalk] is a Number that need
      not be an integer: a finite double is a rational, and the embedding
      keeps it as such ([Q]).  Between 1 and the length of an array the
      subtraction [paragraph - 1] is exact on doubles;
    - an object used as a table (the corpus, the sessions, the collection
      codes) is the list of its own properties, in insertion order; reading
      [o[key]] ([get]) finds them, and also what every object created by
      [{}] inherits from [Object.prototype];
    - an exception is a value of [JS.exn], a call either completes normally or
      throws ([JS.completion]);
    - [String.prototype.toLowerCase] depends on the Unicode case tables; it is
      left abstract, as the class [CaseFolding], and every result about
      search and talk lookup holds for any function in its place;
    - the server replies with the JSON text of an object; the embedding
      stops at the object. *)

From Stdlib Require Import ZArith QArith List Bool Lia Ascii String.
From Stdlib Require Import Sorted Permutation.
Import ListNotations.

Open Scope Z_scope.

(* ================================================================== *)
(** ** ECMAScript built-ins used by the server *)
(* ================================================================== *)

Module JS.

(** Code units and strings. *)
Definition char := N.
Definition str := list char.

(** An ASCII literal as a JavaScript string. *)
Definition lit (s : string) : str :=
  map N_of_ascii (list_ascii_of_string s).
Arguments lit s%_string.

Definition char_eqb (c d : char) : bool := N.eqb c d.

(** [a === b] on strings. *)
Fixpoint str_eqb (a b : str) : bool :=
  match a, b with
  | [], [] => true
  | c :: a', d :: b' => char_eqb c d && str_eqb a' b'
  | _, _ => false
  end.

(** Values that may be [undefined]: [None] is [undefined]. *)
Definition ToString (v : option str) : str :=
  match v with
  | Some s => s
  | None => lit "undefined"
  end.

(** [v === s] for a possibly undefined [v] and a string [s]. *)
Definition strict_eq_str (v : option str) (s : str) : bool :=
  match v with
  | Some a => str_eqb a s
  | None => false
  end.

(** [a === v] for an integer [a] and a possibly undefined integer [v]. *)
Definition strict_eq_int (a : Z) (v : option Z) : bool :=
  match v with
  | Some z => a =? z
  | None => false
  end.

(** Truthiness of a possibly undefined Number that need not be an integer:
    [undefined] and zero are falsy. *)
Definition truthy_num (v : option Q) : bool :=
  match v with
  | Some q => negb (Qeq_bool q 0)
  | None => false
  end.

(** [a < b] on Numbers. *)
Definition lt_num (a b : Q) : bool := negb (Qle_bool b a).

(** [a[i]] for a Number [i]: the element at [i] when [i] is an integer
    within the array, [undefined] for any other number. *)
Definition at_index {A} (a : list A) (i : Q) : option A :=
  if (Qnum i mod Zpos (Qden i) =? 0) && (0 <=? Qnum i)
  then nth_error a (Z.to_nat (Qnum i / Zpos (Qden i)))
  else None.

(** Truthiness of an optional string argument: [undefined] and the empty
    string are falsy. *)
Definition truthy_str (v : option str) : bool :=
  match v with
  | Some (_ :: _) => true
  | _ => false
  end.

(** Truthiness of an optional integer argument: [undefined] and [0] are
    falsy. *)
Definition truthy_int (v : option Z) : bool :=
  match v with
  | Some z => negb (z =? 0)
  | None => false
  end.

(** [v || ''] for an optional string. *)
Definition or_empty (v : option str) : str :=
  match v with
  | Some (c :: s) => c :: s
  | _ => []
  end.

(** [s.startsWith(t)] at position 0. *)
Fixpoint startsWith (s t : str) {struct t} : bool :=
  match t, s with
  | [], _ => true
  | c :: t', d :: s' => char_eqb d c && startsWith s' t'
  | _ :: _, [] => false
  end.

(** [s.includes(t)]: [t] occurs in [s] as a contiguous run of code units. *)
Fixpoint includes (s t : str) : bool :=
  startsWith s t ||
  match s with
  | [] => false
  | _ :: s' => includes s' t
  end.

(** [s.split(sep)] for a separator of one code unit, which is how the source
    calls it ([':'] and ['-']). *)
Fixpoint split (s : str) (sep : char) : list str :=
  match s with
  | [] => [[]]
  | c :: s' =>
      if char_eqb c sep then [] :: split s' sep
      else match split s' sep with
           | p :: ps => (c :: p) :: ps
           | [] => [[c]]
           end
  end.

(** Array destructuring [const [a, b] = xs]: missing elements are
    [undefined]. *)
Definition destructure2 {A} (xs : list A) : option A * option A :=
  (nth_error xs 0, nth_error xs 1).

(** Numbers: the results of [parseInt] and their negations. *)
Inductive num := NaN | Num (z : Z).

Definition isNaN (n : num) : bool :=
  match n with NaN => true | Num _ => false end.

(** Unary minus. *)
Definition neg (n : num) : num :=
  match n with NaN => NaN | Num z => Num (- z) end.

(** [a >= b], [a <= b] and [a === b] for a number [a] that is an integer;
    every comparison with [NaN] is false. *)
Definition geb (a : Z) (b : num) : bool :=
  match b with NaN => false | Num z => z <=? a end.
Definition leb (a : Z) (b : num) : bool :=
  match b with NaN => false | Num z => a <=? z end.
Definition strict_eq (a : Z) (b : num) : bool :=
  match b with NaN => false | Num z => a =? z end.

(** White space and line terminators: the code units skipped by [parseInt]
    and [trim], and matched by the regular expression class [\s]. *)
Definition isWhiteSpace (c : char) : bool :=
  match c with
  | 9 | 10 | 11 | 12 | 13 | 32 | 160 | 5760
  | 8232 | 8233 | 8239 | 8287 | 12288 | 65279 => true
  | _ => (8192 <=? c) && (c <=? 8202)
  end%N.

Fixpoint trimStart (s : str) : str :=
  match s with
  | c :: s' => if isWhiteSpace c then trimStart s' else s
  | [] => []
  end.

Definition trimEnd (s : str) : str := rev (trimStart (rev s)).
Definition trim (s : str) : str := trimEnd (trimStart s).

(** The value of a code unit as a digit: [0-9], then [a-z] or [A-Z] for
    10 to 35. *)
Definition digitValue (c : char) : option Z :=
  if (48 <=? c)%N && (c <=? 57)%N then Some (Z.of_N c - 48)
  else if (97 <=? c)%N && (c <=? 122)%N then Some (Z.of_N c - 87)
  else if (65 <=? c)%N && (c <=? 90)%N then Some (Z.of_N c - 55)
  else None.

Definition radixDigit (R : Z) (c : char) : option Z :=
  match digitValue c with
  | Some d => if d <? R then Some d else None
  | None => None
  end.

(** The longest prefix of radix-[R] digits, as digit values. *)
Fixpoint digitsPrefix (R : Z) (s : str) : list Z :=
  match s with
  | c :: s' =>
      match radixDigit R c with
      | Some d => d :: digitsPrefix R s'
      | None => []
      end
  | [] => []
  end.

Definition mathInt (R : Z) (ds : list Z) : Z :=
  fold_left (fun a d => a * R + d) ds 0.

(** The sign read by [parseInt] and the string after it. *)
Definition stripSign (S : str) : Z * str :=
  match S with
  | 45%N :: r => (-1, r)
  | 43%N :: r => (1, r)
  | _ => (1, S)
  end.

(** The radix chosen by [parseInt] when it is given none, and the string
    after the prefix [0x] or [0X] if there is one. *)
Definition stripPrefix (S : str) : Z * str :=
  match S with
  | 48%N :: 120%N :: r => (16, r)
  | 48%N :: 88%N :: r => (16, r)
  | _ => (10, S)
  end.

(** [parseInt(string)] with no radix argument: skip leading white space, read
    an optional sign, an optional [0x] or [0X] prefix (radix 16, otherwise
    10), then the longest run of digits; no digit gives [NaN], and whatever
    follows the digits is ignored. *)
Definition parseInt (string : option str) : num :=
  let '(sign, S1) := stripSign (trimStart (ToString string)) in
  let '(R, S2) := stripPrefix S1 in
  match digitsPrefix R S2 with
  | [] => NaN
  | ds => Num (sign * mathInt R ds)
  end.

(** [ToIntegerOrInfinity]: [NaN] becomes 0. *)
Definition ToIntegerOrInfinity (n : num) : Z :=
  match n with NaN => 0 | Num z => z end.

(** A relative index of [slice] clamped into [0 .. len]: a negative index
    counts from the end. *)
Definition relativeIndex (len rel : Z) : Z :=
  if rel <? 0 then Z.max (len + rel) 0 else Z.min rel len.

(** [xs.slice(start, end)]; [end_ = None] is a call with one argument. *)
Definition slice {A} (xs : list A) (start : num) (end_ : option num)
  : list A :=
  let len := Z.of_nat (List.length xs) in
  let k := relativeIndex len (ToIntegerOrInfinity start) in
  let final :=
    match end_ with
    | None => len
    | Some e => relativeIndex len (ToIntegerOrInfinity e)
    end in
  firstn (Z.to_nat (final - k)) (skipn (Z.to_nat k) xs).

(** [Number::toString] of an integer, as a template literal inserts it:
    decimal digits, most significant first, after a minus sign for a
    negative one (the exponent notation of numbers from 1e21 on is outside
    the embedding).  [digitsOf] puts the digits of [n] in front of [acc];
    [fuel] bounds the number of digits. *)
Fixpoint digitsOf (fuel : nat) (n : Z) (acc : str) : str :=
  match fuel with
  | O => acc
  | S fuel' =>
      let acc' := Z.to_N (48 + n mod 10) :: acc in
      if n <? 10 then acc' else digitsOf fuel' (n / 10) acc'
  end.

Definition decimal (n : Z) : str :=
  digitsOf (S (Z.to_nat (Z.log2 n))) n [].

Definition NumberToString (z : Z) : str :=
  if z <? 0 then 45%N :: decimal (- z) else decimal z.

(** A string between double quotes, for messages. *)
Definition quoted (s : str) : str := 34%N :: s ++ [34%N].

(** Exceptions and completions. *)
Inductive exn :=
| Error (message : str)
| TypeError (message : str).

Definition message (e : exn) : str :=
  match e with Error m | TypeError m => m end.

Inductive completion (A : Type) :=
| Normal (a : A)
| Throw (e : exn).
Arguments Normal {A} a.
Arguments Throw {A} e.

End JS.

Import JS.

(* ================================================================== *)
(** ** Verse ranges *)
(* ================================================================== *)

(** The range functions read one field of the elements they select: the
    [verse] number of a verse object. *)
Class HasVerse (A : Type) := verse : A -> Z.

(** A verse of the JSON corpus. *)
Record Verse := mkVerse {
  v_verse : Z;
  v_reference : str;
  v_text : str
}.

#[export] Instance Verse_HasVerse : HasVerse Verse := v_verse.

Definition invalidVerseRange (rangeStr : str) : exn :=
  Error (lit "Invalid verse range format: " ++ rangeStr ++
         lit ". Use formats like " ++ quoted (lit "7-10") ++ lit ", " ++
         quoted (lit "first:3") ++ lit ", or " ++ quoted (lit "last:3")).

(** [parseVerseRange(rangeStr, allVerses)].  The three revisions of the
    server carry the same text of this function.  [relative] is the first
    [if] of the source: it returns from the function for the positions
    [first] and [last] and falls through for any other. *)
Definition parseVerseRange {A} `{HasVerse A}
    (rangeStr : str) (allVerses : list A) : completion (list A) :=
  let relative :=
    if includes rangeStr (lit ":") then
      let '(position, countStr) := destructure2 (split rangeStr 58%N) in
      let count := parseInt countStr in
      if strict_eq_str position (lit "first") then
        Some (slice allVerses (Num 0) (Some count))
      else if strict_eq_str position (lit "last") then
        Some (slice allVerses (neg count) None)
      else None
    else None in
  match relative with
  | Some selected => Normal selected
  | None =>
      if includes rangeStr (lit "-") then
        let '(startStr, endStr) := destructure2 (split rangeStr 45%N) in
        let start := parseInt startStr in
        let end_ := parseInt endStr in
        Normal (filter (fun v => geb (verse v) start && leb (verse v) end_)
                       allVerses)
      else
        let verseNum := parseInt (Some rangeStr) in
        if negb (isNaN verseNum) then
          Normal (filter (fun v => strict_eq (verse v) verseNum) allVerses)
        else Throw (invalidVerseRange rangeStr)
  end.

(* ================================================================== *)
(** ** Paragraph ranges *)
(* ================================================================== *)

(** A numbered paragraph of a talk: [{ paragraph, text }]. *)
Record Item := mkItem {
  paragraph : Z;
  text : str
}.

(** [paragraphs.map((p, i) => ({ paragraph: i + 1, text: p }))], with [i]
    counted from [from]. *)
Fixpoint numberFrom (from : Z) (paragraphs : list str) : list Item :=
  match paragraphs with
  | [] => []
  | p :: ps => mkItem (from + 1) p :: numberFrom (from + 1) ps
  end.

Definition numbered (paragraphs : list str) : list Item :=
  numberFrom 0 paragraphs.

Definition invalidParagraphRange (rangeStr : str) : exn :=
  Error (lit "Invalid paragraph range format: " ++ rangeStr).

(** [parseParagraphRange(rangeStr, paragraphs)]. *)
Definition parseParagraphRange (rangeStr : str) (paragraphs : list str)
  : completion (list Item) :=
  let items := numbered paragraphs in
  let relative :=
    if includes rangeStr (lit ":") then
      let '(position, countStr) := destructure2 (split rangeStr 58%N) in
      let count := parseInt countStr in
      if strict_eq_str position (lit "first") then
        Some (slice items (Num 0) (Some count))
      else if strict_eq_str position (lit "last") then
        Some (slice items (neg count) None)
      else None
    else None in
  match relative with
  | Some selected => Normal selected
  | None =>
      if includes rangeStr (lit "-") then
        let '(startStr, endStr) := destructure2 (split rangeStr 45%N) in
        let start := parseInt startStr in
        let end_ := parseInt endStr in
        Normal (filter (fun i => geb (paragraph i) start &&
                                 leb (paragraph i) end_) items)
      else
        let num := parseInt (Some rangeStr) in
        if negb (isNaN num) then
          Normal (filter (fun i => strict_eq (paragraph i) num) items)
        else Throw (invalidParagraphRange rangeStr)
  end.

(* ================================================================== *)
(** ** Loops with an early [return] *)
(* ================================================================== *)

(** The outcome of a loop body or of a loop: go on with the state, or
    return from the enclosing function. *)
Inductive flow (S R : Type) :=
| Continue (s : S)
| Return (r : R).
Arguments Continue {S R} s.
Arguments Return {S R} r.

(** [for (const x of xs) body]. *)
Fixpoint forOf {X S R} (body : X -> S -> flow S R) (xs : list X) (s : S)
  : flow S R :=
  match xs with
  | [] => Continue s
  | x :: xs' =>
      match body x s with
      | Continue s' => forOf body xs' s'
      | Return r => Return r
      end
  end.

(* ================================================================== *)
(** ** Scripture search *)
(* ================================================================== *)

(** [String.prototype.toLowerCase]. *)
Class CaseFolding := toLowerCase : str -> str.

Record Chapter := mkChapter {
  ch_chapter : Z;
  ch_verses : list Verse
}.

Record Book := mkBook {
  b_book : str;
  b_chapters : list Chapter
}.

Record ScriptureCollectionData := mkCollection {
  books : list Book
}.

(** [Record<string, ScriptureCollectionData>]: the properties of the object
    in insertion order, which is the order of [Object.keys]. *)
Definition ScriptureData := list (str * ScriptureCollectionData).

Fixpoint property {V} (o : list (str * V)) (key : str) : option V :=
  match o with
  | [] => None
  | (k, v) :: o' => if str_eqb k key then Some v else property o' key
  end.

Definition keys {V} (o : list (str * V)) : list str := map fst o.

(** [property] looks among the properties the object holds itself.  The
    objects of the program are created by [{}] and so inherit from
    [Object.prototype]: reading [o[key]] for one of the names below, when the
    object has no property of its own by that name, yields a method of the
    prototype (the prototype itself for [__proto__]), a truthy value that is
    neither a collection nor an array of talks. *)
Definition inheritedKeys : list str :=
  [lit "constructor"; lit "__defineGetter__"; lit "__defineSetter__";
   lit "hasOwnProperty"; lit "__lookupGetter__"; lit "__lookupSetter__";
   lit "isPrototypeOf"; lit "propertyIsEnumerable"; lit "toString";
   lit "valueOf"; lit "__proto__"; lit "toLocaleString"].

Definition isInherited (key : str) : bool :=
  existsb (str_eqb key) inheritedKeys.

(** What [o[key]] evaluates to. *)
Inductive member (V : Type) :=
| Own (v : V)
| Inherited
| Undefined.
Arguments Own {V} v.
Arguments Inherited {V}.
Arguments Undefined {V}.

Definition get {V} (o : list (str * V)) (key : str) : member V :=
  match property o key with
  | Some v => Own v
  | None => if isInherited key then Inherited else Undefined
  end.

(** The [TypeError] of iterating over [undefined], and of calling it, with
    the messages of V8. *)
Definition notIterable (name : str) : exn :=
  TypeError (name ++ lit " is not iterable").

Definition notAFunction (callee : str) : exn :=
  TypeError (callee ++ lit " is not a function").

(** The arguments of the tool [search_scriptures]. *)
Record SearchArgs := mkSearchArgs {
  sa_query : str;
  sa_collection : option str;
  sa_book : option str;
  sa_chapter : option Z;
  sa_maxResults : option Z
}.

(** An element of [matches]. *)
Record Match := mkMatch {
  m_collection : str;
  m_book : str;
  m_chapter : Z;
  m_verse : Z;
  m_reference : str;
  m_text : str
}.

(** The object that is serialised into the reply. *)
Record SearchResponse := mkSearchResponse {
  r_query : str;
  r_count : Z;
  r_results : list Match
}.

(** The state of the traversal: the array [matches], and a ghost counter of
    the verses whose text has been tested so far. *)
Record Scan := mkScan {
  matches : list Match;
  tested : nat
}.

Definition bookScopeError : exn :=
  Error (lit "If you specify a book you must also specify its collection.").

Definition chapterScopeError : exn :=
  Error (lit
    "If you specify a chapter you must also specify collection and book.").

Definition maxResultsOf (args : SearchArgs) : Z :=
  match sa_maxResults args with
  | Some n => n
  | None => 25
  end.

Section Search.
Context `{CaseFolding}.

(** [v.text.toLowerCase().includes(term)]. *)
Definition verseMatches (term : str) (v : Verse) : bool :=
  includes (toLowerCase (v_text v)) term.

(** The body of the innermost loop. *)
Definition verseStep (term : str) (maxResults : Z) (coll : str) (b : Book)
    (ch : Chapter) (v : Verse) (s : Scan) : flow Scan Scan :=
  if verseMatches term v then
    let matches' :=
      matches s ++ [mkMatch coll (b_book b) (ch_chapter ch) (v_verse v)
                            (v_reference v) (v_text v)] in
    let s' := mkScan matches' (S (tested s)) in
    if Z.of_nat (List.length matches') >=? maxResults then Return s'
    else Continue s'
  else Continue (mkScan (matches s) (S (tested s))).

Definition chapterStep (args : SearchArgs) (term : str) (coll : str)
    (b : Book) (ch : Chapter) (s : Scan) : flow Scan Scan :=
  if truthy_int (sa_chapter args) &&
     negb (strict_eq_int (ch_chapter ch) (sa_chapter args))
  then Continue s
  else forOf (verseStep term (maxResultsOf args) coll b ch) (ch_verses ch) s.

Definition bookStep (args : SearchArgs) (term : str) (coll : str)
    (b : Book) (s : Scan) : flow Scan Scan :=
  if truthy_str (sa_book args) &&
     negb (strict_eq_str (sa_book args) (b_book b))
  then Continue s
  else forOf (chapterStep args term coll b) (b_chapters b) s.

(** [const collData = scriptureData[coll]; if (!collData) continue;
    const books = collData.books; for (const b of books) ...]: an inherited
    member is truthy and has no [books], and [for ... of undefined] throws;
    the exception leaves the function, as a [return] does. *)
Definition collectionStep (args : SearchArgs) (scriptureData : ScriptureData)
    (term : str) (coll : str) (s : Scan) : flow Scan (completion Scan) :=
  match get scriptureData coll with
  | Undefined => Continue s
  | Inherited => Return (Throw (notIterable (lit "books")))
  | Own collData =>
      match forOf (bookStep args term coll) (books collData) s with
      | Continue s' => Continue s'
      | Return s' => Return (Normal s')
      end
  end.

Definition collectionsToSearch (args : SearchArgs)
    (scriptureData : ScriptureData) : list str :=
  if truthy_str (sa_collection args) then [ToString (sa_collection args)]
  else keys scriptureData.

(** The scan a loop ends with, whether it ran to its end or returned. *)
Definition finalScan (f : flow Scan Scan) : Scan :=
  match f with Continue s | Return s => s end.

(** The four nested loops, from the empty array of matches: the scan at the
    [return] inside the loops or at the one after them, or the exception. *)
Definition searchLoops (args : SearchArgs) (scriptureData : ScriptureData)
  : completion Scan :=
  match forOf (collectionStep args scriptureData
                 (toLowerCase (sa_query args)))
              (collectionsToSearch args scriptureData) (mkScan [] 0) with
  | Continue s => Normal s
  | Return r => r
  end.

(** [searchScriptures(args, scriptureData)].  Both [return] statements of the
    source build the same object from [query] and [matches]; the embedding
    returns that object, not its JSON text. *)
Definition searchScriptures (args : SearchArgs)
    (scriptureData : ScriptureData) : completion SearchResponse :=
  if truthy_str (sa_book args) && negb (truthy_str (sa_collection args))
  then Throw bookScopeError
  else if truthy_int (sa_chapter args) &&
          negb (truthy_str (sa_collection args) &&
                truthy_str (sa_book args))
  then Throw chapterScopeError
  else
    match searchLoops args scriptureData with
    | Throw e => Throw e
    | Normal scan =>
        let found := matches scan in
        Normal (mkSearchResponse (sa_query args)
                                 (Z.of_nat (List.length found)) found)
    end.

End Search.

(* ================================================================== *)
(** ** Conference talks *)
(* ================================================================== *)

Record ConferenceTalkMeta := mkTalk {
  speaker : str;
  title : str;
  description : option str;
  body : list str;
  audio : option str;
  pdf : option str;
  link : option str;
  sorting : option str;
  session : str;
  slug : str
}.

Record ConferenceData := mkConferenceData {
  sessions : list (str * list ConferenceTalkMeta);
  allTalks : list ConferenceTalkMeta
}.

(** The arguments of the tool [get_conference_talk]. *)
Record TalkArgs := mkTalkArgs {
  ta_session : str;
  ta_title : option str;
  ta_slug : option str;
  ta_paragraph : option Q;
  ta_paragraphRange : option str
}.

(** The three shapes of the reply. *)
Inductive TalkResponse :=
| OneParagraph (session title speaker : str) (paragraph : Q)
               (text : option str)
| SelectedParagraphs (session title speaker : str) (paragraphs : list Item)
| WholeTalk (session title speaker : str) (description : option str)
            (paragraphs : list Item) (audio pdf link : option str).

(** [s.replace(/[...]/g, r)] for a class of single code units: every code
    unit of the class becomes [r]. *)
Definition replaceEach (class : char -> bool) (r : char) (s : str) : str :=
  map (fun c => if class c then r else c) s.

(** [s.replace(/[...]+/g, r)]: every maximal run of code units of the class
    becomes [r].  [inRun] tells that the previous code unit was in the
    class. *)
Fixpoint replaceRunsFrom (class : char -> bool) (r : str) (inRun : bool)
    (s : str) : str :=
  match s with
  | [] => []
  | c :: s' =>
      if class c then
        if inRun then replaceRunsFrom class r true s'
        else r ++ replaceRunsFrom class r true s'
      else c :: replaceRunsFrom class r false s'
  end.

Definition replaceRuns (class : char -> bool) (r : str) (s : str) : str :=
  replaceRunsFrom class r false s.

(** The class of the four quotation marks: left and right double quotation
    mark, the ASCII double quote and the apostrophe. *)
Definition isQuote (c : char) : bool :=
  match c with
  | 8220 | 8221 | 34 | 39 => true
  | _ => false
  end%N.

(** The class of [a-z0-9], the double quote and white space, negated. *)
Definition isPunctuation (c : char) : bool :=
  negb (((97 <=? c)%N && (c <=? 122)%N) ||
        ((48 <=? c)%N && (c <=? 57)%N) ||
        (c =? 34)%N ||
        isWhiteSpace c).

Definition talkNotFound (args : TalkArgs) : exn :=
  Error (lit "Talk not found in " ++ ta_session args ++
         lit ". Provided title='" ++ or_empty (ta_title args) ++
         lit "' slug='" ++ or_empty (ta_slug args) ++
         lit "'. Use list_conference_talks to enumerate.").

Definition sessionNotFound (args : TalkArgs) : exn :=
  Error (lit "Session not found: " ++ ta_session args).

Definition paragraphOutOfRange (talk : ConferenceTalkMeta) : exn :=
  Error (lit "Paragraph out of range 1-" ++
         NumberToString (Z.of_nat (List.length (body talk)))).

Section Talks.
Context `{CaseFolding}.

(** The local function [normalize] of [getConferenceTalk]. *)
Definition normalize (s : str) : str :=
  trim
    (replaceRuns isWhiteSpace (lit " ")
       (replaceRuns isPunctuation (lit " ")
          (replaceEach isQuote 34%N (toLowerCase s)))).

(** The title part of the lookup: the body of [if (!talk && title)]. *)
Definition findByTitle (talks : list ConferenceTalkMeta) (title0 : str)
  : option ConferenceTalkMeta :=
  match find (fun t => str_eqb (title t) title0) talks with
  | Some t => Some t
  | None =>
      let normTitle := normalize title0 in
      match find (fun t => str_eqb (normalize (title t)) normTitle) talks with
      | Some t => Some t
      | None => find (fun t => includes (normalize (title t)) normTitle) talks
      end
  end.

(** The value of the variable [talk] when the lookup is over. *)
Definition findTalk (talks : list ConferenceTalkMeta) (args : TalkArgs)
  : option ConferenceTalkMeta :=
  let talk :=
    if truthy_str (ta_slug args) then
      find (fun t => str_eqb (slug t) (ToString (ta_slug args))) talks
    else None in
  match talk with
  | Some t => Some t
  | None =>
      if truthy_str (ta_title args)
      then findByTitle talks (ToString (ta_title args))
      else None
  end.

(** What [getConferenceTalk] does once [talk] is found. *)
Definition talkReply (talk : ConferenceTalkMeta) (args : TalkArgs)
  : completion TalkResponse :=
  if truthy_num (ta_paragraph args) then
    let paragraph := match ta_paragraph args with
                     | Some p => p
                     | None => 0%Q
                     end in
    if lt_num paragraph 1 ||
       lt_num (inject_Z (Z.of_nat (List.length (body talk)))) paragraph
    then Throw (paragraphOutOfRange talk)
    else Normal (OneParagraph (session talk) (title talk) (speaker talk)
                   paragraph
                   (at_index (body talk) (paragraph - 1)%Q))
  else if truthy_str (ta_paragraphRange args) then
    match parseParagraphRange (ToString (ta_paragraphRange args))
                              (body talk) with
    | Throw e => Throw e
    | Normal selection =>
        Normal (SelectedParagraphs (session talk) (title talk)
                  (speaker talk) selection)
    end
  else Normal (WholeTalk (session talk) (title talk) (speaker talk)
                 (description talk) (numbered (body talk))
                 (audio talk) (pdf talk) (link talk)).

(** [getConferenceTalk(args, conferenceData)].  An inherited member passes
    the guard [!talks] and has no [find]: the lookup throws as soon as it
    calls it, and reports no talk when it has neither slug nor title. *)
Definition getConferenceTalk (args : TalkArgs)
    (conferenceData : ConferenceData) : completion TalkResponse :=
  match get (sessions conferenceData) (ta_session args) with
  | Undefined => Throw (sessionNotFound args)
  | Inherited =>
      if truthy_str (ta_slug args) || truthy_str (ta_title args)
      then Throw (notAFunction (lit "talks.find"))
      else Throw (talkNotFound args)
  | Own talks =>
      match findTalk talks args with
      | None => Throw (talkNotFound args)
      | Some talk => talkReply talk args
      end
  end.

End Talks.

(* ================================================================== *)
(** ** The web-scraping revision: [getScripture] *)
(* ================================================================== *)

Module Web.

Definition BASE_URL : str := lit "https://www.churchofjesuschrist.org/study".

Definition SCRIPTURE_COLLECTIONS : list (str * str) :=
  [ (lit "old-testament", lit "ot");
    (lit "new-testament", lit "nt");
    (lit "book-of-mormon", lit "bofm");
    (lit "doctrine-and-covenants", lit "dc-testament");
    (lit "pearl-of-great-price", lit "pgp") ].

(** A verse scraped from the page: [{ verse, text }]. *)
Record ScrapedVerse := mkScraped {
  sv_verse : Z;
  sv_text : str
}.

#[export] Instance ScrapedVerse_HasVerse : HasVerse ScrapedVerse := sv_verse.

(** What the network and the HTML parser give for a URL: a rejected request,
    or a response with its status and, read off its body, the text of the
    first [h1] and the array [allVerses]. *)
Inductive Fetched :=
| Rejected (e : exn)
| Response (ok : bool) (status : Z) (statusText : str)
           (chapterTitle : str) (allVerses : list ScrapedVerse).

Record ScriptureArgs := mkScriptureArgs {
  ga_collection : str;
  ga_book : str;
  ga_chapter : Z;
  ga_verse : option Z;
  ga_verseRange : option str;
  ga_language : option str
}.

(** The object [result]; a field that was not assigned is [None]. *)
Record ScriptureResult := mkResult {
  res_reference : str;
  res_url : str;
  res_language : str;
  res_chapterTitle : str;
  res_text : option str;
  res_verse : option Z;
  res_verses : option (list ScrapedVerse)
}.

(** The message of the TypeError raised by reading a property of
    [undefined] (the wording is the engine's; this is V8's). *)
Definition readOfUndefined (prop : str) : exn :=
  TypeError (lit "Cannot read properties of undefined (reading '" ++ prop ++
             lit "')").

Definition languageOf (args : ScriptureArgs) : str :=
  match ga_language args with
  | Some l => l
  | None => lit "eng"
  end.

Definition urlOf (collectionCode : str) (args : ScriptureArgs) : str :=
  BASE_URL ++ lit "/scriptures/" ++ collectionCode ++ lit "/" ++
  ga_book args ++ lit "/" ++ NumberToString (ga_chapter args) ++
  lit "?lang=" ++ languageOf args.

Definition chapterReference (args : ScriptureArgs) : str :=
  ga_collection args ++ lit " " ++ ga_book args ++ lit " " ++
  NumberToString (ga_chapter args).

(** The reference of a verse range: the chapter reference, then the numbers
    of the first and of the last selected verse. *)
Definition rangeReference (args : ScriptureArgs) (first last : ScrapedVerse)
  : str :=
  chapterReference args ++ lit ":" ++ NumberToString (verse first) ++
  lit "-" ++ NumberToString (verse last).

(** The body of the [try] block, after the request. *)
Definition buildResult (args : ScriptureArgs) (url : str)
    (chapterTitle : str) (allVerses : list ScrapedVerse)
  : completion ScriptureResult :=
  let result := mkResult (chapterReference args) url (languageOf args)
                         chapterTitle None None None in
  if truthy_int (ga_verse args) then
    match find (fun v => strict_eq_int (verse v) (ga_verse args))
               allVerses with
    | None =>
        Throw (Error (lit "Verse " ++
                      NumberToString (match ga_verse args with
                                      | Some n => n | None => 0 end) ++
                      lit " not found in " ++ chapterReference args))
    | Some foundVerse =>
        Normal (mkResult
                  (chapterReference args ++ lit ":" ++
                   NumberToString (match ga_verse args with
                                   | Some n => n | None => 0 end))
                  url (languageOf args) chapterTitle
                  (Some (sv_text foundVerse)) (ga_verse args) None)
    end
  else if truthy_str (ga_verseRange args) then
    match parseVerseRange (ToString (ga_verseRange args)) allVerses with
    | Throw e => Throw e
    | Normal verses =>
        match nth_error verses 0,
              nth_error verses (List.length verses - 1) with
        | Some first, Some last =>
            Normal (mkResult (rangeReference args first last) url
                      (languageOf args) chapterTitle None None (Some verses))
        | _, _ => Throw (readOfUndefined (lit "verse"))
        end
    end
  else
    Normal (mkResult (chapterReference args) url (languageOf args)
                     chapterTitle None None (Some allVerses)).

(** [String(v)] for the member that an inherited key selects, as the
    template literal of the URL renders it: the source text of a native
    function, whose name is the key ([Object] for [constructor]), or the
    text of the prototype object. *)
Definition inheritedText (key : str) : str :=
  if str_eqb key (lit "__proto__") then lit "[object Object]"
  else lit "function " ++
       (if str_eqb key (lit "constructor") then lit "Object" else key) ++
       lit "() { [native code] }".

(** [SCRIPTURE_COLLECTIONS[collection]] when it is truthy, as it stands in
    the URL.  An inherited member is truthy: the guard lets it through. *)
Definition collectionCodeOf (collection : str) : option str :=
  match get SCRIPTURE_COLLECTIONS collection with
  | Own collectionCode => Some collectionCode
  | Inherited => Some (inheritedText collection)
  | Undefined => None
  end.

(** [getScripture(args)]; [fetch] stands for the network and the HTML
    parser. *)
Definition getScripture (fetch : str -> Fetched) (args : ScriptureArgs)
  : completion ScriptureResult :=
  match collectionCodeOf (ga_collection args) with
  | None => Throw (Error (lit "Invalid collection: " ++ ga_collection args))
  | Some collectionCode =>
      let url := urlOf collectionCode args in
      let attempt :=
        match fetch url with
        | Rejected e => Throw e
        | Response ok status statusText chapterTitle allVerses =>
            if negb ok then
              Throw (Error (lit "Failed to fetch scripture: " ++
                            NumberToString status ++ lit " " ++ statusText))
            else buildResult args url chapterTitle allVerses
        end in
      match attempt with
      | Normal r => Normal r
      | Throw error =>
          Throw (Error (lit "Error fetching scripture: " ++ message error))
      end
  end.

End Web.

(* ================================================================== *)
(** ** Vocabulary of the statements *)
(* ================================================================== *)

(** Decimal digits and the number a string of them denotes. *)
Definition isDecimalDigit (c : char) : bool :=
  (48 <=? c)%N && (c <=? 57)%N.

Definition decimalValue (s : str) : Z :=
  mathInt 10 (map (fun c => Z.of_N c - 48) s).

(** A string of decimal digits with at least one digit. *)
Definition isNumeral (s : str) : Prop :=
  s <> [] /\ forallb isDecimalDigit s = true.

(** The positions [1 .. n]. *)
Definition positions (n : nat) : list Z := map Z.of_nat (seq 1 n).

(** A verse for worked cases: number [n], with the same reference and text
    for every number. *)
Definition sampleVerse (n : Z) : Verse :=
  mkVerse n (lit "1 Nephi 3") (lit "And it came to pass").

Definition sampleVerses : list Verse :=
  [sampleVerse 1; sampleVerse 2; sampleVerse 3].

(** A verse together with the collection, book and chapter it is found
    in. *)
Record Located := mkLocated {
  l_collection : str;
  l_book : Book;
  l_chapter : Chapter;
  l_verse : Verse
}.

(** The match record of a located verse. *)
Definition matchOf (l : Located) : Match :=
  mkMatch (l_collection l) (b_book (l_book l)) (ch_chapter (l_chapter l))
          (v_verse (l_verse l)) (v_reference (l_verse l))
          (v_text (l_verse l)).

(** The verses of the corpus that lie in the scope of a request, in the
    order collection, book, chapter, verse. *)
Definition versesOfChapter (args : SearchArgs) (coll : str) (b : Book)
    (ch : Chapter) : list Located :=
  if truthy_int (sa_chapter args) &&
     negb (strict_eq_int (ch_chapter ch) (sa_chapter args))
  then []
  else map (mkLocated coll b ch) (ch_verses ch).

Definition versesOfBook (args : SearchArgs) (coll : str) (b : Book)
  : list Located :=
  if truthy_str (sa_book args) &&
     negb (strict_eq_str (sa_book args) (b_book b))
  then []
  else flat_map (versesOfChapter args coll b) (b_chapters b).

Definition versesOfCollection (args : SearchArgs)
    (scriptureData : ScriptureData) (coll : str) : list Located :=
  match property scriptureData coll with
  | None => []
  | Some collData => flat_map (versesOfBook args coll) (books collData)
  end.

Definition traversal (args : SearchArgs) (scriptureData : ScriptureData)
  : list Located :=
  flat_map (versesOfCollection args scriptureData)
           (collectionsToSearch args scriptureData).

(** The request names, as its collection, a member that the corpus only
    inherits: the one case in which the loops throw. *)
Definition inheritedCollection (args : SearchArgs)
    (scriptureData : ScriptureData) : bool :=
  truthy_str (sa_collection args) &&
  match property scriptureData (ToString (sa_collection args)) with
  | Some _ => false
  | None => isInherited (ToString (sa_collection args))
  end.

Section SearchVocabulary.
Context `{CaseFolding}.

(** A located verse matches the request. *)
Definition hit (args : SearchArgs) (l : Located) : bool :=
  verseMatches (toLowerCase (sa_query args)) (l_verse l).

(** Every match in the scope of the request, in traversal order. *)
Definition allMatches (args : SearchArgs) (scriptureData : ScriptureData)
  : list Match :=
  map matchOf (filter (hit args) (traversal args scriptureData)).

(** The innermost loop body on a located verse. *)
Definition locatedStep (term : str) (maxResults : Z) (l : Located)
    (s : Scan) : flow Scan Scan :=
  verseStep term maxResults (l_collection l) (l_book l) (l_chapter l)
            (l_verse l) s.

End SearchVocabulary.

(** The request [args] with another query. *)
Definition withQuery (query : str) (args : SearchArgs) : SearchArgs :=
  mkSearchArgs query (sa_collection args) (sa_book args) (sa_chapter args)
               (sa_maxResults args).

(** The count and the results of a reply, without the echoed query. *)
Definition outcome (r : completion SearchResponse)
  : completion (Z * list Match) :=
  match r with
  | Normal response => Normal (r_count response, r_results response)
  | Throw e => Throw e
  end.

(** The two errors of the scope check. *)
Definition InvalidScope (e : exn) : Prop :=
  e = bookScopeError \/ e = chapterScopeError.

(** [toLowerCase] on ASCII text, to run worked cases. *)
Definition asciiLowerCase : CaseFolding :=
  map (fun c => if (65 <=? c)%N && (c <=? 90)%N then (c + 32)%N else c).

Definition sampleCorpus : ScriptureData :=
  [ (lit "book-of-mormon",
     mkCollection
       [ mkBook (lit "Alma")
           [ mkChapter 32
               [ mkVerse 21 (lit "Alma 32:21")
                   (lit "Faith is not to have a perfect knowledge");
                 mkVerse 22 (lit "Alma 32:22")
                   (lit "God is merciful unto all who believe");
                 mkVerse 26 (lit "Alma 32:26")
                   (lit "your FAITH is dormant") ] ];
         mkBook (lit "Moroni")
           [ mkChapter 7
               [ mkVerse 1 (lit "Moroni 7:1")
                   (lit "faith, hope, and charity") ] ] ]) ].

(** A request for the worked cases: [faith] in the book of Alma, at most two
    results. *)
Definition sampleRequest : SearchArgs :=
  mkSearchArgs (lit "faith") (Some (lit "book-of-mormon"))
               (Some (lit "Alma")) None (Some 2).

(** The same request with room for one result only. *)
Definition firstMatchRequest : SearchArgs :=
  mkSearchArgs (lit "faith") (Some (lit "book-of-mormon"))
               (Some (lit "Alma")) None (Some 1).

(** A request for the collection [constructor], which no corpus has. *)
Definition constructorRequest : SearchArgs :=
  mkSearchArgs (lit "faith") (Some (lit "constructor")) None None None.

(** A request with a book and no collection. *)
Definition bookOnlyRequest : SearchArgs :=
  mkSearchArgs (lit "faith") None (Some (lit "Alma")) None None.

(** The normal form of a title, said in another way than the code does:
    fold the case, read every quotation mark (left and right double
    quotation mark, apostrophe) as the ASCII double quote, take the words,
    which are the maximal runs of lower-case ASCII letters, digits and
    double quotes, and put one space between two words.  Punctuation and
    white space of any kind and length only separate words. *)
Definition plainQuote (c : char) : char :=
  if existsb (N.eqb c) [8220; 8221; 39]%N then 34%N else c.

Definition isWordChar (c : char) : bool :=
  ((97 <=? c)%N && (c <=? 122)%N) || ((48 <=? c)%N && (c <=? 57)%N) ||
  (c =? 34)%N.

Definition isSeparator (c : char) : bool := negb (isWordChar c).

Definition startsWord (s : str) : bool :=
  match s with
  | c :: _ => isWordChar c
  | [] => false
  end.

Fixpoint words (s : str) : list str :=
  match s with
  | [] => []
  | c :: s' =>
      if isWordChar c then
        if startsWord s' then
          match words s' with
          | w :: ws => (c :: w) :: ws
          | [] => [[c]]
          end
        else [c] :: words s'
      else words s'
  end.

Fixpoint unwords (ws : list str) : str :=
  match ws with
  | [] => []
  | [w] => w
  | w :: rest => w ++ 32%N :: unwords rest
  end.

Section TalkVocabulary.
Context `{CaseFolding}.

Definition normalForm (s : str) : str :=
  unwords (words (map plainQuote (toLowerCase s))).

(** The four tiers of the talk lookup, each as a search of its own: by
    slug, by title, by the normal form of the title, by containment of the
    normal form of the title.  The first needs a slug in the request, the
    others a title. *)
Definition bySlug (talks : list ConferenceTalkMeta) (args : TalkArgs)
  : option ConferenceTalkMeta :=
  if truthy_str (ta_slug args) then
    find (fun t => str_eqb (slug t) (ToString (ta_slug args))) talks
  else None.

Definition byTitle (talks : list ConferenceTalkMeta) (args : TalkArgs)
  : option ConferenceTalkMeta :=
  if truthy_str (ta_title args) then
    find (fun t => str_eqb (title t) (ToString (ta_title args))) talks
  else None.

Definition byNormalizedTitle (talks : list ConferenceTalkMeta)
    (args : TalkArgs) : option ConferenceTalkMeta :=
  if truthy_str (ta_title args) then
    find (fun t => str_eqb (normalForm (title t))
                           (normalForm (ToString (ta_title args)))) talks
  else None.

Definition byContainedTitle (talks : list ConferenceTalkMeta)
    (args : TalkArgs) : option ConferenceTalkMeta :=
  if truthy_str (ta_title args) then
    find (fun t => includes (normalForm (title t))
                            (normalForm (ToString (ta_title args)))) talks
  else None.

End TalkVocabulary.

(** The first tier that finds something. *)
Fixpoint firstFound {A} (tiers : list (option A)) : option A :=
  match tiers with
  | [] => None
  | Some a :: _ => Some a
  | None :: rest => firstFound rest
  end.

Definition sampleTalk : ConferenceTalkMeta :=
  mkTalk (lit "Dieter F. Uchtdorf") (lit "Faith, Hope & Charity!") None
         [lit "Brethren"; lit "I testify"; lit "Amen"]
         None None None None (lit "2008-10") (lit "faith-hope-charity").

Definition sampleConference : ConferenceData :=
  mkConferenceData [(lit "2008-10", [sampleTalk])] [sampleTalk].

(** A request by a fragment of the title, in another case. *)
Definition fragmentRequest : TalkArgs :=
  mkTalkArgs (lit "2008-10") (Some (lit "HOPE")) None None None.

(** A talk whose title stands between quotation marks, and a request for
    it by a title in other letters, other quotation marks and other
    spacing. *)
Definition quotedTalk : ConferenceTalkMeta :=
  mkTalk (lit "Russell M. Nelson")
         (8220%N :: lit "Come, Follow Me" ++ [8221%N]) None
         [lit "My dear brothers and sisters"]
         None None None None (lit "2019-04") (lit "come-follow-me").

Definition quotedConference : ConferenceData :=
  mkConferenceData [(lit "2019-04", [quotedTalk])] [quotedTalk].

Definition respelledRequest : TalkArgs :=
  mkTalkArgs (lit "2019-04") (Some (lit " 'COME   follow: me' ")) None None
             None.

(** A request for a talk that is not in the session. *)
Definition unknownRequest : TalkArgs :=
  mkTalkArgs (lit "2008-10") (Some (lit "Mercy")) (Some (lit "mercy"))
             None None.

(** A page of six verses, and a request for the verses 5 to 3 of it. *)
Definition samplePage (url : str) : Web.Fetched :=
  Web.Response true 200 (lit "OK") (lit "1 Nephi 3")
    (map (fun n => Web.mkScraped n (lit "And it came to pass"))
         [1; 2; 3; 4; 5; 6]).

Definition rangeRequest (verseRange : str) : Web.ScriptureArgs :=
  Web.mkScriptureArgs (lit "book-of-mormon") (lit "1-ne") 3 None
                      (Some verseRange) None.

(** The code units that [normalize] can leave in a title: [a-z], [0-9], the
    double quote and the space. *)
Definition isNormalChar (c : char) : bool :=
  ((97 <=? c)%N && (c <=? 122)%N) || ((48 <=? c)%N && (c <=? 57)%N) ||
  (c =? 34)%N || (c =? 32)%N.

(** The verses numbered [1 .. n]. *)
Definition versesUpTo (n : nat) : list Verse :=
  map sampleVerse (positions n).

(* ================================================================== *)
(** ** Book information and scripture text *)
(* ================================================================== *)

(** [scriptureData[collection]?.books.find(b => b.book === book)], the
    expression that opens [getBookInfo] and [getScriptureText].  The [?.]
    stops at a missing collection only: an inherited member has no [books],
    and reading [find] of it throws. *)
Definition findBook (scriptureData : ScriptureData) (collection book : str)
  : completion (option Book) :=
  match get scriptureData collection with
  | Undefined => Normal None
  | Inherited => Throw (Web.readOfUndefined (lit "find"))
  | Own collData =>
      Normal (find (fun b => str_eqb (b_book b) book) (books collData))
  end.

Definition bookNotFound (collection book : str) : exn :=
  Error (lit "Book not found: " ++ book ++ lit " in " ++ collection).

(** An element of [chapter_details]. *)
Record ChapterInfo := mkChapterInfo {
  ci_chapter : Z;
  ci_verses : Z
}.

(** The object that [getBookInfo] serialises. *)
Record BookInfo := mkBookInfo {
  info_book : str;
  info_chapters : Z;
  info_chapter_details : list ChapterInfo
}.

(** [getBookInfo(args, scriptureData)], with [args = { collection, book }]. *)
Definition getBookInfo (collection book : str)
    (scriptureData : ScriptureData) : completion BookInfo :=
  match findBook scriptureData collection book with
  | Throw e => Throw e
  | Normal None => Throw (bookNotFound collection book)
  | Normal (Some bookData) =>
      let chapterInfo :=
        map (fun c => mkChapterInfo (ch_chapter c)
                        (Z.of_nat (List.length (ch_verses c))))
            (b_chapters bookData) in
      Normal (mkBookInfo (b_book bookData)
                         (Z.of_nat (List.length chapterInfo)) chapterInfo)
  end.

(** The arguments of the tool [get_scripture_text]. *)
Record TextArgs := mkTextArgs {
  tx_collection : str;
  tx_book : str;
  tx_chapter : Z;
  tx_verse : option Z;
  tx_verseRange : option str
}.

(** The three values that [getScriptureText] serialises: a verse, an array
    of verses, a chapter. *)
Inductive TextReply :=
| OneVerse (verseData : Verse)
| SomeVerses (verses : list Verse)
| WholeChapter (chapterData : Chapter).

Definition chapterNotFound (args : TextArgs) : exn :=
  Error (lit "Chapter not found: " ++ NumberToString (tx_chapter args) ++
         lit " in " ++ tx_book args).

Definition verseNotFound (args : TextArgs) : exn :=
  Error (lit "Verse not found: " ++
         NumberToString (match tx_verse args with Some n => n | None => 0 end)
         ++ lit " in " ++ tx_book args ++ lit " " ++
         NumberToString (tx_chapter args)).

(** [getScriptureText(args, scriptureData)]. *)
Definition getScriptureText (args : TextArgs) (scriptureData : ScriptureData)
  : completion TextReply :=
  match findBook scriptureData (tx_collection args) (tx_book args) with
  | Throw e => Throw e
  | Normal None => Throw (bookNotFound (tx_collection args) (tx_book args))
  | Normal (Some bookData) =>
      match find (fun c => ch_chapter c =? tx_chapter args)
                 (b_chapters bookData) with
      | None => Throw (chapterNotFound args)
      | Some chapterData =>
          if truthy_int (tx_verse args) then
            match find (fun v => strict_eq_int (verse v) (tx_verse args))
                       (ch_verses chapterData) with
            | None => Throw (verseNotFound args)
            | Some verseData => Normal (OneVerse verseData)
            end
          else if truthy_str (tx_verseRange args) then
            match parseVerseRange (ToString (tx_verseRange args))
                                  (ch_verses chapterData) with
            | Throw e => Throw e
            | Normal verses => Normal (SomeVerses verses)
            end
          else Normal (WholeChapter chapterData)
      end
  end.

(* ================================================================== *)
(** ** Listing and searching conference talks *)
(* ================================================================== *)

(** An element of [talks] in the reply of [listConferenceTalks]. *)
Record TalkEntry := mkTalkEntry {
  te_title : str;
  te_speaker : str;
  te_slug : str
}.

(** The two shapes of the reply of [listConferenceTalks]. *)
Inductive TalkListing :=
| SessionTalks (session : str) (talk_count : Z) (talks : list TalkEntry)
| SessionIndex (sessions : list (str * Z)).

(** The order of [Array.prototype.sort] without a comparator, on strings:
    the order of the code units, a prefix before its extensions. *)
Fixpoint str_leb (a b : str) : bool :=
  match a, b with
  | [], _ => true
  | _ :: _, [] => false
  | c :: a', d :: b' =>
      if (c <? d)%N then true
      else if (d <? c)%N then false
      else str_leb a' b'
  end.

(** [xs.sort()] on an array of strings, by insertion; the sort is stable,
    and equal strings are indistinguishable. *)
Fixpoint insertSorted (x : str) (sorted : list str) : list str :=
  match sorted with
  | [] => [x]
  | y :: rest =>
      if str_leb x y then x :: y :: rest else y :: insertSorted x rest
  end.

Fixpoint sort (xs : list str) : list str :=
  match xs with
  | [] => []
  | x :: rest => insertSorted x (sort rest)
  end.

(** [names.map(s => ({ session: s, talks: sessions[s].length }))], for
    names that are own keys of the object, as those of [Object.keys] are;
    reading [length] of a missing property throws. *)
Fixpoint countTalks {V} (sessions : list (str * list V)) (names : list str)
  : completion (list (str * Z)) :=
  match names with
  | [] => Normal []
  | s :: rest =>
      match property sessions s with
      | None => Throw (Web.readOfUndefined (lit "length"))
      | Some talks =>
          match countTalks sessions rest with
          | Throw e => Throw e
          | Normal counted =>
              Normal ((s, Z.of_nat (List.length talks)) :: counted)
          end
      end
  end.

(** [listConferenceTalks(args, conferenceData)], with
    [args = { session }]. *)
Definition listConferenceTalks (session0 : option str)
    (conferenceData : ConferenceData) : completion TalkListing :=
  if truthy_str session0 then
    match get (sessions conferenceData) (ToString session0) with
    | Undefined =>
        Throw (Error (lit "Session not found: " ++ ToString session0))
    | Inherited => Throw (notAFunction (lit "talks.map"))
    | Own talks =>
        Normal (SessionTalks (ToString session0)
                  (Z.of_nat (List.length talks))
                  (map (fun t => mkTalkEntry (title t) (speaker t) (slug t))
                       talks))
    end
  else
    match countTalks (sessions conferenceData)
                     (sort (keys (sessions conferenceData))) with
    | Throw e => Throw e
    | Normal index => Normal (SessionIndex index)
    end.

(** The arguments of the tool [search_conference_talks]. *)
Record TalkSearchArgs := mkTalkSearchArgs {
  ts_query : str;
  ts_session : option str;
  ts_maxResults : option Z
}.

(** An element of [matches] in [searchConferenceTalks]. *)
Record TalkMatch := mkTalkMatch {
  tm_session : str;
  tm_title : str;
  tm_speaker : str;
  tm_paragraph : Z;
  tm_text : str
}.

Record TalkSearchResponse := mkTalkSearchResponse {
  tr_query : str;
  tr_count : Z;
  tr_results : list TalkMatch
}.

(** The elements of an array with their indices, from [i]. *)
Fixpoint entriesFrom {X} (i : Z) (xs : list X) : list (Z * X) :=
  match xs with
  | [] => []
  | x :: rest => (i, x) :: entriesFrom (i + 1) rest
  end.

(** The state of a loop when it is over, whether it ran to its end or was
    left by [break]. *)
Definition afterLoop {S} (f : flow S S) : S :=
  match f with Continue s | Return s => s end.

Definition talkLimitOf (args : TalkSearchArgs) : Z :=
  match ts_maxResults args with
  | Some n => n
  | None => 20
  end.

Section TalkSearch.
Context `{CaseFolding}.

(** The body of the loop over the paragraphs of a talk; [Return] is its
    [break]. *)
Definition paragraphStep (term : str) (maxResults : Z)
    (talk : ConferenceTalkMeta) (entry : Z * str) (found : list TalkMatch)
  : flow (list TalkMatch) (list TalkMatch) :=
  let '(i, para) := entry in
  if includes (toLowerCase para) term then
    let found' :=
      found ++ [mkTalkMatch (session talk) (title talk) (speaker talk)
                            (i + 1) para] in
    if Z.of_nat (List.length found') >=? maxResults then Return found'
    else Continue found'
  else Continue found.

(** The body of the loop over the talks: the loop over the paragraphs, then
    the second [break]. *)
Definition talkStep (term : str) (maxResults : Z)
    (talk : ConferenceTalkMeta) (found : list TalkMatch)
  : flow (list TalkMatch) (list TalkMatch) :=
  let found' :=
    afterLoop (forOf (paragraphStep term maxResults talk)
                     (entriesFrom 0 (body talk)) found) in
  if Z.of_nat (List.length found') >=? maxResults then Return found'
  else Continue found'.

Definition talksToSearch (args : TalkSearchArgs)
    (conferenceData : ConferenceData) : list ConferenceTalkMeta :=
  if truthy_str (ts_session args) then
    filter (fun t => str_eqb (session t) (ToString (ts_session args)))
           (allTalks conferenceData)
  else allTalks conferenceData.

(** [searchConferenceTalks(args, conferenceData)]. *)
Definition searchConferenceTalks (args : TalkSearchArgs)
    (conferenceData : ConferenceData) : completion TalkSearchResponse :=
  let term := toLowerCase (ts_query args) in
  let found :=
    afterLoop (forOf (talkStep term (talkLimitOf args))
                     (talksToSearch args conferenceData) []) in
  Normal (mkTalkSearchResponse (ts_query args)
                               (Z.of_nat (List.length found)) found).

End TalkSearch.

(* ================================================================== *)
(** ** More vocabulary *)
(* ================================================================== *)

(** [xs] is [ys] with some elements left out, the others in place. *)
Inductive Subsequence {X} : list X -> list X -> Prop :=
| sub_nil : Subsequence [] []
| sub_skip (y : X) (xs ys : list X) :
    Subsequence xs ys -> Subsequence xs (y :: ys)
| sub_keep (x : X) (xs ys : list X) :
    Subsequence xs ys -> Subsequence (x :: xs) (x :: ys).

(** The number read by the range functions in a numbered paragraph. *)
Definition Item_HasVerse : HasVerse Item := paragraph.

(** Requests for a whole chapter, for one verse and for a range of
    verses. *)
Definition chapterRequest (collection book : str) (chapter : Z) : TextArgs :=
  mkTextArgs collection book chapter None None.

Definition verseRequest (collection book : str) (chapter n : Z) : TextArgs :=
  mkTextArgs collection book chapter (Some n) None.

Definition versesRequest (collection book : str) (chapter : Z)
    (verseRange : str) : TextArgs :=
  mkTextArgs collection book chapter None (Some verseRange).

Section TalkSearchVocabulary.
Context `{CaseFolding}.

(** A paragraph of a talk, with its index, matches the request. *)
Definition paragraphHit (args : TalkSearchArgs)
    (located : ConferenceTalkMeta * (Z * str)) : bool :=
  includes (toLowerCase (snd (snd located))) (toLowerCase (ts_query args)).

(** The match record of a paragraph of a talk. *)
Definition talkMatchOf (located : ConferenceTalkMeta * (Z * str))
  : TalkMatch :=
  mkTalkMatch (session (fst located)) (title (fst located))
              (speaker (fst located)) (fst (snd located) + 1)
              (snd (snd located)).

(** The paragraphs of the talks to search, each with its talk and its
    index, in the order talk, paragraph. *)
Definition paragraphsToSearch (args : TalkSearchArgs)
    (conferenceData : ConferenceData)
  : list (ConferenceTalkMeta * (Z * str)) :=
  flat_map (fun talk => map (pair talk) (entriesFrom 0 (body talk)))
           (talksToSearch args conferenceData).

(** Every matching paragraph, in that order. *)
Definition allTalkMatches (args : TalkSearchArgs)
    (conferenceData : ConferenceData) : list TalkMatch :=
  map talkMatchOf (filter (paragraphHit args)
                          (paragraphsToSearch args conferenceData)).

End TalkSearchVocabulary.

(** A loop body that collects the records of the elements that match and
    leaves the loop when it has [limit] of them. *)
Definition collectStep {Y M} (hit : Y -> bool) (record : Y -> M) (limit : Z)
    (y : Y) (found : list M) : flow (list M) (list M) :=
  if hit y then
    let found' := found ++ [record y] in
    if Z.of_nat (List.length found') >=? limit then Return found'
    else Continue found'
  else Continue found.

Definition sampleTalkSearch : TalkSearchArgs :=
  mkTalkSearchArgs (lit "TESTIFY") (Some (lit "2008-10")) (Some 5).

(** A search for the letter [e], which every paragraph of the sample talk
    has, with room for two results. *)
Definition twoResultsSearch : TalkSearchArgs :=
  mkTalkSearchArgs (lit "E") None (Some 2).

(** A request by a title made of punctuation only. *)
Definition punctuationRequest : TalkArgs :=
  mkTalkArgs (lit "2008-10") (Some (lit "?!")) None None None.

(** The request [args] for one paragraph, and for a range of paragraphs. *)
Definition forParagraph (p : Z) (args : TalkArgs) : TalkArgs :=
  mkTalkArgs (ta_session args) (ta_title args) (ta_slug args)
             (Some (inject_Z p))
             (ta_paragraphRange args).

Definition forParagraphRange (paragraphRange : str) (args : TalkArgs)
  : TalkArgs :=
  mkTalkArgs (ta_session args) (ta_title args) (ta_slug args) None
             (Some paragraphRange).

(** A request for the paragraph one and a half. *)
Definition halfwayRequest : TalkArgs :=
  mkTalkArgs (lit "2008-10") (Some (lit "HOPE")) None (Some (3 # 2)%Q) None.

(** The verse numbers of a sequence are in ascending order, none twice. *)
Definition ascending {A} `{HasVerse A} (U : list A) : Prop :=
  StronglySorted Z.lt (map verse U).

(** The range expression [first-last] of two verses. *)
Definition rangeBetween {A} `{HasVerse A} (first last : A) : str :=
  NumberToString (verse first) ++ lit "-" ++ NumberToString (verse last).

(** The request [args] with another verse range. *)
Definition withVerseRange (verseRange : str) (args : Web.ScriptureArgs)
  : Web.ScriptureArgs :=
  Web.mkScriptureArgs (Web.ga_collection args) (Web.ga_book args)
                      (Web.ga_chapter args) (Web.ga_verse args)
                      (Some verseRange) (Web.ga_language args).

(* ================================================================== *)
(** ** Facts about the built-ins *)
(* ================================================================== *)

Lemma char_eqb_eq (c d : char) : char_eqb c d = true <-> c = d.
Proof. apply N.eqb_eq. Qed.

Lemma str_eqb_eq (a b : str) : str_eqb a b = true <-> a = b.
Proof.
  revert b; induction a as [|c a IH]; intros [|d b]; simpl;
    try (split; congruence).
  rewrite andb_true_iff, IH, char_eqb_eq.
  split; [intros [-> ->]; reflexivity | intros [= -> ->]; auto].
Qed.

Lemma str_eqb_refl (a : str) : str_eqb a a = true.
Proof. now apply str_eqb_eq. Qed.

Lemma get_own {V} (o : list (str * V)) (k : str) (v : V) :
  property o k = Some v -> get o k = Own v.
Proof. unfold get. now intros ->. Qed.

Lemma property_of_key {V} (o : list (str * V)) (k : str) :
  In k (keys o) -> exists v, property o k = Some v.
Proof.
  induction o as [|[k' v'] o IH]; cbn [keys map property fst];
    [intros []|].
  destruct (str_eqb k' k) eqn:E; [eauto|].
  intros [-> | Hin]; [now rewrite str_eqb_refl in E | now apply IH].
Qed.

Lemma startsWith_spec (s t : str) :
  startsWith s t = true <-> exists post, s = t ++ post.
Proof.
  revert s; induction t as [|c t IH]; intros s; simpl.
  - split; [intros _; now exists s | reflexivity].
  - destruct s as [|d s].
    + split; [discriminate | intros [post Hp]; discriminate].
    + rewrite andb_true_iff, char_eqb_eq, IH. split.
      * intros [-> [post ->]]. eauto.
      * intros [post [= -> ->]]. eauto.
Qed.

(** [includes] is the search for a contiguous occurrence. *)
Lemma includes_spec (s t : str) :
  includes s t = true <-> exists pre post, s = pre ++ t ++ post.
Proof.
  induction s as [|c s IH]; simpl.
  - rewrite orb_false_r, startsWith_spec. split.
    + intros [post Hp]. exists [], post. exact Hp.
    + intros [pre [post Hp]]. destruct pre; [eauto | discriminate].
  - rewrite orb_true_iff, startsWith_spec, IH. split.
    + intros [[post Hp] | [pre [post Hp]]].
      * exists [], post. exact Hp.
      * exists (c :: pre), post. simpl. now rewrite Hp.
    + intros [pre [post Hp]]. destruct pre as [|c' pre]; simpl in Hp.
      * left; eauto.
      * right. injection Hp as -> ->. eauto.
Qed.

Lemma includes_char (s : str) (c : char) :
  includes s [c] = true <-> In c s.
Proof.
  induction s as [|d s IH]; simpl.
  - split; [discriminate | tauto].
  - rewrite orb_true_iff, IH, andb_true_iff, char_eqb_eq.
    destruct s; simpl; intuition congruence.
Qed.

Lemma includes_char_false (s : str) (c : char) :
  ~ In c s -> includes s [c] = false.
Proof.
  intros Hn. destruct (includes s [c]) eqn:E; [|reflexivity].
  apply includes_char in E. contradiction.
Qed.

Lemma split_without (s : str) (sep : char) :
  ~ In sep s -> split s sep = [s].
Proof.
  induction s as [|c s IH]; simpl; intros Hn; [reflexivity|].
  destruct (char_eqb c sep) eqn:E.
  - apply char_eqb_eq in E. intuition.
  - rewrite IH by tauto. reflexivity.
Qed.

Lemma split_at_first (a b : str) (sep : char) :
  ~ In sep a -> split (a ++ sep :: b) sep = a :: split b sep.
Proof.
  induction a as [|c a IH]; simpl; intros Hn.
  - unfold char_eqb. now rewrite N.eqb_refl.
  - destruct (char_eqb c sep) eqn:E.
    + apply char_eqb_eq in E. intuition.
    + rewrite IH by tauto. reflexivity.
Qed.

(** *** Decimal numerals *)

Lemma decimal_digit_cases (c : char) :
  isDecimalDigit c = true ->
  In c [48; 49; 50; 51; 52; 53; 54; 55; 56; 57]%N.
Proof.
  unfold isDecimalDigit. rewrite andb_true_iff, !N.leb_le. simpl. lia.
Qed.

Ltac each_digit c H :=
  apply decimal_digit_cases in H; simpl in H;
  repeat (destruct H as [H | H]; [subst c | ]); [ .. | contradiction].

Lemma numeral_no_char (s : str) (c : char) :
  isDecimalDigit c = false -> forallb isDecimalDigit s = true -> ~ In c s.
Proof.
  intros Hc Hs Hin. rewrite forallb_forall in Hs.
  apply Hs in Hin. congruence.
Qed.

Lemma mathInt_snoc (R : Z) (ds : list Z) (d : Z) :
  mathInt R (ds ++ [d]) = mathInt R ds * R + d.
Proof. unfold mathInt. now rewrite fold_left_app. Qed.

Lemma decimalValue_snoc (s : str) (c : char) :
  decimalValue (s ++ [c]) = decimalValue s * 10 + (Z.of_N c - 48).
Proof. unfold decimalValue. rewrite map_app. apply mathInt_snoc. Qed.

Lemma digitsOf_acc (fuel : nat) (n : Z) (acc : str) :
  digitsOf fuel n acc = digitsOf fuel n [] ++ acc.
Proof.
  revert n acc; induction fuel as [|fuel IH]; intros n acc; simpl.
  - reflexivity.
  - destruct (n <? 10); [reflexivity|].
    rewrite IH. rewrite (IH _ [_]). now rewrite <- app_assoc.
Qed.

Lemma digitsOf_numeral (fuel : nat) (n : Z) :
  0 <= n < 2 ^ Z.of_nat (S fuel) ->
  isNumeral (digitsOf (S fuel) n []) /\
  decimalValue (digitsOf (S fuel) n []) = n.
Proof.
  revert n; induction fuel as [|fuel IH]; intros n Hn.
  - assert (n = 0 \/ n = 1) as [-> | ->]
      by (change (2 ^ Z.of_nat 1) with 2 in Hn; lia);
      (split; [split; [cbn; discriminate | reflexivity] | reflexivity]).
  - remember (S fuel) as f eqn:Ef.
    cbn [digitsOf]. destruct (n <? 10) eqn:E.
    + apply Z.ltb_lt in E.
      assert (Hm : n mod 10 = n) by (apply Z.mod_small; lia).
      rewrite Hm. unfold isNumeral, decimalValue, mathInt, isDecimalDigit.
      cbn [map forallb fold_left]. rewrite Z2N.id by lia.
      repeat split; try discriminate; try lia.
      rewrite andb_true_r, andb_true_iff, !N.leb_le. lia.
    + apply Z.ltb_ge in E. rewrite digitsOf_acc.
      assert (Hq : 0 <= n / 10 < 2 ^ Z.of_nat f).
      { split; [apply Z.div_pos; lia|].
        apply Z.div_lt_upper_bound; [lia|].
        replace (Z.of_nat (S f)) with (Z.succ (Z.of_nat f)) in Hn by lia.
        rewrite Z.pow_succ_r in Hn by lia. lia. }
      subst f. destruct (IH _ Hq) as [[Hne Hall] Hval].
      pose proof (Z.mod_pos_bound n 10 ltac:(lia)) as Hm.
      repeat split.
      * intros Happ. apply app_eq_nil in Happ. destruct Happ; discriminate.
      * rewrite forallb_app, Hall. cbn [forallb].
        unfold isDecimalDigit.
        rewrite andb_true_r, !andb_true_iff, !N.leb_le. lia.
      * rewrite decimalValue_snoc, Hval, Z2N.id by lia.
        pose proof (Z.div_mod n 10 ltac:(lia)). lia.
Qed.

Lemma decimal_numeral (n : Z) :
  0 <= n -> isNumeral (decimal n) /\ decimalValue (decimal n) = n.
Proof.
  intros Hn. unfold decimal. apply digitsOf_numeral.
  split; [exact Hn|].
  rewrite Nat2Z.inj_succ, Z2Nat.id by apply Z.log2_nonneg.
  destruct (Z.eq_dec n 0) as [-> | Hz]; [reflexivity|].
  apply Z.log2_spec. lia.
Qed.

(** *** [parseInt] on numerals *)

Lemma digitsPrefix_numeral (s : str) :
  forallb isDecimalDigit s = true ->
  digitsPrefix 10 s = map (fun c => Z.of_N c - 48) s.
Proof.
  induction s as [|c s IH]; simpl; [reflexivity|].
  rewrite andb_true_iff. intros [Hc Hs]. rewrite IH by exact Hs.
  each_digit c Hc; reflexivity.
Qed.

Lemma trimStart_numeral (s : str) :
  forallb isDecimalDigit s = true -> trimStart s = s.
Proof.
  destruct s as [|c s]; simpl; [reflexivity|].
  rewrite andb_true_iff. intros [Hc _]. each_digit c Hc; reflexivity.
Qed.

Lemma stripSign_numeral (s : str) :
  forallb isDecimalDigit s = true -> stripSign s = (1, s).
Proof.
  destruct s as [|c s]; simpl; [reflexivity|].
  rewrite andb_true_iff. intros [Hc _]. each_digit c Hc; reflexivity.
Qed.

Lemma stripPrefix_numeral (s : str) :
  forallb isDecimalDigit s = true -> stripPrefix s = (10, s).
Proof.
  destruct s as [|c [|d s]]; simpl; [reflexivity| |].
  - rewrite andb_true_r. intros Hc. each_digit c Hc; reflexivity.
  - rewrite !andb_true_iff. intros [Hc [Hd _]].
    each_digit c Hc; try reflexivity. each_digit d Hd; reflexivity.
Qed.

Lemma digits_of_numeral (s : str) (R : Z) (sign : Z) :
  isNumeral s ->
  match map (fun c => Z.of_N c - 48) s with
  | [] => NaN
  | ds => Num (sign * mathInt R ds)
  end = Num (sign * mathInt R (map (fun c => Z.of_N c - 48) s)).
Proof. intros [Hne _]. destruct s; [contradiction | reflexivity]. Qed.

(** [parseInt] reads a numeral as the number it denotes. *)
Lemma parseInt_numeral (s : str) :
  isNumeral s -> parseInt (Some s) = Num (decimalValue s).
Proof.
  intros Hs. pose proof Hs as [_ Hd]. unfold parseInt, ToString.
  rewrite trimStart_numeral, stripSign_numeral, stripPrefix_numeral,
    digitsPrefix_numeral, digits_of_numeral by assumption.
  unfold decimalValue. now rewrite Z.mul_1_l.
Qed.

(** ... and a numeral after a minus sign as its opposite. *)
Lemma parseInt_minus_numeral (s : str) :
  isNumeral s -> parseInt (Some (45%N :: s)) = Num (- decimalValue s).
Proof.
  intros Hs. pose proof Hs as [_ Hd]. unfold parseInt, ToString.
  cbn [trimStart]. change (isWhiteSpace 45%N) with false. cbn [stripSign].
  rewrite stripPrefix_numeral, digitsPrefix_numeral, digits_of_numeral
    by assumption.
  unfold decimalValue. f_equal; lia.
Qed.

Lemma parseInt_NumberToString (z : Z) :
  parseInt (Some (NumberToString z)) = Num z.
Proof.
  unfold NumberToString. destruct (z <? 0) eqn:E.
  - apply Z.ltb_lt in E.
    destruct (decimal_numeral (- z)) as [Hn Hv]; [lia|].
    rewrite parseInt_minus_numeral, Hv by exact Hn. f_equal. lia.
  - apply Z.ltb_ge in E.
    destruct (decimal_numeral z) as [Hn Hv]; [lia|].
    now rewrite parseInt_numeral, Hv.
Qed.

(** *** [slice] *)

Lemma firstn_to_length {A} (xs : list A) (n : nat) :
  firstn (Nat.min n (List.length xs)) xs = firstn n xs.
Proof.
  destruct (Nat.le_ge_cases n (List.length xs)) as [Hle | Hge].
  - now rewrite Nat.min_l.
  - rewrite Nat.min_r by exact Hge. now rewrite firstn_all, firstn_all2.
Qed.

(** With one argument, [slice] drops a prefix. *)
Lemma slice_from {A} (xs : list A) (start : num) :
  slice xs start None =
  skipn (Z.to_nat (relativeIndex (Z.of_nat (List.length xs))
                                 (ToIntegerOrInfinity start))) xs.
Proof.
  unfold slice. apply firstn_all2. rewrite length_skipn. lia.
Qed.

(** [xs.slice(0, k)] for [k >= 0]: the first [k] elements, all of them when
    there are fewer. *)
Lemma slice_first {A} (xs : list A) (k : Z) :
  0 <= k -> slice xs (Num 0) (Some (Num k)) = firstn (Z.to_nat k) xs.
Proof.
  intros Hk. unfold slice, relativeIndex, ToIntegerOrInfinity.
  change (0 <? 0) with false. rewrite (proj2 (Z.ltb_ge k 0)) by exact Hk.
  rewrite (Z.min_l 0) by lia. rewrite Z.sub_0_r. cbn [Z.to_nat skipn].
  rewrite <- (firstn_to_length xs (Z.to_nat k)). f_equal. lia.
Qed.

(** [xs.slice(0, k)] for [k < 0]: all but the last [-k] elements. *)
Lemma slice_first_negative {A} (xs : list A) (k : Z) :
  k < 0 ->
  slice xs (Num 0) (Some (Num k)) =
  firstn (List.length xs - Z.to_nat (- k)) xs.
Proof.
  intros Hk. unfold slice, relativeIndex, ToIntegerOrInfinity.
  change (0 <? 0) with false. rewrite (proj2 (Z.ltb_lt k 0)) by exact Hk.
  rewrite (Z.min_l 0) by lia. rewrite Z.sub_0_r. cbn [Z.to_nat skipn].
  f_equal. lia.
Qed.

(** [xs.slice(-k)] for [k > 0]: the last [k] elements, all of them when
    there are fewer. *)
Lemma slice_last {A} (xs : list A) (k : Z) :
  0 < k ->
  slice xs (neg (Num k)) None = skipn (List.length xs - Z.to_nat k) xs.
Proof.
  intros Hk. rewrite slice_from. unfold relativeIndex, neg.
  cbn [ToIntegerOrInfinity]. rewrite (proj2 (Z.ltb_lt (- k) 0)) by lia.
  f_equal. lia.
Qed.

(** [xs.slice(-0)] is [xs.slice(0)]: the whole array. *)
Lemma slice_last_zero {A} (xs : list A) :
  slice xs (neg (Num 0)) None = xs.
Proof.
  rewrite slice_from. unfold relativeIndex, neg. cbn [ToIntegerOrInfinity].
  change (- 0 <? 0) with false. cbv iota. now rewrite Z.min_l by lia.
Qed.

(** [xs.slice(-k)] for [k < 0]: all but the first [-k] elements. *)
Lemma slice_last_negative {A} (xs : list A) (k : Z) :
  k < 0 ->
  slice xs (neg (Num k)) None = skipn (Z.to_nat (- k)) xs.
Proof.
  intros Hk. rewrite slice_from. unfold relativeIndex, neg.
  cbn [ToIntegerOrInfinity]. rewrite (proj2 (Z.ltb_ge (- k) 0)) by lia.
  destruct (Z.le_ge_cases (- k) (Z.of_nat (List.length xs))) as [Hle | Hge].
  - now rewrite Z.min_l.
  - rewrite Z.min_r by lia. rewrite Nat2Z.id.
    rewrite skipn_all. symmetry. apply skipn_all2. lia.
Qed.

Lemma slice_map {A B} (f : A -> B) (xs : list A) (a : num)
    (b : option num) :
  map f (slice xs a b) = slice (map f xs) a b.
Proof.
  unfold slice. now rewrite length_map, skipn_map, firstn_map.
Qed.

Lemma filter_map_comm {A B} (f : A -> B) (p : B -> bool) (xs : list A) :
  map f (filter (fun x => p (f x)) xs) = filter p (map f xs).
Proof.
  induction xs as [|x xs IH]; simpl; [reflexivity|].
  destruct (p (f x)); simpl; now rewrite IH.
Qed.

(* ================================================================== *)
(** ** The three forms of a range *)
(* ================================================================== *)

Ltac not_in_literal :=
  let H := fresh "Hin" in
  intros H; cbn in H;
  repeat (destruct H as [H | H]; [discriminate H|]); exact H.

Section RangeForms.
Context {A : Type} `{HasVerse A}.

(** [first:c], for a text [c] without colon: [slice(0, parseInt(c))]. *)
Lemma parseVerseRange_first (c : str) (U : list A) :
  ~ In 58%N c ->
  parseVerseRange (lit "first:" ++ c) U =
  Normal (slice U (Num 0) (Some (parseInt (Some c)))).
Proof.
  intros Hc. unfold parseVerseRange.
  change (lit ":") with [58%N].
  change (lit "first:" ++ c) with (lit "first" ++ 58%N :: c).
  rewrite (proj2 (includes_char _ _))
    by (apply in_or_app; right; now left).
  rewrite split_at_first by not_in_literal.
  rewrite split_without by exact Hc.
  cbn [destructure2 nth_error strict_eq_str].
  now rewrite str_eqb_refl.
Qed.

(** [last:c], for a text [c] without colon: [slice(-parseInt(c))]. *)
Lemma parseVerseRange_last (c : str) (U : list A) :
  ~ In 58%N c ->
  parseVerseRange (lit "last:" ++ c) U =
  Normal (slice U (neg (parseInt (Some c))) None).
Proof.
  intros Hc. unfold parseVerseRange.
  change (lit ":") with [58%N].
  change (lit "last:" ++ c) with (lit "last" ++ 58%N :: c).
  rewrite (proj2 (includes_char _ _))
    by (apply in_or_app; right; now left).
  rewrite split_at_first by not_in_literal.
  rewrite split_without by exact Hc.
  cbn [destructure2 nth_error strict_eq_str].
  change (str_eqb (lit "last") (lit "first")) with false.
  now rewrite str_eqb_refl.
Qed.

(** [a-rest], for a text [a] without colon or hyphen and a text [rest]
    without colon: the verses [v] with [parseInt(a) <= v.verse] and
    [v.verse <= parseInt(b)], where [b] is [rest] up to its first hyphen. *)
Lemma parseVerseRange_interval (a rest : str) (U : list A) :
  ~ In 58%N a -> ~ In 45%N a -> ~ In 58%N rest ->
  parseVerseRange (a ++ 45%N :: rest) U =
  Normal (filter (fun v =>
                    geb (verse v) (parseInt (Some a)) &&
                    leb (verse v) (parseInt (nth_error (split rest 45%N) 0)))
                 U).
Proof.
  intros Ha Ha' Hrest. unfold parseVerseRange.
  change (lit ":") with [58%N]. change (lit "-") with [45%N].
  rewrite includes_char_false.
  2:{ intros Hin. apply in_app_or in Hin.
      destruct Hin as [Hin | [Hin | Hin]];
        [tauto | discriminate Hin | tauto]. }
  rewrite (proj2 (includes_char _ _))
    by (apply in_or_app; right; now left).
  rewrite split_at_first by exact Ha'.
  reflexivity.
Qed.

(** A text without colon or hyphen: the verses numbered [parseInt] of it,
    or the error when that is [NaN]. *)
Lemma parseVerseRange_single (s : str) (U : list A) :
  ~ In 58%N s -> ~ In 45%N s ->
  parseVerseRange s U =
  if isNaN (parseInt (Some s)) then Throw (invalidVerseRange s)
  else Normal (filter (fun v => strict_eq (verse v) (parseInt (Some s))) U).
Proof.
  intros Hc Hh. unfold parseVerseRange.
  change (lit ":") with [58%N]. change (lit "-") with [45%N].
  rewrite !includes_char_false by assumption.
  now destruct (isNaN (parseInt (Some s))).
Qed.

End RangeForms.

Lemma numeral_no_colon (s : str) : isNumeral s -> ~ In 58%N s.
Proof. intros [_ Hs]. now apply numeral_no_char. Qed.

Lemma numeral_no_hyphen (s : str) : isNumeral s -> ~ In 45%N s.
Proof. intros [_ Hs]. now apply numeral_no_char. Qed.

Lemma NumberToString_nonnegative (k : Z) :
  0 <= k -> NumberToString k = decimal k.
Proof.
  intros Hk. unfold NumberToString.
  now rewrite (proj2 (Z.ltb_ge k 0)) by exact Hk.
Qed.

Lemma NumberToString_negative (k : Z) :
  k < 0 -> NumberToString k = 45%N :: decimal (- k).
Proof.
  intros Hk. unfold NumberToString.
  now rewrite (proj2 (Z.ltb_lt k 0)) by exact Hk.
Qed.

Lemma NumberToString_no_colon (k : Z) : ~ In 58%N (NumberToString k).
Proof.
  destruct (Z.lt_ge_cases k 0) as [Hk | Hk].
  - rewrite NumberToString_negative by exact Hk.
    intros [Hin | Hin]; [discriminate Hin|].
    revert Hin. apply numeral_no_colon, decimal_numeral. lia.
  - rewrite NumberToString_nonnegative by exact Hk.
    now apply numeral_no_colon, decimal_numeral.
Qed.

(* ================================================================== *)
(** ** Relative windows: [first:k] and [last:k] *)
(* ================================================================== *)

Section Windows.
Context {A : Type} `{HasVerse A}.

(** [first:k] for [k >= 0]: the first [min k n] units, in order. *)
Lemma first_window (U : list A) (k : Z) :
  0 <= k ->
  parseVerseRange (lit "first:" ++ NumberToString k) U =
  Normal (firstn (Nat.min (Z.to_nat k) (List.length U)) U).
Proof.
  intros Hk.
  rewrite parseVerseRange_first by apply NumberToString_no_colon.
  rewrite parseInt_NumberToString, slice_first by exact Hk.
  now rewrite firstn_to_length.
Qed.

(** [last:k] for [k >= 1]: the last [min k n] units, in order. *)
Lemma last_window (U : list A) (k : Z) :
  1 <= k ->
  parseVerseRange (lit "last:" ++ NumberToString k) U =
  Normal (skipn (List.length U - Nat.min (Z.to_nat k) (List.length U)) U).
Proof.
  intros Hk.
  rewrite parseVerseRange_last by apply NumberToString_no_colon.
  rewrite parseInt_NumberToString, slice_last by lia.
  do 2 f_equal. lia.
Qed.

(** C1, where the code departs from the claim: on [last:0] the resolver
    returns the whole sequence, whatever its length, and not the trailing
    [min 0 n = 0] units; [slice(-0)] is [slice(0)].  ([first:k] for every
    [k >= 0] and [last:k] for every [k >= 1] are as the claim says:
    [first_window] and [last_window].) *)
Theorem last_zero_selects_everything (U : list A) :
  parseVerseRange (lit "last:" ++ NumberToString 0) U = Normal U.
Proof.
  rewrite parseVerseRange_last by apply NumberToString_no_colon.
  now rewrite parseInt_NumberToString, slice_last_zero.
Qed.

(** C4, as amended: [first:0] selects nothing; for [k < 0], [first:k]
    selects all the units but the last [-k] and [last:k] all the units but
    the first [-k] (nothing when there are at most [-k] units); each call
    completes normally. *)
Theorem nonpositive_counts (U : list A) :
  parseVerseRange (lit "first:" ++ NumberToString 0) U = Normal [] /\
  forall k : Z, k < 0 ->
    parseVerseRange (lit "first:" ++ NumberToString k) U =
      Normal (firstn (List.length U - Z.to_nat (- k)) U) /\
    parseVerseRange (lit "last:" ++ NumberToString k) U =
      Normal (skipn (Z.to_nat (- k)) U).
Proof.
  split.
  - rewrite first_window by lia. reflexivity.
  - intros k Hk. split.
    + rewrite parseVerseRange_first by apply NumberToString_no_colon.
      now rewrite parseInt_NumberToString, slice_first_negative.
    + rewrite parseVerseRange_last by apply NumberToString_no_colon.
      now rewrite parseInt_NumberToString, slice_last_negative.
Qed.

End Windows.

Lemma nonpositive_counts_witness :
  -1 < 0 /\
  parseVerseRange (lit "first:" ++ NumberToString (-1)) sampleVerses =
    Normal [sampleVerse 1; sampleVerse 2] /\
  parseVerseRange (lit "last:" ++ NumberToString (-1)) sampleVerses =
    Normal [sampleVerse 2; sampleVerse 3].
Proof.
  split; [lia|].
  apply (proj2 (nonpositive_counts sampleVerses) (-1)). lia.
Defined.

(** C4 as stated fails: [first:-1] on three verses selects the first two,
    not nothing. *)
Lemma negative_count_not_empty :
  parseVerseRange (lit "first:" ++ NumberToString (-1)) sampleVerses <>
  Normal [].
Proof. vm_compute. discriminate. Qed.

(* ================================================================== *)
(** ** Intervals and single numbers *)
(* ================================================================== *)

Lemma filter_nothing {X} (p : X -> bool) (xs : list X) :
  (forall x, In x xs -> p x = false) -> filter p xs = [].
Proof.
  induction xs as [|x xs IH]; simpl; intros Hp; [reflexivity|].
  rewrite (Hp x) by now left. apply IH. intros y Hy. apply Hp. now right.
Qed.

Lemma at_most_one_at {X} (f : X -> Z) (n : Z) (xs : list X) :
  NoDup (map f xs) ->
  (List.length (filter (fun x => (f x =? n)%Z) xs) <= 1)%nat.
Proof.
  induction xs as [|x xs IH]; simpl; intros Hnd; [lia|].
  inversion Hnd as [|y ys Hnotin Hnd']; subst.
  destruct (f x =? n) eqn:E; [|now apply IH].
  apply Z.eqb_eq in E. rewrite filter_nothing; [simpl; lia|].
  intros y Hy. apply Z.eqb_neq. intros Hfy. apply Hnotin.
  rewrite E, <- Hfy. now apply in_map.
Qed.

Section Intervals.
Context {A : Type} `{HasVerse A}.

Lemma NumberToString_plain (k : Z) :
  0 <= k ->
  ~ In 58%N (NumberToString k) /\ ~ In 45%N (NumberToString k).
Proof.
  intros Hk. rewrite NumberToString_nonnegative by exact Hk.
  destruct (decimal_numeral k Hk) as [Hn _].
  split; [now apply numeral_no_colon | now apply numeral_no_hyphen].
Qed.

(** C2, as amended: for integers [a >= 0] and [b], the expression [a-b]
    selects exactly the units [u] with [a <= u.position <= b], in their
    original order, and nothing (normally, with no swap) when [a > b]; the
    expression [n] selects exactly the units at position [n], at most one
    when the positions are distinct, provided [n >= 0] or no unit has a
    negative position. *)
Theorem interval_and_single (U : list A) :
  (forall a b : Z, 0 <= a ->
     parseVerseRange (NumberToString a ++ lit "-" ++ NumberToString b) U =
       Normal (filter (fun u => (a <=? verse u) && (verse u <=? b)) U) /\
     (b < a ->
      parseVerseRange (NumberToString a ++ lit "-" ++ NumberToString b) U =
        Normal [])) /\
  (forall n : Z, 0 <= n \/ (forall u, In u U -> 0 <= verse u) ->
     parseVerseRange (NumberToString n) U =
       Normal (filter (fun u => verse u =? n) U) /\
     (NoDup (map verse U) ->
      (List.length (filter (fun u => (verse u =? n)%Z) U) <= 1)%nat)).
Proof.
  split.
  - intros a b Ha.
    destruct (NumberToString_plain a Ha) as [Hac Hah].
    assert (E : parseVerseRange
                  (NumberToString a ++ lit "-" ++ NumberToString b) U =
                Normal (filter (fun u => (a <=? verse u) && (verse u <=? b))
                               U)).
    { change (lit "-" ++ NumberToString b) with (45%N :: NumberToString b).
      rewrite parseVerseRange_interval
        by (try assumption; apply NumberToString_no_colon).
      rewrite parseInt_NumberToString.
      destruct (Z.lt_ge_cases b 0) as [Hb | Hb].
      - rewrite NumberToString_negative by exact Hb.
        cbn [split]. change (char_eqb 45%N 45%N) with true.
        cbn [nth_error]. change (parseInt (Some [])) with NaN.
        rewrite !filter_nothing; [reflexivity | |].
        + intros u _. apply andb_false_iff.
          destruct (Z.le_gt_cases a (verse u)).
          * right. apply Z.leb_gt. lia.
          * left. apply Z.leb_gt. lia.
        + intros u _. apply andb_false_r.
      - destruct (NumberToString_plain b Hb) as [_ Hbh].
        rewrite split_without by exact Hbh. cbn [nth_error].
        now rewrite parseInt_NumberToString. }
    split; [exact E|].
    intros Hlt. rewrite E. f_equal. apply filter_nothing.
    intros u _. apply andb_false_iff.
    destruct (Z.le_gt_cases a (verse u)).
    + right. apply Z.leb_gt. lia.
    + left. apply Z.leb_gt. lia.
  - intros n Hn. split; [|apply at_most_one_at].
    destruct (Z.lt_ge_cases n 0) as [Hneg | Hpos].
    + destruct Hn as [Hn | Hn]; [lia|].
      rewrite NumberToString_negative by exact Hneg.
      change (45%N :: decimal (- n)) with ([] ++ 45%N :: decimal (- n)).
      rewrite parseVerseRange_interval.
      * change (parseInt (Some [])) with NaN.
        rewrite !filter_nothing; [reflexivity | |].
        -- intros u Hu. apply Z.eqb_neq. specialize (Hn u Hu). lia.
        -- intros u _. reflexivity.
      * intros [].
      * intros [].
      * apply numeral_no_colon, decimal_numeral. lia.
    + destruct (NumberToString_plain n Hpos) as [Hc Hh].
      rewrite parseVerseRange_single by assumption.
      now rewrite parseInt_NumberToString.
Qed.

End Intervals.

Lemma interval_and_single_witness :
  0 <= 2 /\
  parseVerseRange (NumberToString 2 ++ lit "-" ++ NumberToString 3)
                  sampleVerses =
    Normal [sampleVerse 2; sampleVerse 3].
Proof.
  split; [lia|].
  refine (proj1 (proj1 (interval_and_single sampleVerses) 2 3 _)); lia.
Defined.

(** C2 as stated fails for a negative bound: [-1-2] on the verses 1, 2, 3
    selects nothing, not the verses 1 and 2 that lie between -1 and 2. *)
Lemma negative_bound_selects_nothing :
  parseVerseRange (NumberToString (-1) ++ lit "-" ++ NumberToString 2)
                  sampleVerses <>
  Normal (filter (fun u => (-1 <=? verse u) && (verse u <=? 2))
                 sampleVerses).
Proof. vm_compute. discriminate. Qed.

(* ================================================================== *)
(** ** Text that is not a number *)
(* ================================================================== *)

Lemma slice_to_NaN {A} (xs : list A) : slice xs (Num 0) (Some NaN) = [].
Proof.
  change (slice xs (Num 0) (Some NaN))
    with (slice xs (Num 0) (Some (Num 0))).
  now rewrite slice_first.
Qed.

Lemma slice_from_NaN {A} (xs : list A) : slice xs (neg NaN) None = xs.
Proof.
  change (slice xs (neg NaN) None) with (slice xs (neg (Num 0)) None).
  apply slice_last_zero.
Qed.

(** C3, where the code departs from the claim: a count or a bound that is
    not a number raises no error.  [first:x] selects nothing, [last:x] the
    whole sequence and [x-y] nothing, each as a normal completion; only a
    text with neither colon nor hyphen, such as [abc], is rejected. *)
Theorem text_in_a_numeric_slot `{HasVerse} (U : list A) :
  parseVerseRange (lit "first:x") U = Normal [] /\
  parseVerseRange (lit "last:x") U = Normal U /\
  parseVerseRange (lit "x-y") U = Normal [] /\
  parseVerseRange (lit "abc") U = Throw (invalidVerseRange (lit "abc")).
Proof.
  split; [|split; [|split]].
  - change (lit "first:x") with (lit "first:" ++ lit "x").
    rewrite parseVerseRange_first by not_in_literal.
    change (parseInt (Some (lit "x"))) with NaN. now rewrite slice_to_NaN.
  - change (lit "last:x") with (lit "last:" ++ lit "x").
    rewrite parseVerseRange_last by not_in_literal.
    change (parseInt (Some (lit "x"))) with NaN. now rewrite slice_from_NaN.
  - change (lit "x-y") with (lit "x" ++ 45%N :: lit "y").
    rewrite parseVerseRange_interval by not_in_literal.
    change (parseInt (Some (lit "x"))) with NaN.
    f_equal. now apply filter_nothing.
  - now rewrite parseVerseRange_single by not_in_literal.
Qed.

(* ================================================================== *)
(** ** Verses and paragraphs *)
(* ================================================================== *)

Lemma numberFrom_positions (from : Z) (paragraphs : list str) :
  map paragraph (numberFrom from paragraphs) =
  map (fun i => from + Z.of_nat i) (seq 1 (List.length paragraphs)).
Proof.
  revert from; induction paragraphs as [|p ps IH]; intros from;
    [reflexivity|].
  cbn [numberFrom map List.length seq paragraph]. f_equal.
  rewrite IH, <- (seq_shift (List.length ps) 1), map_map.
  apply map_ext. intros i. lia.
Qed.

(** The paragraphs of a talk are numbered 1, 2, ... *)
Lemma numbered_positions (paragraphs : list str) :
  map paragraph (numbered paragraphs) = positions (List.length paragraphs).
Proof. apply numberFrom_positions. Qed.

(** C5: on a sequence of verses whose numbers are 1, 2, ..., n and a talk
    of n paragraphs, [parseVerseRange] and [parseParagraphRange] select the
    same positions in the same order for every range expression, and when
    one fails so does the other, each with its invalid-format error. *)
Theorem verse_and_paragraph_ranges_agree `{HasVerse}
    (rangeStr : str) (verses : list A) (paragraphs : list str) :
  map verse verses = positions (List.length verses) ->
  List.length verses = List.length paragraphs ->
  match parseVerseRange rangeStr verses,
        parseParagraphRange rangeStr paragraphs with
  | Normal vs, Normal items => map verse vs = map paragraph items
  | Throw e, Throw e' =>
      e = invalidVerseRange rangeStr /\ e' = invalidParagraphRange rangeStr
  | _, _ => False
  end.
Proof.
  intros Hpos Hlen.
  assert (Hsame : map verse verses = map paragraph (numbered paragraphs))
    by now rewrite numbered_positions, <- Hlen.
  clear Hpos Hlen. unfold parseVerseRange, parseParagraphRange.
  set (items := numbered paragraphs) in *.
  assert (Hslice : forall a b,
             map verse (slice verses a b) = map paragraph (slice items a b))
    by (intros; now rewrite !slice_map, Hsame).
  assert (Hfilter : forall p : Z -> bool,
             map verse (filter (fun v => p (verse v)) verses) =
             map paragraph (filter (fun i => p (paragraph i)) items))
    by (intros; now rewrite !filter_map_comm, Hsame).
  assert (Hrest :
    match (if includes rangeStr (lit "-") then
             let '(startStr, endStr) := destructure2 (split rangeStr 45%N) in
             Normal (filter (fun v => geb (verse v) (parseInt startStr) &&
                                      leb (verse v) (parseInt endStr))
                            verses)
           else if negb (isNaN (parseInt (Some rangeStr))) then
             Normal (filter (fun v => strict_eq (verse v)
                                        (parseInt (Some rangeStr))) verses)
           else Throw (invalidVerseRange rangeStr)),
          (if includes rangeStr (lit "-") then
             let '(startStr, endStr) := destructure2 (split rangeStr 45%N) in
             Normal (filter (fun i => geb (paragraph i) (parseInt startStr) &&
                                      leb (paragraph i) (parseInt endStr))
                            items)
           else if negb (isNaN (parseInt (Some rangeStr))) then
             Normal (filter (fun i => strict_eq (paragraph i)
                                        (parseInt (Some rangeStr))) items)
           else Throw (invalidParagraphRange rangeStr)) with
    | Normal vs, Normal sel => map verse vs = map paragraph sel
    | Throw e, Throw e' =>
        e = invalidVerseRange rangeStr /\ e' = invalidParagraphRange rangeStr
    | _, _ => False
    end).
  { destruct (includes rangeStr (lit "-")).
    - destruct (destructure2 (split rangeStr 45%N)) as [startStr endStr].
      apply (Hfilter (fun z => geb z (parseInt startStr) &&
                               leb z (parseInt endStr))).
    - destruct (isNaN (parseInt (Some rangeStr))); cbn [negb].
      + split; reflexivity.
      + apply (Hfilter (fun z => strict_eq z (parseInt (Some rangeStr)))). }
  destruct (includes rangeStr (lit ":")); [|exact Hrest].
  destruct (destructure2 (split rangeStr 58%N)) as [position countStr].
  destruct (strict_eq_str position (lit "first")); [apply Hslice|].
  destruct (strict_eq_str position (lit "last")); [apply Hslice|].
  exact Hrest.
Qed.

Lemma verse_and_paragraph_ranges_agree_witness :
  (map verse sampleVerses = positions (List.length sampleVerses) /\
   List.length sampleVerses =
     List.length [lit "Brethren"; lit "I testify"; lit "Amen"]) /\
  match parseVerseRange (lit "last:2") sampleVerses,
        parseParagraphRange (lit "last:2")
          [lit "Brethren"; lit "I testify"; lit "Amen"] with
  | Normal vs, Normal items => map verse vs = map paragraph items
  | Throw e, Throw e' =>
      e = invalidVerseRange (lit "last:2") /\
      e' = invalidParagraphRange (lit "last:2")
  | _, _ => False
  end.
Proof.
  split; [split; reflexivity|].
  apply (verse_and_paragraph_ranges_agree (lit "last:2") sampleVerses
           [lit "Brethren"; lit "I testify"; lit "Amen"]); reflexivity.
Defined.

(* ================================================================== *)
(** ** Loops *)
(* ================================================================== *)

Lemma forOf_app {X S R} (body : X -> S -> flow S R) (xs ys : list X)
    (s : S) :
  forOf body (xs ++ ys) s =
  match forOf body xs s with
  | Continue s' => forOf body ys s'
  | Return r => Return r
  end.
Proof.
  revert s; induction xs as [|x xs IH]; intros s; simpl; [reflexivity|].
  destruct (body x s); [apply IH | reflexivity].
Qed.

Lemma forOf_map {X Y S R} (f : X -> Y) (body : Y -> S -> flow S R)
    (xs : list X) (s : S) :
  forOf (fun x => body (f x)) xs s = forOf body (map f xs) s.
Proof.
  revert s; induction xs as [|x xs IH]; intros s; simpl; [reflexivity|].
  destruct (body (f x) s); [apply IH | reflexivity].
Qed.

(** A loop whose body is itself a loop is one loop over the concatenation
    of the inner sequences. *)
Lemma forOf_flat_map {X Y S R} (step : X -> S -> flow S R)
    (body : Y -> S -> flow S R) (inner : X -> list Y) :
  (forall x s, step x s = forOf body (inner x) s) ->
  forall xs s, forOf step xs s = forOf body (flat_map inner xs) s.
Proof.
  intros Hstep xs. induction xs as [|x xs IH]; intros s; simpl;
    [reflexivity|].
  rewrite forOf_app, Hstep.
  destruct (forOf body (inner x) s); [apply IH | reflexivity].
Qed.

(* ================================================================== *)
(** ** Search *)
(* ================================================================== *)

Section SearchFacts.
Context `{CaseFolding}.

Lemma chapterStep_flat (args : SearchArgs) (coll : str) (b : Book)
    (ch : Chapter) (s : Scan) :
  chapterStep args (toLowerCase (sa_query args)) coll b ch s =
  forOf (locatedStep (toLowerCase (sa_query args)) (maxResultsOf args))
        (versesOfChapter args coll b ch) s.
Proof.
  unfold chapterStep, versesOfChapter.
  destruct (truthy_int (sa_chapter args) &&
            negb (strict_eq_int (ch_chapter ch) (sa_chapter args)));
    [reflexivity|].
  now rewrite <- forOf_map.
Qed.

Lemma bookStep_flat (args : SearchArgs) (coll : str) (b : Book) (s : Scan) :
  bookStep args (toLowerCase (sa_query args)) coll b s =
  forOf (locatedStep (toLowerCase (sa_query args)) (maxResultsOf args))
        (versesOfBook args coll b) s.
Proof.
  unfold bookStep, versesOfBook.
  destruct (truthy_str (sa_book args) &&
            negb (strict_eq_str (sa_book args) (b_book b)));
    [reflexivity|].
  apply forOf_flat_map. intros ch s'. apply chapterStep_flat.
Qed.

Lemma collectionStep_flat (args : SearchArgs) (scriptureData : ScriptureData)
    (coll : str) (s : Scan) :
  get scriptureData coll <> Inherited ->
  collectionStep args scriptureData (toLowerCase (sa_query args)) coll s =
  match forOf (locatedStep (toLowerCase (sa_query args)) (maxResultsOf args))
              (versesOfCollection args scriptureData coll) s with
  | Continue s' => Continue s'
  | Return s' => Return (Normal s')
  end.
Proof.
  unfold collectionStep, versesOfCollection, get.
  destruct (property scriptureData coll) as [collData|].
  - intros _.
    now rewrite (forOf_flat_map _ _ _ (bookStep_flat args coll)).
  - destruct (isInherited coll); [now intros [] | reflexivity].
Qed.

(** A loop whose body runs an inner loop and passes its [return] on. *)
Lemma forOf_passing {X Y} (step : X -> Scan -> flow Scan (completion Scan))
    (body : Y -> Scan -> flow Scan Scan) (inner : X -> list Y)
    (xs : list X) :
  (forall x, In x xs -> forall s,
     step x s = match forOf body (inner x) s with
                | Continue s' => Continue s'
                | Return s' => Return (Normal s')
                end) ->
  forall s,
    match forOf step xs s with
    | Continue s' => Normal s'
    | Return r => r
    end = Normal (finalScan (forOf body (flat_map inner xs) s)).
Proof.
  induction xs as [|x xs IH]; intros Hstep s; cbn [forOf flat_map];
    [reflexivity|].
  rewrite forOf_app, (Hstep x (or_introl eq_refl)).
  destruct (forOf body (inner x) s) as [s1|s1]; [|reflexivity].
  apply IH. intros x' Hx'. apply Hstep. now right.
Qed.

(** Unless the request names an inherited member as its collection, the
    four nested loops are one loop over the traversal. *)
Lemma searchLoops_flat (args : SearchArgs) (scriptureData : ScriptureData) :
  inheritedCollection args scriptureData = false ->
  searchLoops args scriptureData =
  Normal (finalScan
            (forOf (locatedStep (toLowerCase (sa_query args))
                                (maxResultsOf args))
                   (traversal args scriptureData) (mkScan [] 0))).
Proof.
  intros Hown. unfold searchLoops, traversal.
  apply forOf_passing. intros coll Hcoll s. apply collectionStep_flat.
  unfold get. unfold collectionsToSearch in Hcoll.
  unfold inheritedCollection in Hown.
  destruct (truthy_str (sa_collection args)).
  - destruct Hcoll as [<- | []]. cbn [andb] in Hown.
    destruct (property scriptureData (ToString (sa_collection args)));
      [discriminate|].
    now rewrite Hown.
  - destruct (property_of_key scriptureData coll Hcoll) as [v ->].
    discriminate.
Qed.

(** With an inherited member for its collection, the loops throw at once. *)
Lemma searchLoops_inherited (args : SearchArgs)
    (scriptureData : ScriptureData) :
  inheritedCollection args scriptureData = true ->
  searchLoops args scriptureData = Throw (notIterable (lit "books")).
Proof.
  unfold inheritedCollection, searchLoops, collectionsToSearch.
  destruct (truthy_str (sa_collection args)); [|discriminate].
  cbn [andb forOf]. unfold collectionStep, get.
  destruct (property scriptureData (ToString (sa_collection args)));
    [discriminate|].
  now intros ->.
Qed.

(** The scope of a request is valid: the search gets past its two checks. *)
Lemma valid_scope (args : SearchArgs) :
  (truthy_str (sa_book args) = true ->
   truthy_str (sa_collection args) = true) ->
  (truthy_int (sa_chapter args) = true ->
   truthy_str (sa_collection args) = true /\
   truthy_str (sa_book args) = true) ->
  truthy_str (sa_book args) && negb (truthy_str (sa_collection args)) =
    false /\
  truthy_int (sa_chapter args) &&
  negb (truthy_str (sa_collection args) && truthy_str (sa_book args)) =
    false.
Proof.
  intros Hbook Hchapter.
  destruct (truthy_str (sa_book args)), (truthy_str (sa_collection args)),
           (truthy_int (sa_chapter args)); cbn [andb negb];
    try (split; reflexivity);
    try (specialize (Hbook eq_refl); discriminate);
    destruct (Hchapter eq_refl); discriminate.
Qed.

(** What the loop has collected when it is over, whatever the limit: the
    matches it was entered with, then the matches of the sequence up to the
    room that was left, and one match at least if there is one. *)
Lemma scan_matches (args : SearchArgs) (limit : Z) (T : list Located)
    (s : Scan) :
  matches (finalScan (forOf (locatedStep (toLowerCase (sa_query args)) limit)
                            T s)) =
  matches s ++
  firstn (Z.to_nat (Z.max 1 (limit - Z.of_nat (List.length (matches s)))))
         (map matchOf (filter (hit args) T)).
Proof.
  revert s; induction T as [|l T IH]; intros s.
  - cbn [forOf finalScan filter map]. now rewrite firstn_nil, app_nil_r.
  - cbn [forOf filter]. unfold locatedStep at 1, verseStep.
    fold (hit args l). destruct (hit args l).
    + rewrite length_app. cbn [List.length map]. fold (matchOf l).
      destruct (Z.of_nat (List.length (matches s) + 1) >=? limit) eqn:Hge.
      * apply Z.geb_le in Hge. cbn [finalScan matches].
        replace (Z.to_nat (Z.max 1 (limit -
                                    Z.of_nat (List.length (matches s)))))
          with 1%nat by lia.
        reflexivity.
      * rewrite Z.geb_leb in Hge. apply Z.leb_gt in Hge.
        rewrite IH. cbn [matches]. rewrite <- app_assoc, length_app.
        cbn [List.length app].
        replace (Z.to_nat (Z.max 1 (limit -
                                    Z.of_nat (List.length (matches s)))))
          with (S (Z.to_nat (Z.max 1
                     (limit - Z.of_nat (List.length (matches s) + 1)))))
          by lia.
        reflexivity.
    + rewrite IH. reflexivity.
Qed.

(** The limit of a request, when the request gives one and when it leaves
    it to the default. *)
Lemma maxResultsOf_limit (args : SearchArgs) (limit : Z) :
  sa_maxResults args = Some limit \/
  (sa_maxResults args = None /\ limit = 25) ->
  maxResultsOf args = limit.
Proof. unfold maxResultsOf. now intros [-> | [-> ->]]. Qed.

(** One loop over a sequence [T] of located verses, entered with fewer than
    [limit] matches.  It tests a prefix of [T] of some length [e]; what it
    adds to [matches] is the matches among those [e] verses, which is also
    the matches of the whole of [T] cut at the room that was left; and if it
    ends with [limit] matches, the last verse it tested is a match. *)
Lemma scan_of_sequence (args : SearchArgs) (limit : Z) (T : list Located)
    (s : Scan) :
  Z.of_nat (List.length (matches s)) < limit ->
  exists e : nat,
    (e <= List.length T)%nat /\
    tested (finalScan (forOf (locatedStep (toLowerCase (sa_query args)) limit)
                             T s)) = (tested s + e)%nat /\
    matches (finalScan (forOf (locatedStep (toLowerCase (sa_query args))
                                           limit) T s)) =
      matches s ++ map matchOf (filter (hit args) (firstn e T)) /\
    matches (finalScan (forOf (locatedStep (toLowerCase (sa_query args))
                                           limit) T s)) =
      matches s ++
      firstn (Z.to_nat limit - List.length (matches s))
             (map matchOf (filter (hit args) T)) /\
    (Z.of_nat (List.length (matches (finalScan
        (forOf (locatedStep (toLowerCase (sa_query args)) limit) T s)))) =
     limit ->
     exists pre x, firstn e T = pre ++ [x] /\ hit args x = true).
Proof.
  revert s; induction T as [|l T IH]; intros s Hroom.
  - exists 0%nat. cbn [forOf finalScan firstn filter map List.length].
    rewrite firstn_nil, app_nil_r, Nat.add_0_r.
    repeat split; try reflexivity. intros Hfull. lia.
  - cbn [forOf]. unfold locatedStep at 1 3 5 7, verseStep.
    fold (hit args l). destruct (hit args l) eqn:Hl.
    + rewrite length_app. cbn [List.length].
      destruct (Z.of_nat (List.length (matches s) + 1) >=? limit) eqn:Hge.
      * apply Z.geb_le in Hge. exists 1%nat.
        cbn [finalScan matches tested firstn filter map List.length].
        rewrite Hl. cbn [map].
        assert (Hone : (Z.to_nat limit - List.length (matches s) = 1)%nat)
          by lia.
        rewrite Hone. cbn [firstn].
        repeat split; try reflexivity; try lia.
        intros _. exists [], l. split; [reflexivity | exact Hl].
      * rewrite Z.geb_leb in Hge. apply Z.leb_gt in Hge.
        destruct (IH (mkScan (matches s ++ [matchOf l]) (S (tested s))))
          as (e & He & Htested & Hprefix & Hcut & Hlast).
        { cbn [matches]. rewrite length_app. cbn [List.length]. lia. }
        exists (S e). fold (matchOf l).
        cbn [matches tested] in Htested, Hprefix, Hcut, Hlast.
        cbn [firstn filter map List.length]. rewrite Hl. cbn [map].
        repeat split.
        -- lia.
        -- rewrite Htested. lia.
        -- rewrite Hprefix, <- app_assoc. reflexivity.
        -- rewrite Hcut, <- app_assoc, length_app. cbn [List.length app].
           replace (Z.to_nat limit - List.length (matches s))%nat
             with (S (Z.to_nat limit - (List.length (matches s) + 1)))
             by lia.
           reflexivity.
        -- intros Hfull. destruct (Hlast Hfull) as (pre & x & Hpre & Hx).
           exists (l :: pre), x. rewrite Hpre. split; [reflexivity | exact Hx].
    + destruct (IH (mkScan (matches s) (S (tested s))))
        as (e & He & Htested & Hprefix & Hcut & Hlast).
      { exact Hroom. }
      exists (S e). cbn [matches tested] in Htested, Hprefix, Hcut, Hlast.
      cbn [firstn filter map List.length]. rewrite Hl.
      repeat split.
      * lia.
      * rewrite Htested. lia.
      * exact Hprefix.
      * exact Hcut.
      * intros Hfull. destruct (Hlast Hfull) as (pre & x & Hpre & Hx).
        exists (l :: pre), x. rewrite Hpre. split; [reflexivity | exact Hx].
Qed.

End SearchFacts.

Section SearchTheorems.
Context `{CaseFolding}.

(** A test that holds of the verses whose lower-cased text contains the
    lower-cased query is the test of the innermost loop. *)
Lemma matching_is_hit (args : SearchArgs) (matching : Located -> bool) :
  (forall l, matching l = true <->
             exists pre post,
               toLowerCase (v_text (l_verse l)) =
               pre ++ toLowerCase (sa_query args) ++ post) ->
  forall l, matching l = hit args l.
Proof.
  intros Hmatching l. unfold hit, verseMatches.
  destruct (matching l) eqn:Hl.
  - symmetry. apply includes_spec. now apply Hmatching.
  - destruct (includes _ _) eqn:Hi; [|reflexivity].
    apply includes_spec in Hi. apply Hmatching in Hi. congruence.
Qed.

(** C6: for a request with a positive limit (the one it gives, or the
    default of 25) and a valid scope, the reply holds the first [limit]
    matches of the scope in traversal order (collection, book, chapter,
    verse), hence at most [limit] of them, and its count is the number of
    matches it holds; a match is a verse whose lower-cased text contains
    the lower-cased query, which is what the test [matching] stands for.
    The loops test a prefix of the traversal, of some length [e]; the
    results are the matches among the verses tested, and when the limit is
    reached the last verse tested is the match that reached it: no verse
    after it is tested.  The one request that gets no reply names, as its
    collection, a member that the corpus object only inherits: the loops
    then throw a [TypeError]. *)
Theorem search_stops_at_the_limit (args : SearchArgs)
    (scriptureData : ScriptureData) (limit : Z)
    (matching : Located -> bool) :
  (forall l, matching l = true <->
             exists pre post,
               toLowerCase (v_text (l_verse l)) =
               pre ++ toLowerCase (sa_query args) ++ post) ->
  sa_maxResults args = Some limit \/
  (sa_maxResults args = None /\ limit = 25) ->
  0 < limit ->
  (truthy_str (sa_book args) = true ->
   truthy_str (sa_collection args) = true) ->
  (truthy_int (sa_chapter args) = true ->
   truthy_str (sa_collection args) = true /\
   truthy_str (sa_book args) = true) ->
  let T := traversal args scriptureData in
  let results := firstn (Z.to_nat limit) (map matchOf (filter matching T)) in
  if inheritedCollection args scriptureData
  then searchScriptures args scriptureData =
         Throw (TypeError (lit "books is not iterable"))
  else
    searchScriptures args scriptureData =
      Normal (mkSearchResponse (sa_query args)
                               (Z.of_nat (List.length results)) results) /\
    Z.of_nat (List.length results) <= limit /\
    exists e : nat,
      searchLoops args scriptureData = Normal (mkScan results e) /\
      (e <= List.length T)%nat /\
      results = map matchOf (filter matching (firstn e T)) /\
      (Z.of_nat (List.length results) = limit ->
       exists pre x, firstn e T = pre ++ [x] /\ matching x = true).
Proof.
  intros Hmatching Hmax Hlimit Hbook Hchapter T results.
  pose proof (matching_is_hit args matching Hmatching) as Hhit.
  apply maxResultsOf_limit in Hmax.
  destruct (valid_scope args Hbook Hchapter) as [Hb Hc].
  destruct (inheritedCollection args scriptureData) eqn:Hinh.
  - unfold searchScriptures.
    now rewrite Hb, Hc, searchLoops_inherited by exact Hinh.
  - destruct (scan_of_sequence args limit T (mkScan [] 0))
      as (e & He & Htested & Hprefix & Hcut & Hlast).
    { cbn. exact Hlimit. }
    cbn [matches tested app List.length] in Htested, Hprefix, Hcut, Hlast.
    rewrite Nat.sub_0_r in Hcut.
    rewrite <- (filter_ext _ _ Hhit) in Hprefix, Hcut. fold results in Hcut.
    assert (Hloops : searchLoops args scriptureData =
                     Normal (mkScan results e)).
    { rewrite searchLoops_flat by exact Hinh. rewrite Hmax. fold T.
      destruct (finalScan _) as [found n].
      cbn [matches tested] in Htested, Hcut. now subst. }
    split; [|split].
    + unfold searchScriptures. now rewrite Hb, Hc, Hloops.
    + unfold results. rewrite length_firstn. lia.
    + exists e. split; [exact Hloops|]. split; [exact He|].
      split; [now rewrite <- Hcut|].
      intros Hfull. rewrite <- Hcut in Hfull.
      destruct (Hlast Hfull) as (pre & x & Hpre & Hx).
      exists pre, x. split; [exact Hpre | now rewrite Hhit].
Qed.

(** C7: two queries that are equal after [toLowerCase] give the same count
    and the same results over the same corpus, scope and limit.  The
    results are the verses of the scope whose lower-cased text contains the
    lower-cased query as a contiguous run, and no others: for any test
    [matching] that holds of exactly these verses, both searches return the
    records of the verses of the traversal that pass it, in traversal
    order, up to the limit (and one at least, if there is one). *)
Theorem search_is_case_insensitive (args : SearchArgs) (q1 q2 : str)
    (scriptureData : ScriptureData) (limit : Z) :
  toLowerCase q1 = toLowerCase q2 ->
  outcome (searchScriptures (withQuery q1 args) scriptureData) =
  outcome (searchScriptures (withQuery q2 args) scriptureData) /\
  forall matching : Located -> bool,
    (forall l, matching l = true <->
               exists pre post,
                 toLowerCase (v_text (l_verse l)) =
                 pre ++ toLowerCase q1 ++ post) ->
    sa_maxResults args = Some limit \/
    (sa_maxResults args = None /\ limit = 25) ->
    (truthy_str (sa_book args) = true ->
     truthy_str (sa_collection args) = true) ->
    (truthy_int (sa_chapter args) = true ->
     truthy_str (sa_collection args) = true /\
     truthy_str (sa_book args) = true) ->
    inheritedCollection args scriptureData = false ->
    let results :=
      firstn (Z.to_nat (Z.max 1 limit))
             (map matchOf (filter matching (traversal args scriptureData)))
    in
    searchScriptures (withQuery q1 args) scriptureData =
      Normal (mkSearchResponse q1 (Z.of_nat (List.length results))
                               results) /\
    searchScriptures (withQuery q2 args) scriptureData =
      Normal (mkSearchResponse q2 (Z.of_nat (List.length results))
                               results).
Proof.
  intros Hfold.
  assert (Hloops : searchLoops (withQuery q1 args) scriptureData =
                   searchLoops (withQuery q2 args) scriptureData).
  { unfold searchLoops. cbn [withQuery sa_query]. rewrite Hfold.
    reflexivity. }
  split.
  - unfold searchScriptures. rewrite Hloops.
    cbn [withQuery sa_book sa_collection sa_chapter sa_query].
    destruct (truthy_str (sa_book args) &&
              negb (truthy_str (sa_collection args))); [reflexivity|].
    destruct (truthy_int (sa_chapter args) &&
              negb (truthy_str (sa_collection args) &&
                    truthy_str (sa_book args))); [reflexivity|].
    now destruct (searchLoops (withQuery q2 args) scriptureData).
  - intros matching Hmatching Hmax Hbook Hchapter Hinh results.
    apply maxResultsOf_limit in Hmax.
    destruct (valid_scope args Hbook Hchapter) as [Hb Hc].
    assert (Hfound :
      searchLoops (withQuery q1 args) scriptureData =
      Normal (finalScan
                (forOf (locatedStep (toLowerCase q1) limit)
                       (traversal args scriptureData) (mkScan [] 0)))).
    { rewrite <- Hmax. now apply (searchLoops_flat (withQuery q1 args)). }
    assert (Hresults :
      matches (finalScan
                 (forOf (locatedStep (toLowerCase q1) limit)
                        (traversal args scriptureData) (mkScan [] 0))) =
      results).
    { rewrite (scan_matches (withQuery q1 args)). cbn [matches app].
      rewrite Z.sub_0_r. unfold results. f_equal. f_equal.
      apply filter_ext. intros l. symmetry.
      now apply (matching_is_hit (withQuery q1 args)). }
    unfold searchScriptures. rewrite <- Hloops, Hfound, Hresults.
    cbn [withQuery sa_book sa_collection sa_chapter sa_query].
    now rewrite Hb, Hc.
Qed.

(** C8: a request with a book and no collection fails with the error of
    the scope check, and so does a request with a chapter that lacks the
    collection or the book; the error is the same for every corpus, none
    of which is looked at, and no result comes with it. *)
Theorem scope_is_checked_first (args : SearchArgs)
    (scriptureData : ScriptureData) :
  (truthy_str (sa_book args) = true ->
   truthy_str (sa_collection args) = false ->
   searchScriptures args scriptureData = Throw bookScopeError) /\
  (truthy_int (sa_chapter args) = true ->
   truthy_str (sa_collection args) && truthy_str (sa_book args) = false ->
   exists e, InvalidScope e /\
             searchScriptures args scriptureData = Throw e).
Proof.
  unfold searchScriptures. split.
  - intros -> ->. reflexivity.
  - intros -> Hmissing.
    destruct (truthy_str (sa_book args)) eqn:Eb;
      destruct (truthy_str (sa_collection args)) eqn:Ec;
      try discriminate Hmissing; cbn [andb negb].
    + exists bookScopeError. split; [now left | reflexivity].
    + exists chapterScopeError. split; [now right | reflexivity].
    + exists chapterScopeError. split; [now right | reflexivity].
Qed.

End SearchTheorems.

Lemma search_stops_at_the_limit_witness :
  (sa_maxResults firstMatchRequest = Some 1 /\
   truthy_str (sa_book firstMatchRequest) = true /\
   truthy_str (sa_collection firstMatchRequest) = true /\
   truthy_int (sa_chapter firstMatchRequest) = false /\
   inheritedCollection firstMatchRequest sampleCorpus = false /\
   sa_maxResults constructorRequest = None /\
   truthy_str (sa_book constructorRequest) = false /\
   truthy_int (sa_chapter constructorRequest) = false /\
   inheritedCollection constructorRequest sampleCorpus = true) /\
  map m_reference
      (allMatches (H := asciiLowerCase) firstMatchRequest sampleCorpus) =
    [lit "Alma 32:21"; lit "Alma 32:26"] /\
  searchScriptures (H := asciiLowerCase) firstMatchRequest sampleCorpus =
    Normal (mkSearchResponse (lit "faith") 1
              [mkMatch (lit "book-of-mormon") (lit "Alma") 32 21
                       (lit "Alma 32:21")
                       (lit "Faith is not to have a perfect knowledge")]) /\
  searchLoops (H := asciiLowerCase) firstMatchRequest sampleCorpus =
    Normal (mkScan
              [mkMatch (lit "book-of-mormon") (lit "Alma") 32 21
                       (lit "Alma 32:21")
                       (lit "Faith is not to have a perfect knowledge")]
              1) /\
  searchScriptures (H := asciiLowerCase) constructorRequest sampleCorpus =
    Throw (TypeError (lit "books is not iterable")).
Proof.
  split; [repeat split|]. split; [reflexivity|].
  destruct (search_stops_at_the_limit (H := asciiLowerCase)
              firstMatchRequest sampleCorpus 1
              (hit (H := asciiLowerCase) firstMatchRequest)
              (fun l => includes_spec _ _)
              (or_introl eq_refl) eq_refl
              (fun _ => eq_refl)
              (fun (E : false = true) =>
                 False_ind _ (Bool.diff_false_true E)))
    as (Hreply & _).
  split; [exact Hreply|]. split; [reflexivity|].
  exact (search_stops_at_the_limit (H := asciiLowerCase)
           constructorRequest sampleCorpus 25
           (hit (H := asciiLowerCase) constructorRequest)
           (fun l => includes_spec _ _)
           (or_intror (conj eq_refl eq_refl)) eq_refl
           (fun (E : false = true) => False_ind _ (Bool.diff_false_true E))
           (fun (E : false = true) => False_ind _ (Bool.diff_false_true E))).
Defined.

Lemma search_is_case_insensitive_witness :
  toLowerCase (CaseFolding := asciiLowerCase) (lit "FAITH") =
  toLowerCase (CaseFolding := asciiLowerCase) (lit "faith") /\
  outcome (searchScriptures (H := asciiLowerCase)
             (withQuery (lit "FAITH") sampleRequest) sampleCorpus) =
  outcome (searchScriptures (H := asciiLowerCase)
             (withQuery (lit "faith") sampleRequest) sampleCorpus) /\
  exists results,
    searchScriptures (H := asciiLowerCase)
      (withQuery (lit "FAITH") sampleRequest) sampleCorpus =
      Normal (mkSearchResponse (lit "FAITH") 2 results) /\
    searchScriptures (H := asciiLowerCase)
      (withQuery (lit "faith") sampleRequest) sampleCorpus =
      Normal (mkSearchResponse (lit "faith") 2 results) /\
    map m_reference results = [lit "Alma 32:21"; lit "Alma 32:26"].
Proof.
  split; [reflexivity|].
  destruct (search_is_case_insensitive (H := asciiLowerCase) sampleRequest
              (lit "FAITH") (lit "faith") sampleCorpus 2 eq_refl)
    as [Hsame Hresults].
  split; [exact Hsame|].
  destruct (Hresults
              (hit (H := asciiLowerCase)
                   (withQuery (lit "FAITH") sampleRequest))
              (fun l => includes_spec _ _)
              (or_introl eq_refl) (fun _ => eq_refl)
              (fun (E : false = true) =>
                 False_ind _ (Bool.diff_false_true E))
              eq_refl)
    as [Hupper Hlower].
  eexists. split; [exact Hupper|]. split; [exact Hlower | reflexivity].
Defined.

Lemma scope_is_checked_first_witness :
  (truthy_str (sa_book bookOnlyRequest) = true /\
   truthy_str (sa_collection bookOnlyRequest) = false) /\
  searchScriptures (H := asciiLowerCase) bookOnlyRequest sampleCorpus =
    Throw bookScopeError.
Proof.
  split; [split; reflexivity|].
  apply (scope_is_checked_first (H := asciiLowerCase) bookOnlyRequest
           sampleCorpus); reflexivity.
Defined.

(* ================================================================== *)
(** ** Talk lookup *)
(* ================================================================== *)

(** *** [normalize] computes the normal form *)

Lemma isQuote_cases (c : char) :
  isQuote c = true ->
  c = 8220%N \/ c = 8221%N \/ c = 34%N \/ c = 39%N.
Proof.
  unfold isQuote. destruct c as [|p]; [discriminate|].
  repeat (destruct p as [p|p|]; try discriminate).
  all: intros _; auto.
Qed.

Lemma replaceEach_isQuote (s : str) :
  replaceEach isQuote 34%N s = map plainQuote s.
Proof.
  unfold replaceEach. apply map_ext. intros c.
  destruct (isQuote c) eqn:E.
  - apply isQuote_cases in E. now destruct E as [-> | [-> | [-> | ->]]].
  - unfold plainQuote. cbn [existsb].
    destruct (c =? 8220)%N eqn:E1;
      [apply N.eqb_eq in E1; now subst|].
    destruct (c =? 8221)%N eqn:E2;
      [apply N.eqb_eq in E2; now subst|].
    destruct (c =? 39)%N eqn:E3;
      [apply N.eqb_eq in E3; now subst|].
    reflexivity.
Qed.

Lemma word_not_space (c : char) :
  isWordChar c = true -> isWhiteSpace c = false.
Proof.
  intros Hw.
  assert (Hc : (c <= 122)%N).
  { unfold isWordChar in Hw.
    destruct (N.leb_spec 97 c), (N.leb_spec c 122), (N.leb_spec 48 c),
      (N.leb_spec c 57), (N.eqb_spec c 34); cbn in Hw;
      try discriminate; lia. }
  assert (Hall : forallb (fun n => negb (isWordChar n && isWhiteSpace n))
                   (map N.of_nat (seq 0 123)) = true)
    by (vm_compute; reflexivity).
  rewrite forallb_forall in Hall. specialize (Hall c).
  rewrite Hw in Hall. cbn [andb] in Hall. apply negb_true_iff, Hall.
  apply in_map_iff. exists (N.to_nat c). split; [lia|].
  apply in_seq. lia.
Qed.

Lemma isPunctuation_cases (c : char) :
  isPunctuation c = negb (isWordChar c || isWhiteSpace c).
Proof. reflexivity. Qed.

(** The two replacements of runs, of punctuation and then of white space,
    amount to one: every run of separators becomes one space. *)
Lemma replaceRuns_merge (bp bw : bool) (t : str) :
  (bp = true -> bw = true) ->
  replaceRunsFrom isWhiteSpace (lit " ") bw
    (replaceRunsFrom isPunctuation (lit " ") bp t) =
  replaceRunsFrom isSeparator (lit " ") bw t.
Proof.
  revert bp bw; induction t as [|c t IH]; intros bp bw Hb;
    cbn [replaceRunsFrom]; [reflexivity|].
  rewrite isPunctuation_cases.
  assert (Hsep : isSeparator c = negb (isWordChar c)) by reflexivity.
  rewrite Hsep. clear Hsep.
  destruct (isWordChar c) eqn:Hw.
  - rewrite (word_not_space c Hw). cbn [orb negb replaceRunsFrom].
    rewrite (word_not_space c Hw). f_equal. now apply IH.
  - cbn [orb negb]. destruct (isWhiteSpace c) eqn:Hs; cbn [negb].
    + cbn [replaceRunsFrom]. rewrite Hs.
      destruct bw; [|f_equal]; now apply IH.
    + destruct bp.
      * rewrite (Hb eq_refl). now apply IH.
      * change (lit " " ++ replaceRunsFrom isPunctuation (lit " ") true t)
          with (32%N :: replaceRunsFrom isPunctuation (lit " ") true t).
        cbn [replaceRunsFrom]. change (isWhiteSpace 32%N) with true.
        destruct bw; [|f_equal]; now apply IH.
Qed.

Lemma trimStart_snoc (x : str) (c : char) :
  trimStart (x ++ [c]) =
  if isWhiteSpace c then
    match trimStart x with
    | [] => []
    | y => y ++ [c]
    end
  else trimStart x ++ [c].
Proof.
  induction x as [|a x IH]; cbn [app trimStart].
  - now destruct (isWhiteSpace c).
  - destruct (isWhiteSpace a); [exact IH|]. now destruct (isWhiteSpace c).
Qed.

Lemma trimEnd_word (c : char) (s : str) :
  isWhiteSpace c = false -> trimEnd (c :: s) = c :: trimEnd s.
Proof.
  intros Hc. unfold trimEnd. cbn [rev]. rewrite trimStart_snoc, Hc.
  now rewrite rev_app_distr.
Qed.

Lemma trimEnd_space (c : char) (s : str) :
  isWhiteSpace c = true ->
  trimEnd (c :: s) = match trimEnd s with
                     | [] => []
                     | _ :: _ => c :: trimEnd s
                     end.
Proof.
  intros Hc. unfold trimEnd. cbn [rev]. rewrite trimStart_snoc, Hc.
  destruct (trimStart (rev s)) as [|a y]; [reflexivity|].
  rewrite rev_app_distr. cbn [rev app].
  now destruct (rev y).
Qed.

Lemma words_cons (s : str) :
  startsWord s = true -> exists w ws, words s = w :: ws.
Proof.
  destruct s as [|c s]; [discriminate|]. cbn [startsWord words].
  intros ->. destruct (startsWord s); [destruct (words s)|]; eauto.
Qed.

Lemma words_not_empty (s : str) : Forall (fun w => w <> []) (words s).
Proof.
  induction s as [|c s IH]; cbn [words]; [constructor|].
  destruct (isWordChar c); [|exact IH].
  destruct (startsWord s).
  - destruct (words s) as [|w ws]; [now repeat constructor|].
    inversion IH; subst. now constructor.
  - now constructor.
Qed.

Lemma unwords_words_word (c : char) (s : str) :
  isWordChar c = true ->
  unwords (words (c :: s)) =
  c :: (if startsWord s then unwords (words s)
        else match words s with
             | [] => []
             | _ :: _ => 32%N :: unwords (words s)
             end).
Proof.
  intros Hc. cbn [words]. rewrite Hc.
  destruct (startsWord s) eqn:Hs.
  - destruct (words_cons s Hs) as (w & ws & ->). now destruct ws.
  - now destruct (words s).
Qed.

(** After a run of separators, and at the start of the text, what is left
    of the text is trimmed at both ends; after a word character, at the end
    only.  Both are the words of what is left, with a space before them in
    the second case. *)
Lemma trim_runs (t : str) :
  trimEnd (trimStart (replaceRunsFrom isSeparator (lit " ") false t)) =
    unwords (words t) /\
  trimEnd (replaceRunsFrom isSeparator (lit " ") true t) =
    unwords (words t) /\
  trimEnd (replaceRunsFrom isSeparator (lit " ") false t) =
    (if startsWord t then unwords (words t)
     else match words t with
          | [] => []
          | _ :: _ => 32%N :: unwords (words t)
          end).
Proof.
  induction t as [|c t (IHtrim & IHrun & IHword)]; [now repeat split|].
  cbn [replaceRunsFrom startsWord].
  destruct (isWordChar c) eqn:Hc.
  - assert (Hsep : isSeparator c = false)
      by (unfold isSeparator; now rewrite Hc).
    rewrite Hsep. cbn [trimStart]. rewrite (word_not_space c Hc).
    rewrite (trimEnd_word c _ (word_not_space c Hc)), IHword.
    rewrite (unwords_words_word c t Hc). now repeat split.
  - assert (Hsep : isSeparator c = true)
      by (unfold isSeparator; now rewrite Hc).
    rewrite Hsep.
    change (lit " " ++ replaceRunsFrom isSeparator (lit " ") true t)
      with (32%N :: replaceRunsFrom isSeparator (lit " ") true t).
    cbn [trimStart]. change (isWhiteSpace 32%N) with true. cbn iota.
    assert (Hwords : words (c :: t) = words t)
      by (cbn [words]; now rewrite Hc).
    rewrite Hwords.
    assert (Hstart :
      trimStart (replaceRunsFrom isSeparator (lit " ") true t) =
      trimStart (replaceRunsFrom isSeparator (lit " ") false t)).
    { destruct t as [|d t]; [reflexivity|]. cbn [replaceRunsFrom].
      destruct (isSeparator d); reflexivity. }
    rewrite Hstart, IHtrim, IHrun.
    split; [reflexivity|]. split; [reflexivity|].
    rewrite (trimEnd_space 32%N _ eq_refl), IHrun.
    pose proof (words_not_empty t) as Hne.
    destruct (words t) as [|w ws]; [reflexivity|].
    inversion Hne as [|? ? Hw _]; subst.
    destruct w as [|a w]; [contradiction|]. now destruct ws.
Qed.

Lemma find_ext {X} (p q : X -> bool) (xs : list X) :
  (forall x, p x = q x) -> find p xs = find q xs.
Proof.
  intros Hpq. induction xs as [|x xs IH]; cbn [find]; [reflexivity|].
  now rewrite Hpq, IH.
Qed.

Section TalkTheorems.
Context `{CaseFolding}.

(** The function [normalize] of the source computes the normal form. *)
Lemma normalize_normalForm (s : str) : normalize s = normalForm s.
Proof.
  unfold normalize, normalForm, replaceRuns, trim.
  rewrite replaceRuns_merge by discriminate.
  rewrite replaceEach_isQuote. apply trim_runs.
Qed.

Lemma findTalk_tiers (talks : list ConferenceTalkMeta) (args : TalkArgs) :
  findTalk talks args =
  firstFound [bySlug talks args; byTitle talks args;
              byNormalizedTitle talks args; byContainedTitle talks args].
Proof.
  unfold findTalk, findByTitle, bySlug, byTitle, byNormalizedTitle,
    byContainedTitle.
  rewrite <- (normalize_normalForm (ToString (ta_title args))).
  rewrite (find_ext (fun t => str_eqb (normalForm (title t))
                                (normalize (ToString (ta_title args))))
                    (fun t => str_eqb (normalize (title t))
                                (normalize (ToString (ta_title args)))))
    by (intros t; now rewrite !normalize_normalForm).
  rewrite (find_ext (fun t => includes (normalForm (title t))
                                (normalize (ToString (ta_title args))))
                    (fun t => includes (normalize (title t))
                                (normalize (ToString (ta_title args)))))
    by (intros t; now rewrite !normalize_normalForm).
  destruct (truthy_str (ta_slug args));
    [destruct (find _ talks); [reflexivity|] | ];
    (destruct (truthy_str (ta_title args)); [|reflexivity];
     cbn [firstFound];
     destruct (find (fun t => str_eqb (title t) _) talks); [reflexivity|];
     destruct (find (fun t => str_eqb (normalize (title t)) _) talks);
       [reflexivity|];
     destruct (find (fun t => includes (normalize (title t)) _) talks);
       reflexivity).
Qed.

(** C9: in a session that exists, the talk that [getConferenceTalk] goes on
    with is the one found by the first of the four tiers that finds any,
    tried in the order slug, title, normal form of the title, containment
    of the normal form of the title, where the normal form of a title is
    its case-folded text, with every quotation mark read as the double
    quote, cut into its words of letters, digits and quotes, the words put
    together with one space between two of them.  When no tier finds a
    talk the call fails with the not-found error, whose message names the
    session, the title and the slug of the request (nothing for one that is
    missing). *)
Theorem talk_lookup_order (args : TalkArgs) (conferenceData : ConferenceData)
    (talks : list ConferenceTalkMeta) :
  property (sessions conferenceData) (ta_session args) = Some talks ->
  match firstFound [bySlug talks args; byTitle talks args;
                    byNormalizedTitle talks args;
                    byContainedTitle talks args] with
  | Some talk => getConferenceTalk args conferenceData = talkReply talk args
  | None =>
      getConferenceTalk args conferenceData =
      Throw (Error (lit "Talk not found in " ++ ta_session args ++
                    lit ". Provided title='" ++
                    match ta_title args with Some t => t | None => [] end ++
                    lit "' slug='" ++
                    match ta_slug args with Some s => s | None => [] end ++
                    lit "'. Use list_conference_talks to enumerate."))
  end.
Proof.
  intros Hsession. unfold getConferenceTalk.
  rewrite (get_own _ _ _ Hsession), findTalk_tiers.
  destruct (firstFound _) as [talk|]; [reflexivity|].
  unfold talkNotFound.
  now destruct (ta_title args) as [[|? ?]|], (ta_slug args) as [[|? ?]|].
Qed.

End TalkTheorems.

Lemma talk_lookup_order_witness :
  (property (sessions quotedConference) (ta_session respelledRequest) =
     Some [quotedTalk] /\
   property (sessions sampleConference) (ta_session unknownRequest) =
     Some [sampleTalk]) /\
  (bySlug [quotedTalk] respelledRequest = None /\
   byTitle [quotedTalk] respelledRequest = None /\
   byNormalizedTitle (H := asciiLowerCase) [quotedTalk] respelledRequest =
     Some quotedTalk /\
   normalForm (H := asciiLowerCase) (title quotedTalk) =
     34%N :: lit "come follow me" ++ [34%N] /\
   getConferenceTalk (H := asciiLowerCase) respelledRequest
                     quotedConference =
     Normal (WholeTalk (lit "2019-04")
               (8220%N :: lit "Come, Follow Me" ++ [8221%N])
               (lit "Russell M. Nelson") None
               [mkItem 1 (lit "My dear brothers and sisters")]
               None None None)) /\
  (byNormalizedTitle (H := asciiLowerCase) [sampleTalk] fragmentRequest =
     None /\
   byContainedTitle (H := asciiLowerCase) [sampleTalk] fragmentRequest =
     Some sampleTalk /\
   getConferenceTalk (H := asciiLowerCase) fragmentRequest
                     sampleConference =
     talkReply sampleTalk fragmentRequest) /\
  getConferenceTalk (H := asciiLowerCase) unknownRequest sampleConference =
    Throw (Error (lit "Talk not found in 2008-10. Provided title='Mercy' slug='mercy'. Use list_conference_talks to enumerate.")).
Proof.
  split; [split; reflexivity|]. split; [|split].
  - do 4 (split; [reflexivity|]).
    exact (talk_lookup_order (H := asciiLowerCase) respelledRequest
             quotedConference [quotedTalk] eq_refl).
  - do 2 (split; [reflexivity|]).
    exact (talk_lookup_order (H := asciiLowerCase) fragmentRequest
             sampleConference [sampleTalk] eq_refl).
  - exact (talk_lookup_order (H := asciiLowerCase) unknownRequest
             sampleConference [sampleTalk] eq_refl).
Defined.

(* ================================================================== *)
(** ** The reference of a verse range in the web-scraping revision *)
(* ================================================================== *)

Import Web.

Lemma last_cons {X} (x y : X) (ys : list X) :
  last (y :: ys) x = last ys y.
Proof.
  revert x y; induction ys as [|z zs IH]; intros x y; [reflexivity|].
  change (last (y :: z :: zs) x) with (last (z :: zs) x).
  now rewrite (IH x z), (IH y z).
Qed.

Lemma nth_error_last {X} (x : X) (xs : list X) :
  nth_error (x :: xs) (List.length (x :: xs) - 1) = Some (last xs x).
Proof.
  cbn [List.length]. rewrite Nat.sub_succ, Nat.sub_0_r.
  revert x; induction xs as [|y ys IH]; intros x; [reflexivity|].
  cbn [List.length nth_error]. now rewrite IH, last_cons.
Qed.

(** C10: in [getScripture], when no verse is asked for, a verse range is
    given, the page is fetched and the range resolves to the verses
    [verses]: if [verses] is not empty the call returns them under the
    reference [collection book chapter:first-last], where [first] and
    [last] are the numbers of the first and of the last of them; if it is
    empty the call does not return an empty selection but throws, the read
    of [verses[0].verse] having failed. *)
Theorem range_reference_needs_a_verse (fetch : str -> Fetched)
    (args : ScriptureArgs) (collectionCode : str) (status : Z)
    (statusText chapterTitle : str)
    (allVerses verses : list ScrapedVerse) :
  property SCRIPTURE_COLLECTIONS (ga_collection args) =
    Some collectionCode ->
  fetch (urlOf collectionCode args) =
    Response true status statusText chapterTitle allVerses ->
  truthy_int (ga_verse args) = false ->
  truthy_str (ga_verseRange args) = true ->
  parseVerseRange (ToString (ga_verseRange args)) allVerses =
    Normal verses ->
  match verses with
  | first :: rest =>
      getScripture fetch args =
      Normal (mkResult
                (ga_collection args ++ lit " " ++ ga_book args ++ lit " " ++
                 NumberToString (ga_chapter args) ++ lit ":" ++
                 NumberToString (sv_verse first) ++ lit "-" ++
                 NumberToString (sv_verse (last rest first)))
                (urlOf collectionCode args) (languageOf args) chapterTitle
                None None (Some verses))
  | [] =>
      getScripture fetch args =
      Throw (Error (lit "Error fetching scripture: Cannot read properties of undefined (reading 'verse')"))
  end.
Proof.
  intros Hcollection Hfetch Hverse Hrange Hresolved.
  unfold getScripture, collectionCodeOf.
  rewrite (get_own _ _ _ Hcollection), Hfetch. cbn [negb].
  unfold buildResult. rewrite Hverse, Hrange, Hresolved.
  destruct verses as [|first rest]; [reflexivity|].
  rewrite nth_error_last. cbn [nth_error].
  unfold rangeReference, chapterReference. now rewrite <- !app_assoc.
Qed.

Lemma range_reference_needs_a_verse_witness :
  (property SCRIPTURE_COLLECTIONS (ga_collection (rangeRequest (lit "5-3")))
     = Some (lit "bofm") /\
   truthy_int (ga_verse (rangeRequest (lit "5-3"))) = false /\
   truthy_str (ga_verseRange (rangeRequest (lit "5-3"))) = true /\
   truthy_str (ga_verseRange (rangeRequest (lit "2-4"))) = true) /\
  getScripture samplePage (rangeRequest (lit "5-3")) =
    Throw (Error (lit "Error fetching scripture: Cannot read properties of undefined (reading 'verse')")) /\
  getScripture samplePage (rangeRequest (lit "2-4")) =
    Normal (mkResult (lit "book-of-mormon 1-ne 3:2-4")
              (lit "https://www.churchofjesuschrist.org/study/scriptures/bofm/1-ne/3?lang=eng")
              (lit "eng") (lit "1 Nephi 3") None None
              (Some (map (fun n => mkScraped n (lit "And it came to pass"))
                         [2; 3; 4]))).
Proof.
  split; [repeat split|]. split.
  - exact (range_reference_needs_a_verse samplePage
             (rangeRequest (lit "5-3")) (lit "bofm") 200 (lit "OK")
             (lit "1 Nephi 3")
             (map (fun n => mkScraped n (lit "And it came to pass"))
                  [1; 2; 3; 4; 5; 6]) []
             eq_refl eq_refl eq_refl eq_refl eq_refl).
  - exact (range_reference_needs_a_verse samplePage
             (rangeRequest (lit "2-4")) (lit "bofm") 200 (lit "OK")
             (lit "1 Nephi 3")
             (map (fun n => mkScraped n (lit "And it came to pass"))
                  [1; 2; 3; 4; 5; 6])
             (map (fun n => mkScraped n (lit "And it came to pass"))
                  [2; 3; 4])
             eq_refl eq_refl eq_refl eq_refl eq_refl).
Defined.

(* ================================================================== *)
(** ** What [normalize] leaves in a title *)
(* ================================================================== *)

Lemma replaceRunsFrom_Forall (class : char -> bool) (r : str) (Q : char -> Prop)
    (inRun : bool) (s : str) :
  Forall Q r ->
  (forall c, In c s -> class c = false -> Q c) ->
  Forall Q (replaceRunsFrom class r inRun s).
Proof.
  intros Hr. revert inRun; induction s as [|c s IH]; intros inRun Hs;
    cbn [replaceRunsFrom]; [constructor|].
  assert (Hs' : forall d, In d s -> class d = false -> Q d)
    by (intros d Hd; apply Hs; now right).
  destruct (class c) eqn:Ec.
  - destruct inRun; [now apply IH|].
    apply Forall_app. split; [exact Hr | now apply IH].
  - constructor; [apply Hs; [now left | exact Ec] | now apply IH].
Qed.

Lemma trimStart_Forall (Q : char -> Prop) (s : str) :
  Forall Q s -> Forall Q (trimStart s).
Proof.
  induction 1 as [|c s Hc Hs IH]; cbn [trimStart]; [constructor|].
  destruct (isWhiteSpace c); [exact IH | now constructor].
Qed.

Lemma trim_Forall (Q : char -> Prop) (s : str) :
  Forall Q s -> Forall Q (trim s).
Proof.
  intros Hs. unfold trim, trimEnd.
  apply Forall_rev, trimStart_Forall, Forall_rev, trimStart_Forall, Hs.
Qed.

(** X1: whatever the title and the case folding, a normalized title is made of
    lower-case ASCII letters, digits, double quotes and spaces. *)
Lemma normalize_alphabet `{CaseFolding} (s : str) :
  Forall (fun c => isNormalChar c = true) (normalize s).
Proof.
  unfold normalize, replaceRuns. apply trim_Forall.
  apply replaceRunsFrom_Forall; [now repeat constructor|].
  intros c Hc Hspace.
  assert (Hp : Forall (fun c => isPunctuation c = false)
                 (replaceRunsFrom isPunctuation (lit " ") false
                    (replaceEach isQuote 34%N (toLowerCase s))))
    by (apply replaceRunsFrom_Forall; [now repeat constructor | auto]).
  rewrite Forall_forall in Hp. specialize (Hp c Hc).
  unfold isPunctuation in Hp. rewrite Hspace, orb_false_r in Hp.
  apply negb_false_iff in Hp. unfold isNormalChar. rewrite Hp. reflexivity.
Qed.

(* ================================================================== *)
(** ** Worked cases *)
(* ================================================================== *)

Example first_three_of_four :
  parseVerseRange (lit "first:3") (versesUpTo 4) = Normal (versesUpTo 3).
Proof. reflexivity. Qed.

Example seven_to_ten_of_twenty :
  parseVerseRange (lit "7-10") (versesUpTo 20) =
  Normal (map sampleVerse [7; 8; 9; 10]).
Proof. reflexivity. Qed.

Example last_two_of_three :
  parseVerseRange (lit "last:2") (versesUpTo 3) =
  Normal (map sampleVerse [2; 3]).
Proof. reflexivity. Qed.

Example five_to_two_is_empty :
  parseVerseRange (lit "5-2") (versesUpTo 20) = Normal [].
Proof. reflexivity. Qed.

Example last_million_of_three :
  parseVerseRange (lit "last:1000000") (versesUpTo 3) =
  Normal (versesUpTo 3).
Proof. reflexivity. Qed.

Example hexadecimal_and_trailing_text :
  parseInt (Some (lit " 0x1F")) = Num 31 /\
  parseInt (Some (lit "12abc")) = Num 12 /\
  parseInt (Some (lit "-7")) = Num (-7) /\
  parseInt (Some (lit "")) = NaN /\
  parseInt None = NaN.
Proof. repeat split. Qed.

Example a_third_colon_is_ignored :
  parseVerseRange (lit "first:2:9") (versesUpTo 4) = Normal (versesUpTo 2).
Proof. reflexivity. Qed.

Example normalized_title :
  normalize (H := asciiLowerCase)
    (8220%N :: lit "Faith" ++ 8221%N :: lit ",  Hope & Charity! ") =
  34%N :: lit "faith" ++ 34%N :: lit " hope charity".
Proof. reflexivity. Qed.

Example charity_is_found_once :
  outcome (searchScriptures (H := asciiLowerCase)
             (mkSearchArgs (lit "charity") None None None None)
             sampleCorpus) =
  Normal (1, [mkMatch (lit "book-of-mormon") (lit "Moroni") 7 1
                      (lit "Moroni 7:1")
                      (lit "faith, hope, and charity")]).
Proof. reflexivity. Qed.

Example unknown_talk_is_reported :
  getConferenceTalk (H := asciiLowerCase) unknownRequest sampleConference =
  Throw (Error (lit "Talk not found in 2008-10. Provided title='Mercy' slug='mercy'. Use list_conference_talks to enumerate.")).
Proof. reflexivity. Qed.

Example range_reference_of_two_to_four :
  match Web.getScripture samplePage (rangeRequest (lit "2-4")) with
  | Normal r => Web.res_reference r = lit "book-of-mormon 1-ne 3:2-4"
  | Throw _ => False
  end.
Proof. reflexivity. Qed.

(** The name of a method that every object inherits, given for a
    collection or for a session, passes the guards and fails further on. *)
Example constructor_searched :
  searchScriptures (H := asciiLowerCase)
    (mkSearchArgs (lit "faith") (Some (lit "constructor")) None None None)
    sampleCorpus =
  Throw (TypeError (lit "books is not iterable")).
Proof. reflexivity. Qed.

Example unknown_collection_searched :
  searchScriptures (H := asciiLowerCase)
    (mkSearchArgs (lit "faith") (Some (lit "apocrypha")) None None None)
    sampleCorpus =
  Normal (mkSearchResponse (lit "faith") 0 []).
Proof. reflexivity. Qed.

Example constructor_as_a_collection :
  getBookInfo (lit "constructor") (lit "Alma") sampleCorpus =
  Throw (TypeError (lit "Cannot read properties of undefined (reading 'find')")).
Proof. reflexivity. Qed.

Example constructor_as_a_session :
  getConferenceTalk (H := asciiLowerCase)
    (mkTalkArgs (lit "constructor") (Some (lit "Hope")) None None None)
    sampleConference =
  Throw (TypeError (lit "talks.find is not a function")).
Proof. reflexivity. Qed.

Example constructor_listed :
  listConferenceTalks (Some (lit "constructor")) sampleConference =
  Throw (TypeError (lit "talks.map is not a function")).
Proof. reflexivity. Qed.

Example constructor_fetched :
  match Web.getScripture samplePage
          (Web.mkScriptureArgs (lit "constructor") (lit "1-ne") 3 None None
                               None) with
  | Normal r =>
      Web.res_url r =
      lit "https://www.churchofjesuschrist.org/study/scriptures/function Object() { [native code] }/1-ne/3?lang=eng"
  | Throw _ => False
  end.
Proof. reflexivity. Qed.

Example respelled_title :
  normalize (H := asciiLowerCase) (lit " 'COME   follow: me' ") =
  34%N :: lit "come follow me" ++ [34%N].
Proof. reflexivity. Qed.

(* ================================================================== *)
(** ** The range resolver on every expression *)
(* ================================================================== *)

Create HintDb ranges.
#[local] Hint Constructors Subsequence : ranges.

Lemma Subsequence_refl {X} (xs : list X) : Subsequence xs xs.
Proof. induction xs; auto with ranges. Qed.

Lemma Subsequence_nil {X} (xs : list X) : Subsequence [] xs.
Proof. induction xs; auto with ranges. Qed.

Lemma Subsequence_trans {X} (xs ys zs : list X) :
  Subsequence xs ys -> Subsequence ys zs -> Subsequence xs zs.
Proof.
  intros Hxy Hyz. revert xs Hxy.
  induction Hyz as [|z ys zs Hyz IH|y ys zs Hyz IH]; intros xs Hxy.
  - exact Hxy.
  - auto with ranges.
  - inversion Hxy; subst; auto with ranges.
Qed.

Lemma Subsequence_In {X} (xs ys : list X) (x : X) :
  Subsequence xs ys -> In x xs -> In x ys.
Proof.
  induction 1 as [|y xs ys Hs IH|y xs ys Hs IH]; simpl; intuition.
Qed.

Lemma Subsequence_length {X} (xs ys : list X) :
  Subsequence xs ys -> (List.length xs <= List.length ys)%nat.
Proof. induction 1; simpl; lia. Qed.

Lemma Subsequence_map {X Y} (f : X -> Y) (xs ys : list X) :
  Subsequence xs ys -> Subsequence (map f xs) (map f ys).
Proof. induction 1; simpl; auto with ranges. Qed.

Lemma filter_Subsequence {X} (p : X -> bool) (xs : list X) :
  Subsequence (filter p xs) xs.
Proof.
  induction xs as [|x xs IH]; simpl; [constructor|].
  destruct (p x); auto with ranges.
Qed.

Lemma firstn_Subsequence {X} (n : nat) (xs : list X) :
  Subsequence (firstn n xs) xs.
Proof.
  revert n; induction xs as [|x xs IH]; intros [|n]; simpl;
    auto using Subsequence_nil with ranges.
Qed.

Lemma skipn_Subsequence {X} (n : nat) (xs : list X) :
  Subsequence (skipn n xs) xs.
Proof.
  revert n; induction xs as [|x xs IH]; intros [|n]; simpl;
    auto using Subsequence_refl with ranges.
Qed.

Lemma slice_Subsequence {X} (xs : list X) (a : num) (b : option num) :
  Subsequence (slice xs a b) xs.
Proof.
  unfold slice.
  eapply Subsequence_trans; [apply firstn_Subsequence|].
  apply skipn_Subsequence.
Qed.

(** The selection is a subsequence of the input. *)
Lemma parseVerseRange_Subsequence `{HasVerse} (rangeStr : str)
    (allVerses selected : list A) :
  parseVerseRange rangeStr allVerses = Normal selected ->
  Subsequence selected allVerses.
Proof.
  unfold parseVerseRange.
  destruct (includes rangeStr (lit ":")).
  1: destruct (destructure2 (split rangeStr 58%N)) as [position countStr];
     destruct (strict_eq_str position (lit "first"));
       [intros [= <-]; apply slice_Subsequence|];
     destruct (strict_eq_str position (lit "last"));
       [intros [= <-]; apply slice_Subsequence|].
  all: destruct (includes rangeStr (lit "-"));
    [destruct (destructure2 (split rangeStr 45%N)) as [startStr endStr];
     intros [= <-]; apply filter_Subsequence|];
    destruct (isNaN (parseInt (Some rangeStr))); cbn [negb];
      [discriminate | intros [= <-]; apply filter_Subsequence].
Qed.

(** X2: whatever the expression, the verses selected are verses of the input,
    each at most as often as it occurs there and in the order of the
    input. *)
Theorem selection_is_a_subsequence `{HasVerse} (rangeStr : str)
    (allVerses selected : list A) :
  parseVerseRange rangeStr allVerses = Normal selected ->
  Subsequence selected allVerses.
Proof. apply parseVerseRange_Subsequence. Qed.

Lemma selection_is_a_subsequence_witness :
  parseVerseRange (lit "last:2") sampleVerses =
    Normal [sampleVerse 2; sampleVerse 3] /\
  Subsequence [sampleVerse 2; sampleVerse 3] sampleVerses.
Proof.
  split; [reflexivity|].
  apply (selection_is_a_subsequence (lit "last:2")). reflexivity.
Defined.

(** A rejection, read off the expression alone. *)
Lemma parseVerseRange_rejects {A B} `{HasVerse A} `{HasVerse B}
    (rangeStr : str) (U : list A) (U' : list B) (e : exn) :
  parseVerseRange rangeStr U = Throw e ->
  e = invalidVerseRange rangeStr /\
  parseVerseRange rangeStr U' = Throw e /\
  includes rangeStr (lit "-") = false /\
  parseInt (Some rangeStr) = NaN.
Proof.
  unfold parseVerseRange.
  destruct (includes rangeStr (lit ":")).
  1: destruct (destructure2 (split rangeStr 58%N)) as [position countStr];
     destruct (strict_eq_str position (lit "first")); [discriminate|];
     destruct (strict_eq_str position (lit "last")); [discriminate|].
  all: destruct (includes rangeStr (lit "-"));
    [destruct (destructure2 (split rangeStr 45%N)); discriminate|];
    destruct (parseInt (Some rangeStr)); cbn [isNaN negb];
      [intros [= <-]; auto | discriminate].
Qed.

(** X3: whether an expression is rejected does not depend on the verses: an
    expression rejected on one sequence is rejected on every sequence, of
    verses or of anything else that is numbered, with the one error that
    quotes it; and it is an expression without hyphen that [parseInt] does
    not read as a number. *)
Theorem rejection_ignores_the_verses {A B} `{HasVerse A} `{HasVerse B}
    (rangeStr : str) (U : list A) (U' : list B) (e : exn) :
  parseVerseRange rangeStr U = Throw e ->
  e = invalidVerseRange rangeStr /\
  parseVerseRange rangeStr U' = Throw e /\
  includes rangeStr (lit "-") = false /\
  parseInt (Some rangeStr) = NaN.
Proof. apply parseVerseRange_rejects. Qed.

Lemma rejection_ignores_the_verses_witness :
  parseVerseRange (lit "all") sampleVerses =
    Throw (invalidVerseRange (lit "all")) /\
  parseVerseRange (H := Item_HasVerse) (lit "all")
                  (numbered [lit "Brethren"]) =
    Throw (invalidVerseRange (lit "all")).
Proof.
  split; [reflexivity|].
  apply (rejection_ignores_the_verses (lit "all") sampleVerses
           (numbered [lit "Brethren"]) (invalidVerseRange (lit "all"))).
  reflexivity.
Defined.

(* ================================================================== *)
(** ** Paragraph ranges on every expression *)
(* ================================================================== *)

(** [parseParagraphRange] is [parseVerseRange] on the numbered paragraphs,
    but for the text of the error. *)
Lemma parseParagraphRange_numbered (rangeStr : str) (paragraphs : list str) :
  parseParagraphRange rangeStr paragraphs =
  match parseVerseRange (H := Item_HasVerse) rangeStr
                        (numbered paragraphs) with
  | Normal selected => Normal selected
  | Throw _ => Throw (invalidParagraphRange rangeStr)
  end.
Proof.
  unfold parseParagraphRange, parseVerseRange.
  destruct (includes rangeStr (lit ":")).
  1: destruct (destructure2 (split rangeStr 58%N)) as [position countStr];
     destruct (strict_eq_str position (lit "first")); [reflexivity|];
     destruct (strict_eq_str position (lit "last")); [reflexivity|].
  all: destruct (includes rangeStr (lit "-"));
    [destruct (destructure2 (split rangeStr 45%N)); reflexivity|];
    destruct (isNaN (parseInt (Some rangeStr))); reflexivity.
Qed.

Lemma numberFrom_In (from : Z) (paragraphs : list str) (it : Item) :
  In it (numberFrom from paragraphs) ->
  from < paragraph it /\
  nth_error paragraphs (Z.to_nat (paragraph it - from - 1)) = Some (text it).
Proof.
  revert from; induction paragraphs as [|p ps IH]; intros from;
    cbn [numberFrom]; [intros []|].
  intros [<- | Hin].
  - cbn [paragraph text]. split; [lia|].
    now replace (from + 1 - from - 1) with 0 by lia.
  - destruct (IH _ Hin) as [Hlt Hnth]. split; [lia|].
    replace (Z.to_nat (paragraph it - from - 1))
      with (S (Z.to_nat (paragraph it - (from + 1) - 1))) by lia.
    exact Hnth.
Qed.

Lemma numberFrom_at (from p : Z) (paragraphs : list str) :
  filter (fun it => paragraph it =? p) (numberFrom from paragraphs) =
  match nth_error paragraphs (Z.to_nat (p - from - 1)) with
  | Some t => if from <? p then [mkItem p t] else []
  | None => []
  end.
Proof.
  revert from; induction paragraphs as [|x ps IH]; intros from.
  - cbn [numberFrom filter]. now destruct (Z.to_nat (p - from - 1)).
  - cbn [numberFrom filter paragraph]. rewrite IH.
    destruct (from + 1 =? p) eqn:E.
    + apply Z.eqb_eq in E. subst p.
      replace (from + 1 - (from + 1) - 1) with (-1) by lia.
      replace (from + 1 - from - 1) with 0 by lia.
      cbn [Z.to_nat nth_error].
      rewrite (proj2 (Z.ltb_lt from (from + 1))) by lia.
      rewrite (proj2 (Z.ltb_ge (from + 1) (from + 1))) by lia.
      now destruct ps.
    + apply Z.eqb_neq in E.
      destruct (Z.lt_ge_cases from p) as [Hlt | Hge].
      * replace (Z.to_nat (p - from - 1))
          with (S (Z.to_nat (p - (from + 1) - 1))) by lia.
        cbn [nth_error].
        rewrite (proj2 (Z.ltb_lt from p)), (proj2 (Z.ltb_lt (from + 1) p))
          by lia.
        reflexivity.
      * rewrite (proj2 (Z.ltb_ge from p)), (proj2 (Z.ltb_ge (from + 1) p))
          by lia.
        destruct (nth_error ps _), (nth_error (x :: ps) _); reflexivity.
Qed.

(** X4: the expression [p], for [p >= 0], selects the [p]-th paragraph of the
    talk under the number [p], and nothing when the talk has no [p]-th
    paragraph ([p = 0], or [p] beyond the last). *)
Theorem paragraph_by_number (paragraphs : list str) (p : Z) :
  0 <= p ->
  parseParagraphRange (NumberToString p) paragraphs =
  Normal (match nth_error paragraphs (Z.to_nat (p - 1)) with
          | Some t => if 0 <? p then [mkItem p t] else []
          | None => []
          end).
Proof.
  intros Hp. rewrite parseParagraphRange_numbered.
  destruct (NumberToString_plain p Hp) as [Hc Hh].
  rewrite parseVerseRange_single by assumption.
  rewrite parseInt_NumberToString. cbn [isNaN strict_eq].
  unfold numbered. f_equal.
  change (fun v : Item => verse v =? p) with (fun it => paragraph it =? p).
  rewrite numberFrom_at. now replace (p - 0 - 1) with (p - 1) by lia.
Qed.

Lemma paragraph_by_number_witness :
  0 <= 2 /\
  parseParagraphRange (NumberToString 2)
                      [lit "Brethren"; lit "I testify"; lit "Amen"] =
  Normal [mkItem 2 (lit "I testify")].
Proof.
  split; [lia|].
  apply (paragraph_by_number [lit "Brethren"; lit "I testify"; lit "Amen"] 2).
  lia.
Defined.

(** X5: whatever the expression, the numbers of the selected paragraphs are
    taken in increasing order from [1 .. n], none twice, and each selected
    item carries the text of the paragraph of its number. *)
Theorem selected_paragraphs_keep_their_numbers (rangeStr : str)
    (paragraphs : list str) (selected : list Item) :
  parseParagraphRange rangeStr paragraphs = Normal selected ->
  Subsequence (map paragraph selected)
              (positions (List.length paragraphs)) /\
  forall it, In it selected ->
    nth_error paragraphs (Z.to_nat (paragraph it - 1)) = Some (text it).
Proof.
  rewrite parseParagraphRange_numbered.
  destruct (parseVerseRange _ _) as [sel|e] eqn:E; [|discriminate].
  intros [= <-].
  apply (parseVerseRange_Subsequence (H := Item_HasVerse)) in E.
  split.
  - rewrite <- numbered_positions. now apply Subsequence_map.
  - intros it Hit.
    destruct (numberFrom_In 0 paragraphs it (Subsequence_In _ _ _ E Hit))
      as [_ Hnth].
    now replace (paragraph it - 1) with (paragraph it - 0 - 1) by lia.
Qed.

Lemma selected_paragraphs_keep_their_numbers_witness :
  parseParagraphRange (lit "last:2")
                      [lit "Brethren"; lit "I testify"; lit "Amen"] =
    Normal [mkItem 2 (lit "I testify"); mkItem 3 (lit "Amen")] /\
  Subsequence (map paragraph [mkItem 2 (lit "I testify");
                              mkItem 3 (lit "Amen")])
              (positions 3).
Proof.
  split; [reflexivity|].
  apply (selected_paragraphs_keep_their_numbers (lit "last:2")
           [lit "Brethren"; lit "I testify"; lit "Amen"]).
  reflexivity.
Defined.

(* ================================================================== *)
(** ** Book information and scripture text *)
(* ================================================================== *)

Lemma find_the_one {X} (f : X -> Z) (xs : list X) (x : X) :
  NoDup (map f xs) -> In x xs -> find (fun y => f y =? f x) xs = Some x.
Proof.
  induction xs as [|y xs IH]; cbn [map find]; intros Hnd Hin;
    [destruct Hin|].
  inversion Hnd as [|k ks Hnotin Hnd']; subst.
  destruct (f y =? f x) eqn:E.
  - apply Z.eqb_eq in E. destruct Hin as [-> | Hin]; [reflexivity|].
    exfalso. apply Hnotin. rewrite E. now apply in_map.
  - destruct Hin as [-> | Hin]; [now rewrite Z.eqb_refl in E | now apply IH].
Qed.

Lemma find_some_chapter (chapters : list Chapter) (c : Chapter) :
  In c chapters ->
  exists c', find (fun y => ch_chapter y =? ch_chapter c) chapters = Some c'.
Proof.
  intros Hin. destruct (find _ chapters) as [c'|] eqn:E; [eauto|].
  apply (find_none _ _ E) in Hin. now rewrite Z.eqb_refl in Hin.
Qed.

(** X6: every chapter that [getBookInfo] lists can be fetched whole by
    [getScriptureText] under the number listed; and when the chapters of
    the book have distinct numbers, the chapter fetched has as many verses
    as listed. *)
Theorem listed_chapters_can_be_fetched (collection book : str)
    (scriptureData : ScriptureData) (info : BookInfo) (ci : ChapterInfo) :
  getBookInfo collection book scriptureData = Normal info ->
  In ci (info_chapter_details info) ->
  exists chapterData,
    getScriptureText (chapterRequest collection book (ci_chapter ci))
                     scriptureData = Normal (WholeChapter chapterData) /\
    ch_chapter chapterData = ci_chapter ci /\
    (NoDup (map ci_chapter (info_chapter_details info)) ->
     Z.of_nat (List.length (ch_verses chapterData)) = ci_verses ci).
Proof.
  unfold getBookInfo, getScriptureText. cbn [chapterRequest tx_collection
    tx_book tx_chapter tx_verse tx_verseRange truthy_int truthy_str].
  destruct (findBook scriptureData collection book) as [[bookData|]|e];
    [|discriminate|discriminate].
  intros [= <-]. cbn [info_chapter_details]. intros Hin.
  apply in_map_iff in Hin. destruct Hin as (c & <- & Hc).
  cbn [ci_chapter ci_verses].
  destruct (find_some_chapter _ _ Hc) as [c' Hfind]. rewrite Hfind.
  exists c'. split; [reflexivity|]. split.
  - apply find_some in Hfind. now apply Z.eqb_eq.
  - rewrite map_map. cbn [ci_chapter]. intros Hnd.
    rewrite (find_the_one ch_chapter _ _ Hnd Hc) in Hfind.
    now injection Hfind as <-.
Qed.

Lemma listed_chapters_can_be_fetched_witness :
  getBookInfo (lit "book-of-mormon") (lit "Alma") sampleCorpus =
    Normal (mkBookInfo (lit "Alma") 1 [mkChapterInfo 32 3]) /\
  exists chapterData,
    getScriptureText (chapterRequest (lit "book-of-mormon") (lit "Alma") 32)
                     sampleCorpus = Normal (WholeChapter chapterData) /\
    ch_chapter chapterData = 32.
Proof.
  split; [reflexivity|].
  destruct (listed_chapters_can_be_fetched (lit "book-of-mormon")
              (lit "Alma") sampleCorpus
              (mkBookInfo (lit "Alma") 1 [mkChapterInfo 32 3])
              (mkChapterInfo 32 3) eq_refl (or_introl eq_refl))
    as (chapterData & Hget & Hnumber & _).
  exists chapterData. split; [exact Hget | exact Hnumber].
Defined.

(** X7: the two tools know the same books: a collection and a book that
    [getBookInfo] rejects are rejected by [getScriptureText] with the same
    error, whatever the chapter, verse and range.  The error is the
    book-not-found error, except for a collection name that the corpus
    object only inherits from [Object.prototype], such as [constructor]:
    both tools then fail with the [TypeError] of reading [find] of
    [undefined].  For a book that [getBookInfo] describes,
    [getScriptureText] never reports the book missing. *)
Theorem both_tools_know_the_same_books (args : TextArgs)
    (scriptureData : ScriptureData) :
  match getBookInfo (tx_collection args) (tx_book args) scriptureData with
  | Throw e =>
      getScriptureText args scriptureData = Throw e /\
      e = match property scriptureData (tx_collection args) with
          | Some _ => bookNotFound (tx_collection args) (tx_book args)
          | None =>
              if existsb (str_eqb (tx_collection args)) inheritedKeys
              then TypeError (lit "Cannot read properties of undefined (reading 'find')")
              else bookNotFound (tx_collection args) (tx_book args)
          end
  | Normal _ =>
      getScriptureText args scriptureData <>
      Throw (bookNotFound (tx_collection args) (tx_book args))
  end.
Proof.
  unfold getBookInfo, getScriptureText, findBook, get, isInherited.
  destruct (property scriptureData (tx_collection args)) as [collData|].
  2: { destruct (existsb _ inheritedKeys); now split. }
  destruct (find _ (books collData)) as [bookData|]; [|now split].
  destruct (find _ (b_chapters bookData)) as [chapterData|];
    [|discriminate].
  destruct (truthy_int (tx_verse args)).
  - destruct (find _ (ch_verses chapterData)); discriminate.
  - destruct (truthy_str (tx_verseRange args)); [|discriminate].
    destruct (parseVerseRange _ _) as [vs|e] eqn:E; [discriminate|].
    apply (parseVerseRange_rejects _ _ (@nil Verse)) in E.
    destruct E as [-> _]. discriminate.
Qed.

(** X8: when a verse is asked for, the range is not looked at; and the verse
    returned has the number asked for and is a verse of a chapter with the
    number asked for, in a book with the name asked for, in the collection
    asked for. *)
Theorem verse_takes_precedence (args : TextArgs)
    (scriptureData : ScriptureData) :
  truthy_int (tx_verse args) = true ->
  (forall verseRange : option str,
     getScriptureText
       (mkTextArgs (tx_collection args) (tx_book args) (tx_chapter args)
                   (tx_verse args) verseRange) scriptureData =
     getScriptureText args scriptureData) /\
  (forall v : Verse,
     getScriptureText args scriptureData = Normal (OneVerse v) ->
     tx_verse args = Some (v_verse v) /\
     exists collData b c,
       property scriptureData (tx_collection args) = Some collData /\
       In b (books collData) /\ b_book b = tx_book args /\
       In c (b_chapters b) /\ ch_chapter c = tx_chapter args /\
       In v (ch_verses c)).
Proof.
  intros Hverse. split.
  - intros verseRange. unfold getScriptureText.
    cbn [tx_collection tx_book tx_chapter tx_verse]. rewrite Hverse.
    reflexivity.
  - intros v. unfold getScriptureText, findBook, get. rewrite Hverse.
    destruct (property scriptureData (tx_collection args)) as [collData|];
      [|destruct (isInherited _); discriminate].
    destruct (find _ (books collData)) as [b|] eqn:Eb; [|discriminate].
    destruct (find _ (b_chapters b)) as [c|] eqn:Ec; [|discriminate].
    destruct (find _ (ch_verses c)) as [v'|] eqn:Ev; [|discriminate].
    intros [= <-].
    apply find_some in Eb, Ec, Ev.
    destruct Eb as [Hb Hname], Ec as [Hc Hnumber], Ev as [Hv Hn].
    apply str_eqb_eq in Hname. apply Z.eqb_eq in Hnumber.
    split.
    + destruct (tx_verse args) as [n|]; [|discriminate].
      cbn [strict_eq_int] in Hn. apply Z.eqb_eq in Hn.
      now rewrite <- Hn.
    + exists collData, b, c. now repeat split.
Qed.

Lemma verse_takes_precedence_witness :
  truthy_int (tx_verse (verseRequest (lit "book-of-mormon") (lit "Alma")
                                     32 22)) = true /\
  getScriptureText
    (mkTextArgs (lit "book-of-mormon") (lit "Alma") 32 (Some 22)
                (Some (lit "first:1"))) sampleCorpus =
  getScriptureText (verseRequest (lit "book-of-mormon") (lit "Alma") 32 22)
                   sampleCorpus.
Proof.
  split; [reflexivity|].
  apply (proj1 (verse_takes_precedence
                  (verseRequest (lit "book-of-mormon") (lit "Alma") 32 22)
                  sampleCorpus eq_refl) (Some (lit "first:1"))).
Defined.

(** X9: one verse, asked for by number and asked for as a range: for [n > 0],
    in a chapter whose verses have distinct numbers, if the verse [n] is
    there both requests return it, alone; if it is not there the request by
    number fails and the request by range returns an empty array. *)
Theorem verse_by_number_and_by_range (collection book : str)
    (chapter n : Z) (scriptureData : ScriptureData) (b : Book)
    (c : Chapter) :
  0 < n ->
  findBook scriptureData collection book = Normal (Some b) ->
  find (fun y => ch_chapter y =? chapter) (b_chapters b) = Some c ->
  NoDup (map v_verse (ch_verses c)) ->
  match getScriptureText (verseRequest collection book chapter n)
                         scriptureData with
  | Normal (OneVerse v) =>
      getScriptureText (versesRequest collection book chapter
                                      (NumberToString n)) scriptureData =
      Normal (SomeVerses [v])
  | Throw e =>
      e = verseNotFound (verseRequest collection book chapter n) /\
      getScriptureText (versesRequest collection book chapter
                                      (NumberToString n)) scriptureData =
      Normal (SomeVerses [])
  | Normal _ => False
  end.
Proof.
  intros Hn Hbook Hchapter Hnd. unfold getScriptureText.
  cbn [verseRequest versesRequest tx_collection tx_book tx_chapter tx_verse
       tx_verseRange truthy_int ToString].
  rewrite Hbook, Hchapter.
  rewrite (proj2 (Z.eqb_neq n 0)) by lia. cbn [negb].
  assert (Hrange : truthy_str (Some (NumberToString n)) = true).
  { rewrite NumberToString_nonnegative by lia.
    destruct (decimal_numeral n) as [[Hne _] _]; [lia|].
    now destruct (decimal n). }
  rewrite Hrange.
  destruct (NumberToString_plain n) as [Hc Hh]; [lia|].
  rewrite parseVerseRange_single by assumption.
  rewrite parseInt_NumberToString. cbn [isNaN strict_eq strict_eq_int].
  change (fun v : Verse => verse v =? n) with (fun v => v_verse v =? n).
  destruct (find _ (ch_verses c)) as [v|] eqn:Ev.
  - pose proof (find_some _ _ Ev) as [Hv Heq]. apply Z.eqb_eq in Heq.
    do 2 f_equal. subst n. clear Ev Hn Hrange Hc Hh.
    induction (ch_verses c) as [|w ws IH]; [destruct Hv|].
    cbn [filter map] in *. inversion Hnd as [|k ks Hnotin Hnd']; subst.
    destruct (v_verse w =? v_verse v) eqn:E.
    + apply Z.eqb_eq in E. destruct Hv as [-> | Hv].
      * f_equal. apply filter_nothing. intros u Hu. apply Z.eqb_neq.
        intros Heq. apply Hnotin. rewrite <- Heq. now apply in_map.
      * exfalso. apply Hnotin. rewrite E. now apply in_map.
    + destruct Hv as [-> | Hv]; [now rewrite Z.eqb_refl in E | now apply IH].
  - split; [reflexivity|]. do 2 f_equal. apply filter_nothing.
    intros u Hu. apply (find_none _ _ Ev) in Hu. exact Hu.
Qed.

Lemma verse_by_number_and_by_range_witness :
  0 < 23 /\
  getScriptureText (verseRequest (lit "book-of-mormon") (lit "Alma") 32 23)
                   sampleCorpus =
    Throw (verseNotFound (verseRequest (lit "book-of-mormon") (lit "Alma")
                                       32 23)) /\
  getScriptureText (versesRequest (lit "book-of-mormon") (lit "Alma") 32
                                  (NumberToString 23)) sampleCorpus =
    Normal (SomeVerses []).
Proof.
  split; [lia|].
  pose proof (verse_by_number_and_by_range (lit "book-of-mormon")
                (lit "Alma") 32 23 sampleCorpus) as Hboth.
  cbn in Hboth. split; [reflexivity|].
  refine (proj2 (Hboth _ _ ltac:(lia) eq_refl eq_refl _)).
  repeat constructor; cbn; intuition discriminate.
Defined.

(* ================================================================== *)
(** ** Loops that collect up to a limit *)
(* ================================================================== *)

Lemma forOf_keeps {X S R} (I : S -> Prop) (body : X -> S -> flow S R) :
  (forall x s s', I s -> body x s = Continue s' -> I s') ->
  forall xs s s', I s -> forOf body xs s = Continue s' -> I s'.
Proof.
  intros Hbody xs. induction xs as [|x xs IH]; intros s s' Hs; cbn [forOf].
  - now intros [= <-].
  - destruct (body x s) as [s1|r] eqn:E; [|discriminate].
    apply IH. eapply Hbody; eauto.
Qed.

(** The flattening of nested loops, for states that satisfy an invariant
    which the body keeps. *)
Lemma forOf_flat_map_when {X Y S R} (I : S -> Prop)
    (step : X -> S -> flow S R) (body : Y -> S -> flow S R)
    (inner : X -> list Y) :
  (forall x s, I s -> step x s = forOf body (inner x) s) ->
  (forall y s s', I s -> body y s = Continue s' -> I s') ->
  forall xs s, I s -> forOf step xs s = forOf body (flat_map inner xs) s.
Proof.
  intros Hstep Hbody xs. induction xs as [|x xs IH]; intros s Hs;
    cbn [forOf flat_map]; [reflexivity|].
  rewrite forOf_app, Hstep by exact Hs.
  destruct (forOf body (inner x) s) as [s1|r] eqn:E; [|reflexivity].
  apply IH. eapply forOf_keeps; eauto.
Qed.

Section Collecting.
Context {Y M : Type} (hit : Y -> bool) (record : Y -> M) (limit : Z).

Lemma collectStep_room (y : Y) (found found' : list M) :
  collectStep hit record limit y found = Continue found' ->
  Z.of_nat (List.length found) < limit ->
  Z.of_nat (List.length found') < limit.
Proof.
  unfold collectStep. destruct (hit y).
  - destruct (_ >=? limit) eqn:E; [discriminate|].
    intros [= <-] _. rewrite Z.geb_leb in E. now apply Z.leb_gt in E.
  - now intros [= <-].
Qed.

(** A collecting loop entered with room left ends with what it had, then
    the records of the matching elements, cut at the room that was left;
    it is left by [break] exactly when the room is used up. *)
Lemma collect_up_to_limit (T : list Y) (found : list M) :
  Z.of_nat (List.length found) < limit ->
  afterLoop (forOf (collectStep hit record limit) T found) =
    found ++ firstn (Z.to_nat limit - List.length found)
                    (map record (filter hit T)) /\
  match forOf (collectStep hit record limit) T found with
  | Continue found' => Z.of_nat (List.length found') < limit
  | Return found' => limit <= Z.of_nat (List.length found')
  end.
Proof.
  revert found; induction T as [|y T IH]; intros found Hroom.
  - cbn [forOf afterLoop filter map]. rewrite firstn_nil, app_nil_r.
    now split.
  - cbn [forOf filter]. unfold collectStep at 1 3. destruct (hit y) eqn:Hy.
    + rewrite length_app. cbn [List.length map].
      destruct (Z.of_nat (List.length found + 1) >=? limit) eqn:Hge.
      * apply Z.geb_le in Hge. cbn [afterLoop].
        replace (Z.to_nat limit - List.length found)%nat with 1%nat by lia.
        cbn [firstn]. rewrite length_app. cbn [List.length]. split;
          [reflexivity | lia].
      * rewrite Z.geb_leb in Hge. apply Z.leb_gt in Hge.
        destruct (IH (found ++ [record y])) as [Hcut Hflow].
        { rewrite length_app. cbn [List.length]. lia. }
        split; [|exact Hflow].
        rewrite Hcut, <- app_assoc, length_app. cbn [List.length app].
        replace (Z.to_nat limit - List.length found)%nat
          with (S (Z.to_nat limit - (List.length found + 1))) by lia.
        reflexivity.
    + now apply IH.
Qed.

(** Whatever the limit, a collecting loop only adds records of matching
    elements of the sequence it runs over. *)
Lemma collect_only_hits (T : list Y) (found : list M) (m : M) :
  In m (afterLoop (forOf (collectStep hit record limit) T found)) ->
  In m found \/ exists y, In y T /\ hit y = true /\ m = record y.
Proof.
  revert found; induction T as [|y T IH]; intros found; cbn [forOf].
  - cbn [afterLoop]. now left.
  - unfold collectStep at 1. destruct (hit y) eqn:Hy.
    + assert (Hnew : In m (found ++ [record y]) ->
                     In m found \/
                     exists y0, In y0 (y :: T) /\ hit y0 = true /\
                                m = record y0).
      { intros Hin. apply in_app_or in Hin.
        destruct Hin as [Hin | [<- | []]]; [now left|].
        right. exists y. repeat split; [now left | exact Hy]. }
      destruct (_ >=? limit); [exact Hnew|].
      intros Hin. destruct (IH _ Hin) as [Hin' | (y0 & Hy0 & Hhit & ->)].
      * now apply Hnew.
      * right. exists y0. repeat split; [now right | exact Hhit].
    + intros Hin. destruct (IH _ Hin) as [Hin' | (y0 & Hy0 & Hhit & ->)].
      * now left.
      * right. exists y0. repeat split; [now right | exact Hhit].
Qed.

End Collecting.

(* ================================================================== *)
(** ** Scripture search: scope and limit *)
(* ================================================================== *)

Lemma truthy_str_Some (v : option str) :
  truthy_str v = true -> v = Some (ToString v).
Proof. destruct v as [[|c s]|]; now try discriminate. Qed.

Lemma strict_eq_str_Some (v : option str) (s : str) :
  strict_eq_str v s = true -> v = Some s.
Proof.
  destruct v as [a|]; [|discriminate]. cbn [strict_eq_str].
  intros Heq. apply str_eqb_eq in Heq. now subst.
Qed.

Lemma strict_eq_int_Some (a : Z) (v : option Z) :
  strict_eq_int a v = true -> v = Some a.
Proof.
  destruct v as [z|]; [|discriminate]. cbn [strict_eq_int].
  intros Heq. apply Z.eqb_eq in Heq. now subst.
Qed.

(** A located verse of the traversal is a verse of the corpus, in the
    collection, book and chapter of the request when it names any. *)
Lemma traversal_In (args : SearchArgs) (scriptureData : ScriptureData)
    (l : Located) :
  In l (traversal args scriptureData) ->
  (truthy_str (sa_collection args) = true ->
   sa_collection args = Some (l_collection l)) /\
  (truthy_str (sa_book args) = true ->
   sa_book args = Some (b_book (l_book l))) /\
  (truthy_int (sa_chapter args) = true ->
   sa_chapter args = Some (ch_chapter (l_chapter l))) /\
  exists collData,
    property scriptureData (l_collection l) = Some collData /\
    In (l_book l) (books collData) /\
    In (l_chapter l) (b_chapters (l_book l)) /\
    In (l_verse l) (ch_verses (l_chapter l)).
Proof.
  unfold traversal. intros Hin. apply in_flat_map in Hin.
  destruct Hin as (coll & Hcoll & Hin).
  unfold versesOfCollection in Hin.
  destruct (property scriptureData coll) as [collData|] eqn:Eprop;
    [|destruct Hin].
  apply in_flat_map in Hin. destruct Hin as (b & Hb & Hin).
  unfold versesOfBook in Hin.
  destruct (truthy_str (sa_book args) &&
            negb (strict_eq_str (sa_book args) (b_book b))) eqn:Ebook;
    [destruct Hin|].
  apply in_flat_map in Hin. destruct Hin as (ch & Hch & Hin).
  unfold versesOfChapter in Hin.
  destruct (truthy_int (sa_chapter args) &&
            negb (strict_eq_int (ch_chapter ch) (sa_chapter args)))
    eqn:Echapter; [destruct Hin|].
  apply in_map_iff in Hin. destruct Hin as (v & <- & Hv).
  cbn [l_collection l_book l_chapter l_verse].
  split; [|split; [|split]].
  - intros Ht. unfold collectionsToSearch in Hcoll. rewrite Ht in Hcoll.
    destruct Hcoll as [<- | []]. now apply truthy_str_Some.
  - intros Ht. rewrite Ht in Ebook. cbn [andb] in Ebook.
    apply negb_false_iff in Ebook. now apply strict_eq_str_Some.
  - intros Ht. rewrite Ht in Echapter. cbn [andb] in Echapter.
    apply negb_false_iff in Echapter. now apply strict_eq_int_Some.
  - exists collData. now repeat split.
Qed.

Section SearchScope.
Context `{CaseFolding}.

Lemma scan_only_hits (args : SearchArgs) (limit : Z) (T : list Located)
    (s : Scan) (m : Match) :
  In m (matches (finalScan
          (forOf (locatedStep (toLowerCase (sa_query args)) limit) T s))) ->
  In m (matches s) \/
  exists l, In l T /\ hit args l = true /\ m = matchOf l.
Proof.
  revert s; induction T as [|l T IH]; intros s; cbn [forOf].
  - cbn [finalScan]. now left.
  - unfold locatedStep at 1, verseStep. fold (hit args l).
    destruct (hit args l) eqn:Hl.
    + fold (matchOf l).
      assert (Hnew : In m (matches s ++ [matchOf l]) ->
                     In m (matches s) \/
                     exists l0, In l0 (l :: T) /\ hit args l0 = true /\
                                m = matchOf l0).
      { intros Hin. apply in_app_or in Hin.
        destruct Hin as [Hin | [<- | []]]; [now left|].
        right. exists l. repeat split; [now left | exact Hl]. }
      destruct (_ >=? limit); [exact Hnew|].
      intros Hin. destruct (IH _ Hin) as [Hin' | (l0 & Hl0 & Hhit & ->)].
      * now apply Hnew.
      * right. exists l0. repeat split; [now right | exact Hhit].
    + intros Hin. destruct (IH _ Hin) as [Hin' | (l0 & Hl0 & Hhit & ->)].
      * now left.
      * right. exists l0. repeat split; [now right | exact Hhit].
Qed.

(** X10: whatever the limit, every result of a search is a verse of the corpus:
    it lies in the collection, in the book and in the chapter that the
    request names, its fields are those of a verse found there, and its
    lower-cased text contains the lower-cased query. *)
Theorem results_lie_in_the_scope (args : SearchArgs)
    (scriptureData : ScriptureData) (response : SearchResponse)
    (m : Match) :
  searchScriptures args scriptureData = Normal response ->
  In m (r_results response) ->
  (truthy_str (sa_collection args) = true ->
   sa_collection args = Some (m_collection m)) /\
  (truthy_str (sa_book args) = true -> sa_book args = Some (m_book m)) /\
  (truthy_int (sa_chapter args) = true ->
   sa_chapter args = Some (m_chapter m)) /\
  includes (toLowerCase (m_text m)) (toLowerCase (sa_query args)) = true /\
  exists collData b c v,
    property scriptureData (m_collection m) = Some collData /\
    In b (books collData) /\ In c (b_chapters b) /\ In v (ch_verses c) /\
    m = mkMatch (m_collection m) (b_book b) (ch_chapter c) (v_verse v)
                (v_reference v) (v_text v).
Proof.
  unfold searchScriptures.
  destruct (truthy_str (sa_book args) &&
            negb (truthy_str (sa_collection args))); [discriminate|].
  destruct (truthy_int (sa_chapter args) &&
            negb (truthy_str (sa_collection args) &&
                  truthy_str (sa_book args))); [discriminate|].
  destruct (inheritedCollection args scriptureData) eqn:Hinh;
    [now rewrite searchLoops_inherited by exact Hinh|].
  rewrite searchLoops_flat by exact Hinh.
  intros [= <-]. cbn [r_results]. intros Hin.
  apply scan_only_hits in Hin. destruct Hin as [[] | (l & Hl & Hhit & ->)].
  destruct (traversal_In _ _ _ Hl)
    as (Hcoll & Hbook & Hchapter & collData & Hprop & Hb & Hc & Hv).
  cbn [matchOf m_collection m_book m_chapter m_text].
  split; [exact Hcoll|]. split; [exact Hbook|]. split; [exact Hchapter|].
  split; [exact Hhit|].
  exists collData, (l_book l), (l_chapter l), (l_verse l).
  now repeat split.
Qed.

(** X11: a limit of zero or less is not rejected and does not give an empty
    reply: for a request with a valid scope (and a collection that is not
    an inherited member of the corpus object) the search returns the first
    match of the scope, alone, or nothing if the scope has no match. *)
Theorem nonpositive_limit_gives_one_match (args : SearchArgs)
    (scriptureData : ScriptureData) (limit : Z) :
  sa_maxResults args = Some limit ->
  limit <= 0 ->
  (truthy_str (sa_book args) = true ->
   truthy_str (sa_collection args) = true) ->
  (truthy_int (sa_chapter args) = true ->
   truthy_str (sa_collection args) = true /\
   truthy_str (sa_book args) = true) ->
  inheritedCollection args scriptureData = false ->
  let results := firstn 1 (allMatches args scriptureData) in
  searchScriptures args scriptureData =
    Normal (mkSearchResponse (sa_query args)
                             (Z.of_nat (List.length results)) results).
Proof.
  intros Hmax Hlimit Hbook Hchapter Hinh results.
  destruct (valid_scope args Hbook Hchapter) as [Hb Hc].
  unfold searchScriptures.
  rewrite Hb, Hc, searchLoops_flat by exact Hinh.
  rewrite scan_matches. cbn [matches app List.length].
  rewrite (maxResultsOf_limit args limit (or_introl Hmax)).
  now replace (Z.to_nat (Z.max 1 (limit - Z.of_nat 0))) with 1%nat by lia.
Qed.

End SearchScope.

Lemma results_lie_in_the_scope_witness :
  exists response m,
    searchScriptures (H := asciiLowerCase) sampleRequest sampleCorpus =
      Normal response /\
    In m (r_results response) /\
    sa_book sampleRequest = Some (m_book m).
Proof.
  eexists. eexists. split; [reflexivity|]. split; [now left|].
  refine (proj1 (proj2 (results_lie_in_the_scope (H := asciiLowerCase)
                          sampleRequest sampleCorpus _ _ eq_refl
                          (or_introl eq_refl))) eq_refl).
Defined.

Lemma nonpositive_limit_gives_one_match_witness :
  (sa_maxResults (mkSearchArgs (lit "faith") None None None (Some 0)) =
     Some 0 /\
   0 <= 0 /\
   inheritedCollection (mkSearchArgs (lit "faith") None None None (Some 0))
                       sampleCorpus = false) /\
  searchScriptures (H := asciiLowerCase)
    (mkSearchArgs (lit "faith") None None None (Some 0)) sampleCorpus =
    Normal (mkSearchResponse (lit "faith") 1
              [mkMatch (lit "book-of-mormon") (lit "Alma") 32 21
                       (lit "Alma 32:21")
                       (lit "Faith is not to have a perfect knowledge")]).
Proof.
  split; [repeat split; discriminate|].
  exact (nonpositive_limit_gives_one_match (H := asciiLowerCase)
           (mkSearchArgs (lit "faith") None None None (Some 0))
           sampleCorpus 0 eq_refl (Z.le_refl 0)
           (fun (E : false = true) => False_ind _ (Bool.diff_false_true E))
           (fun (E : false = true) => False_ind _ (Bool.diff_false_true E))
           eq_refl).
Defined.

(* ================================================================== *)
(** ** Search of the conference talks *)
(* ================================================================== *)

Lemma forOf_ext {X S R} (body body' : X -> S -> flow S R) (xs : list X)
    (s : S) :
  (forall x s0, body x s0 = body' x s0) ->
  forOf body xs s = forOf body' xs s.
Proof.
  intros Hext. revert s; induction xs as [|x xs IH]; intros s; cbn [forOf];
    [reflexivity|].
  rewrite Hext. destruct (body' x s); [apply IH | reflexivity].
Qed.

Lemma entriesFrom_In {X} (from i : Z) (xs : list X) (x : X) :
  In (i, x) (entriesFrom from xs) ->
  from <= i /\ nth_error xs (Z.to_nat (i - from)) = Some x.
Proof.
  revert from; induction xs as [|y ys IH]; intros from; cbn [entriesFrom];
    [intros []|].
  intros [[= <- <-] | Hin].
  - split; [lia|]. now rewrite Z.sub_diag.
  - destruct (IH _ Hin) as [Hle Hnth]. split; [lia|].
    replace (Z.to_nat (i - from)) with (S (Z.to_nat (i - (from + 1))))
      by lia.
    exact Hnth.
Qed.

Section TalkSearchFacts.
Context `{CaseFolding}.

(** The loop over the paragraphs of a talk is a collecting loop. *)
Lemma paragraphs_loop (args : TalkSearchArgs) (talk : ConferenceTalkMeta)
    (found : list TalkMatch) :
  forOf (paragraphStep (toLowerCase (ts_query args)) (talkLimitOf args) talk)
        (entriesFrom 0 (body talk)) found =
  forOf (collectStep (paragraphHit args) talkMatchOf (talkLimitOf args))
        (map (pair talk) (entriesFrom 0 (body talk))) found.
Proof.
  rewrite <- forOf_map. apply forOf_ext. now intros [i para] found0.
Qed.

(** With a positive limit not yet reached, the body of the loop over the
    talks is the loop over the paragraphs: its second [break] is taken
    exactly when the first was. *)
Lemma talkStep_flat (args : TalkSearchArgs) (talk : ConferenceTalkMeta)
    (found : list TalkMatch) :
  Z.of_nat (List.length found) < talkLimitOf args ->
  talkStep (toLowerCase (ts_query args)) (talkLimitOf args) talk found =
  forOf (collectStep (paragraphHit args) talkMatchOf (talkLimitOf args))
        (map (pair talk) (entriesFrom 0 (body talk))) found.
Proof.
  intros Hroom. unfold talkStep. rewrite paragraphs_loop.
  destruct (collect_up_to_limit (paragraphHit args) talkMatchOf
              (talkLimitOf args)
              (map (pair talk) (entriesFrom 0 (body talk))) found Hroom)
    as [_ Hflow].
  destruct (forOf _ _ found) as [found'|found']; cbn [afterLoop].
  - rewrite Z.geb_leb. now rewrite (proj2 (Z.leb_gt _ _)) by exact Hflow.
  - now rewrite (proj2 (Z.geb_le _ _)) by exact Hflow.
Qed.

(** X12: with a positive limit (the one the request gives, or the default of
    20), the reply of [searchConferenceTalks] holds the first [limit]
    matching paragraphs, in the order of the talks and, in a talk, of its
    paragraphs; its count is their number, at most [limit]. *)
Theorem talk_search_stops_at_the_limit (args : TalkSearchArgs)
    (conferenceData : ConferenceData) (limit : Z) :
  ts_maxResults args = Some limit \/
  (ts_maxResults args = None /\ limit = 20) ->
  0 < limit ->
  let results :=
    firstn (Z.to_nat limit) (allTalkMatches args conferenceData) in
  searchConferenceTalks args conferenceData =
    Normal (mkTalkSearchResponse (ts_query args)
              (Z.of_nat (List.length results)) results) /\
  Z.of_nat (List.length results) <= limit.
Proof.
  intros Hmax Hlimit results.
  assert (Hof : talkLimitOf args = limit)
    by (unfold talkLimitOf; now destruct Hmax as [-> | [-> ->]]).
  assert (Hloop :
    afterLoop (forOf (talkStep (toLowerCase (ts_query args))
                               (talkLimitOf args))
                     (talksToSearch args conferenceData) []) = results).
  { rewrite (forOf_flat_map_when
               (fun found => Z.of_nat (List.length found) < talkLimitOf args)
               _ (collectStep (paragraphHit args) talkMatchOf
                              (talkLimitOf args))
               (fun talk => map (pair talk) (entriesFrom 0 (body talk)))).
    - destruct (collect_up_to_limit (paragraphHit args) talkMatchOf
                  (talkLimitOf args)
                  (paragraphsToSearch args conferenceData) [])
        as [Hcut _]; [cbn [List.length]; lia|].
      unfold paragraphsToSearch in Hcut. rewrite Hcut, Hof.
      cbn [app List.length]. now rewrite Nat.sub_0_r.
    - intros talk found. apply talkStep_flat.
    - intros y found found' Hroom Hstep.
      eapply collectStep_room; eauto.
    - cbn [List.length]. lia. }
  split.
  - unfold searchConferenceTalks. now rewrite Hloop.
  - unfold results. rewrite length_firstn. lia.
Qed.

Lemma talks_loop_only_hits (args : TalkSearchArgs)
    (talks : list ConferenceTalkMeta) (found : list TalkMatch)
    (m : TalkMatch) :
  In m (afterLoop (forOf (talkStep (toLowerCase (ts_query args))
                                   (talkLimitOf args)) talks found)) ->
  In m found \/
  exists talk entry,
    In talk talks /\ In entry (entriesFrom 0 (body talk)) /\
    paragraphHit args (talk, entry) = true /\ m = talkMatchOf (talk, entry).
Proof.
  revert found; induction talks as [|talk talks IH]; intros found;
    cbn [forOf].
  - cbn [afterLoop]. now left.
  - assert (Hinner : forall m0,
      In m0 (afterLoop
               (forOf (paragraphStep (toLowerCase (ts_query args))
                                     (talkLimitOf args) talk)
                      (entriesFrom 0 (body talk)) found)) ->
      In m0 found \/
      exists talk0 entry,
        In talk0 (talk :: talks) /\
        In entry (entriesFrom 0 (body talk0)) /\
        paragraphHit args (talk0, entry) = true /\
        m0 = talkMatchOf (talk0, entry)).
    { intros m0 Hin. rewrite paragraphs_loop in Hin.
      apply collect_only_hits in Hin.
      destruct Hin as [Hin | (y & Hy & Hhit & ->)]; [now left|].
      apply in_map_iff in Hy. destruct Hy as (entry & <- & Hentry).
      right. exists talk, entry. repeat split; [now left | | ]; assumption. }
    unfold talkStep at 1.
    destruct (_ >=? talkLimitOf args); cbn [afterLoop];
      [exact (Hinner m)|].
    intros Hin.
    destruct (IH _ Hin) as [Hin' | (talk0 & entry & Ht & He & Hhit & ->)].
    + now apply Hinner.
    + right. exists talk0, entry. repeat split; [now right | | ];
        assumption.
Qed.

(** X13: whatever the limit, every result of [searchConferenceTalks] is a
    paragraph of a loaded talk: it carries the session, title and speaker
    of that talk, its number is the rank of the paragraph in the talk,
    counted from 1, its text is the paragraph, whose lower-cased text
    contains the lower-cased query; and when the request names a session,
    it is in that session. *)
Theorem talk_results_are_paragraphs (args : TalkSearchArgs)
    (conferenceData : ConferenceData) (response : TalkSearchResponse)
    (m : TalkMatch) :
  searchConferenceTalks args conferenceData = Normal response ->
  In m (tr_results response) ->
  (exists talk,
     In talk (allTalks conferenceData) /\
     tm_session m = session talk /\ tm_title m = title talk /\
     tm_speaker m = speaker talk /\
     1 <= tm_paragraph m /\
     nth_error (body talk) (Z.to_nat (tm_paragraph m - 1)) =
       Some (tm_text m)) /\
  includes (toLowerCase (tm_text m)) (toLowerCase (ts_query args)) = true /\
  (truthy_str (ts_session args) = true ->
   ts_session args = Some (tm_session m)).
Proof.
  unfold searchConferenceTalks. intros [= <-]. cbn [tr_results].
  intros Hin. apply talks_loop_only_hits in Hin.
  destruct Hin as [[] | (talk & [i para] & Htalk & Hentry & Hhit & ->)].
  apply entriesFrom_In in Hentry. destruct Hentry as [Hi Hnth].
  cbn [talkMatchOf fst snd tm_session tm_title tm_speaker tm_paragraph
       tm_text].
  split; [|split; [exact Hhit|]].
  - exists talk. repeat split; try lia.
    + unfold talksToSearch in Htalk.
      destruct (truthy_str (ts_session args)); [|exact Htalk].
      now apply filter_In in Htalk.
    + now replace (i + 1 - 1) with (i - 0) by lia.
  - intros Ht. unfold talksToSearch in Htalk. rewrite Ht in Htalk.
    apply filter_In in Htalk. destruct Htalk as [_ Heq].
    apply str_eqb_eq in Heq. rewrite Heq. now apply truthy_str_Some.
Qed.

End TalkSearchFacts.

Lemma talk_search_stops_at_the_limit_witness :
  (ts_maxResults twoResultsSearch = Some 2 /\ 0 < 2) /\
  map tm_paragraph
      (allTalkMatches (H := asciiLowerCase) twoResultsSearch
                      sampleConference) = [1; 2; 3] /\
  searchConferenceTalks (H := asciiLowerCase) twoResultsSearch
                        sampleConference =
  Normal (mkTalkSearchResponse (lit "E") 2
            [mkTalkMatch (lit "2008-10") (lit "Faith, Hope & Charity!")
                         (lit "Dieter F. Uchtdorf") 1 (lit "Brethren");
             mkTalkMatch (lit "2008-10") (lit "Faith, Hope & Charity!")
                         (lit "Dieter F. Uchtdorf") 2 (lit "I testify")]).
Proof.
  split; [split; reflexivity|]. split; [reflexivity|].
  exact (proj1 (talk_search_stops_at_the_limit (H := asciiLowerCase)
                  twoResultsSearch sampleConference 2 (or_introl eq_refl)
                  eq_refl)).
Defined.

Lemma talk_results_are_paragraphs_witness :
  exists response m,
    searchConferenceTalks (H := asciiLowerCase) sampleTalkSearch
                          sampleConference = Normal response /\
    In m (tr_results response) /\
    ts_session sampleTalkSearch = Some (tm_session m).
Proof.
  eexists. eexists. split; [reflexivity|]. split; [now left|].
  refine (proj2 (proj2 (talk_results_are_paragraphs (H := asciiLowerCase)
                          sampleTalkSearch sampleConference _ _ eq_refl
                          (or_introl eq_refl))) eq_refl).
Defined.

(* ================================================================== *)
(** ** Talk lookup: when it fails, and what it finds *)
(* ================================================================== *)

Lemma includes_refl (s : str) : includes s s = true.
Proof. apply includes_spec. exists [], []. now rewrite app_nil_r. Qed.

Lemma includes_empty (s : str) : includes s [] = true.
Proof. apply includes_spec. now exists [], s. Qed.

Lemma find_none_iff {X} (p : X -> bool) (xs : list X) :
  find p xs = None <-> forall x, In x xs -> p x = false.
Proof.
  split; [apply find_none|].
  intros Hall. destruct (find p xs) as [x|] eqn:E; [|reflexivity].
  apply find_some in E. destruct E as [Hin Hp].
  rewrite (Hall x Hin) in Hp. discriminate.
Qed.

Section TalkLookup.
Context `{CaseFolding}.

(** When the lookup finds nothing. *)
Lemma findTalk_None (talks : list ConferenceTalkMeta)
    (args : TalkArgs) :
  findTalk talks args = None <->
  (truthy_str (ta_slug args) = true ->
   forall t, In t talks -> slug t <> ToString (ta_slug args)) /\
  (truthy_str (ta_title args) = true ->
   forall t, In t talks ->
     includes (normalize (title t))
              (normalize (ToString (ta_title args))) = false).
Proof.
  unfold findTalk, findByTitle. split.
  - intros Hnone. split.
    + intros Hslug t Ht Heq. rewrite Hslug in Hnone.
      destruct (find (fun t0 => str_eqb (slug t0) _) talks) eqn:E;
        [discriminate|].
      apply (find_none _ _ E) in Ht. rewrite Heq, str_eqb_refl in Ht.
      discriminate.
    + intros Htitle. rewrite Htitle in Hnone.
      destruct (if truthy_str (ta_slug args) then _ else None);
        [discriminate|].
      destruct (find (fun t0 => str_eqb (title t0) _) talks);
        [discriminate|].
      destruct (find (fun t0 => str_eqb (normalize (title t0)) _) talks);
        [discriminate|].
      now apply find_none_iff.
  - intros [Hslug Htitle].
    assert (Hfirst : (if truthy_str (ta_slug args)
                      then find (fun t => str_eqb (slug t)
                                            (ToString (ta_slug args))) talks
                      else None) = None).
    { destruct (truthy_str (ta_slug args)); [|reflexivity].
      apply find_none_iff. intros t Ht.
      destruct (str_eqb (slug t) _) eqn:E; [|reflexivity].
      apply str_eqb_eq in E. now apply Hslug in E. }
    rewrite Hfirst.
    destruct (truthy_str (ta_title args)); [|reflexivity].
    specialize (Htitle eq_refl).
    destruct (find (fun t => str_eqb (title t) _) talks) as [t|] eqn:E2.
    { apply find_some in E2. destruct E2 as [Ht Heq].
      apply str_eqb_eq in Heq. apply Htitle in Ht.
      rewrite Heq, includes_refl in Ht. discriminate. }
    destruct (find (fun t => str_eqb (normalize (title t)) _) talks)
      as [t|] eqn:E3.
    { apply find_some in E3. destruct E3 as [Ht Heq].
      apply str_eqb_eq in Heq. apply Htitle in Ht.
      rewrite Heq, includes_refl in Ht. discriminate. }
    now apply find_none_iff.
Qed.

(** X14: the lookup fails exactly when no talk of the session has the slug asked
    for (or none is asked for) and no talk has a normalized title that
    contains the normalized title asked for (or none is asked for): the
    tiers by title and by normalized title find nothing that the last tier
    would miss. *)
Theorem talk_not_found_exactly_when (talks : list ConferenceTalkMeta)
    (args : TalkArgs) :
  findTalk talks args = None <->
  (truthy_str (ta_slug args) = true ->
   forall t, In t talks -> slug t <> ToString (ta_slug args)) /\
  (truthy_str (ta_title args) = true ->
   forall t, In t talks ->
     includes (normalize (title t))
              (normalize (ToString (ta_title args))) = false).
Proof. exact (findTalk_None talks args). Qed.

(** X15: a talk that the lookup finds is a talk of the session, and it has the
    slug asked for or a normalized title that contains the normalized title
    asked for. *)
Theorem found_talk_answers_the_request (talks : list ConferenceTalkMeta)
    (args : TalkArgs) (t : ConferenceTalkMeta) :
  findTalk talks args = Some t ->
  In t talks /\
  (ta_slug args = Some (slug t) \/
   (truthy_str (ta_title args) = true /\
    includes (normalize (title t))
             (normalize (ToString (ta_title args))) = true)).
Proof.
  unfold findTalk, findByTitle.
  destruct (truthy_str (ta_slug args)) eqn:Hslug.
  1: destruct (find (fun t0 => str_eqb (slug t0) _) talks) as [t1|] eqn:E1.
  1: { intros [= ->]. apply find_some in E1. destruct E1 as [Ht Heq].
       apply str_eqb_eq in Heq. split; [exact Ht|]. left.
       rewrite Heq. now apply truthy_str_Some. }
  all: destruct (truthy_str (ta_title args)) eqn:Htitle; [|discriminate];
    destruct (find (fun t0 => str_eqb (title t0) _) talks) as [t2|] eqn:E2;
    [intros [= ->]; apply find_some in E2; destruct E2 as [Ht Heq];
     apply str_eqb_eq in Heq; split; [exact Ht|]; right;
     split; [reflexivity|]; rewrite Heq; apply includes_refl|];
    destruct (find (fun t0 => str_eqb (normalize (title t0)) _) talks)
      as [t3|] eqn:E3;
    [intros [= ->]; apply find_some in E3; destruct E3 as [Ht Heq];
     apply str_eqb_eq in Heq; split; [exact Ht|]; right;
     split; [reflexivity|]; rewrite Heq; apply includes_refl|];
    intros E4; apply find_some in E4; destruct E4 as [Ht Hinc];
    split; [exact Ht|]; right; now split.
Qed.

(** X16: a title that [normalize] empties, such as one made of punctuation
    only, is contained in every normalized title: in a session that has
    talks, the lookup by such a title always finds one. *)
Theorem empty_title_finds_a_talk (talks : list ConferenceTalkMeta)
    (args : TalkArgs) :
  talks <> [] ->
  truthy_str (ta_title args) = true ->
  normalize (ToString (ta_title args)) = [] ->
  exists t, findTalk talks args = Some t.
Proof.
  intros Hne Htitle Hempty.
  destruct (findTalk talks args) as [t|] eqn:E; [eauto|].
  apply findTalk_None in E. destruct E as [_ Hnone].
  destruct talks as [|t ts]; [contradiction|].
  specialize (Hnone Htitle t (or_introl eq_refl)).
  rewrite Hempty, includes_empty in Hnone. discriminate.
Qed.

End TalkLookup.

Lemma talk_not_found_exactly_when_witness :
  findTalk (H := asciiLowerCase) [sampleTalk] unknownRequest = None.
Proof.
  apply (talk_not_found_exactly_when (H := asciiLowerCase)).
  split; intros _ t [<- | []]; [discriminate | reflexivity].
Defined.

Lemma found_talk_answers_the_request_witness :
  findTalk (H := asciiLowerCase) [sampleTalk] fragmentRequest =
    Some sampleTalk /\
  In sampleTalk [sampleTalk].
Proof.
  split; [reflexivity|].
  apply (found_talk_answers_the_request (H := asciiLowerCase) [sampleTalk]
           fragmentRequest sampleTalk).
  reflexivity.
Defined.

Lemma empty_title_finds_a_talk_witness :
  ([sampleTalk] <> [] /\
   truthy_str (ta_title punctuationRequest) = true /\
   normalize (H := asciiLowerCase) (ToString (ta_title punctuationRequest))
     = []) /\
  exists t, findTalk (H := asciiLowerCase) [sampleTalk] punctuationRequest =
            Some t.
Proof.
  split; [repeat split; discriminate|].
  apply (empty_title_finds_a_talk (H := asciiLowerCase) [sampleTalk]
           punctuationRequest); [discriminate | reflexivity | reflexivity].
Defined.

(* ================================================================== *)
(** ** The paragraphs of a talk *)
(* ================================================================== *)

Lemma nth_error_in_bounds {X} (xs : list X) (i : nat) :
  (i < List.length xs)%nat -> exists x, nth_error xs i = Some x.
Proof.
  intros Hi. destruct (nth_error xs i) as [x|] eqn:E; [eauto|].
  apply nth_error_None in E. lia.
Qed.

(** A Number that is an integer is an index; any other is not. *)
Lemma at_index_integer {X} (xs : list X) (q : Q) (j : Z) :
  (q == inject_Z j)%Q -> 0 <= j -> at_index xs q = nth_error xs (Z.to_nat j).
Proof.
  intros Hq Hj. unfold at_index.
  assert (Hnum : Qnum q = j * Zpos (Qden q))
    by (unfold Qeq in Hq; cbn in Hq; lia).
  rewrite Hnum, Z_mod_mult, Z_div_mult by lia. cbn [Z.eqb andb].
  now rewrite (proj2 (Z.leb_le 0 (j * Zpos (Qden q)))) by lia.
Qed.

Lemma at_index_fraction {X} (xs : list X) (q : Q) :
  (forall j : Z, ~ (q == inject_Z j)%Q) -> at_index xs q = None.
Proof.
  intros Hq. unfold at_index.
  destruct (Qnum q mod Zpos (Qden q) =? 0) eqn:E; [|reflexivity].
  exfalso. apply Z.eqb_eq in E.
  apply (Hq (Qnum q / Zpos (Qden q))). unfold Qeq. cbn.
  rewrite Z.mul_1_r, Z.mul_comm. now apply Z.div_exact.
Qed.

Lemma integer_before (q : Q) (k : Z) :
  (q == inject_Z k)%Q -> (q - 1 == inject_Z (k - 1))%Q.
Proof.
  intros Hq. rewrite Hq.
  unfold Qeq, Qminus, Qplus, Qopp, inject_Z. cbn [Qnum Qden]. lia.
Qed.

Lemma truthy_num_Some (p : Q) : ~ (p == 0)%Q -> truthy_num (Some p) = true.
Proof.
  intros Hp. cbn [truthy_num]. destruct (Qeq_bool p 0) eqn:E; [|reflexivity].
  now apply Qeq_bool_iff in E.
Qed.

Lemma lt_num_true (a b : Q) : (a < b)%Q -> lt_num a b = true.
Proof.
  intros Hab. unfold lt_num. destruct (Qle_bool b a) eqn:E; [|reflexivity].
  apply Qle_bool_iff in E. now apply Qlt_not_le in Hab.
Qed.

Lemma lt_num_false (a b : Q) : (b <= a)%Q -> lt_num a b = false.
Proof.
  intros Hba. unfold lt_num. now rewrite (proj2 (Qle_bool_iff b a) Hba).
Qed.

(** X17: a request with a paragraph number [p] other than zero is answered from
    that number alone, whatever its range of paragraphs.  Outside of
    [1 .. n] the call fails with the out-of-range error; an integer [p]
    within it gets the text of the paragraph [p]; a number within it that
    is not an integer, such as one and a half, gets a reply with the number
    and no text, since [body[p - 1]] is then undefined. *)
Theorem one_paragraph_by_its_number (talk : ConferenceTalkMeta)
    (args : TalkArgs) (p : Q) :
  ta_paragraph args = Some p ->
  ~ (p == 0)%Q ->
  let n := Z.of_nat (List.length (body talk)) in
  ((p < 1)%Q \/ (inject_Z n < p)%Q ->
   talkReply talk args =
   Throw (Error (lit "Paragraph out of range 1-" ++ NumberToString n))) /\
  (forall k : Z,
     (p == inject_Z k)%Q -> 1 <= k <= n ->
     exists t,
       nth_error (body talk) (Z.to_nat (k - 1)) = Some t /\
       talkReply talk args =
       Normal (OneParagraph (session talk) (title talk) (speaker talk) p
                            (Some t))) /\
  ((1 <= p)%Q -> (p <= inject_Z n)%Q ->
   (forall k : Z, ~ (p == inject_Z k)%Q) ->
   talkReply talk args =
   Normal (OneParagraph (session talk) (title talk) (speaker talk) p None)).
Proof.
  intros Hargs Hp n. unfold talkReply.
  rewrite Hargs, (truthy_num_Some p Hp). fold n.
  split; [|split].
  - intros [Hlow | Hhigh].
    + now rewrite (lt_num_true p 1 Hlow).
    + rewrite (lt_num_true _ p Hhigh). now rewrite orb_true_r.
  - intros k Hk Hbounds.
    assert (Hlow : (1 <= p)%Q)
      by (rewrite Hk; change 1%Q with (inject_Z 1); rewrite <- Zle_Qle; lia).
    assert (Hhigh : (p <= inject_Z n)%Q)
      by (rewrite Hk, <- Zle_Qle; lia).
    rewrite (lt_num_false p 1 Hlow), (lt_num_false _ p Hhigh).
    cbn [orb].
    destruct (nth_error_in_bounds (body talk) (Z.to_nat (k - 1)))
      as [t Ht]; [lia|].
    exists t. split; [exact Ht|].
    rewrite (at_index_integer (body talk) (p - 1)%Q (k - 1)), Ht;
      [reflexivity | | lia].
    now apply integer_before.
  - intros Hlow Hhigh Hfraction.
    rewrite (lt_num_false p 1 Hlow), (lt_num_false _ p Hhigh).
    cbn [orb]. rewrite at_index_fraction; [reflexivity|].
    intros j Hj. apply (Hfraction (j + 1)).
    rewrite inject_Z_plus, <- Hj. change (inject_Z 1) with 1%Q. ring.
Qed.

(** X18: one paragraph, asked for by number and asked for as a range: for [p] in
    [1 .. n] the request by number returns the paragraph [p], and the
    request by the range [p] returns the same text under the same number,
    alone. *)
Theorem paragraph_by_number_and_by_range
    (talk : ConferenceTalkMeta) (args : TalkArgs) (p : Z) :
  1 <= p <= Z.of_nat (List.length (body talk)) ->
  exists t,
    talkReply talk (forParagraph p args) =
      Normal (OneParagraph (session talk) (title talk) (speaker talk)
                           (inject_Z p) (Some t)) /\
    talkReply talk (forParagraphRange (NumberToString p) args) =
      Normal (SelectedParagraphs (session talk) (title talk) (speaker talk)
                                 [mkItem p t]).
Proof.
  intros Hp.
  destruct (nth_error_in_bounds (body talk) (Z.to_nat (p - 1)))
    as [t Ht]; [lia|].
  exists t. unfold talkReply.
  cbn [forParagraph forParagraphRange ta_paragraph ta_paragraphRange
       ToString].
  split.
  - rewrite truthy_num_Some
      by (change 0%Q with (inject_Z 0); rewrite inject_Z_injective; lia).
    rewrite (lt_num_false (inject_Z p) 1)
      by (change 1%Q with (inject_Z 1); rewrite <- Zle_Qle; lia).
    rewrite (lt_num_false _ (inject_Z p)) by (rewrite <- Zle_Qle; lia).
    cbn [orb].
    rewrite (at_index_integer (body talk) (inject_Z p - 1)%Q (p - 1)), Ht;
      [reflexivity | | lia].
    now apply integer_before.
  - cbn [truthy_num].
    assert (Hrange : truthy_str (Some (NumberToString p)) = true).
    { rewrite NumberToString_nonnegative by lia.
      destruct (decimal_numeral p) as [[Hne _] _]; [lia|].
      now destruct (decimal p). }
    rewrite Hrange.
    rewrite parseParagraphRange_numbered.
    destruct (NumberToString_plain p) as [Hc Hh]; [lia|].
    rewrite parseVerseRange_single by assumption.
    rewrite parseInt_NumberToString. cbn [isNaN strict_eq].
    change (fun v : Item => verse v =? p) with (fun it => paragraph it =? p).
    unfold numbered. rewrite numberFrom_at.
    replace (p - 0 - 1) with (p - 1) by lia. rewrite Ht.
    now rewrite (proj2 (Z.ltb_lt 0 p)) by lia.
Qed.

Lemma one_paragraph_by_its_number_witness :
  (ta_paragraph halfwayRequest = Some (3 # 2)%Q /\
   ~ (3 # 2 == 0)%Q /\
   (1 <= 3 # 2)%Q /\
   (3 # 2 <= inject_Z (Z.of_nat (List.length (body sampleTalk))))%Q /\
   forall k : Z, ~ (3 # 2 == inject_Z k)%Q) /\
  talkReply sampleTalk halfwayRequest =
    Normal (OneParagraph (lit "2008-10") (lit "Faith, Hope & Charity!")
              (lit "Dieter F. Uchtdorf") (3 # 2)%Q None).
Proof.
  assert (Hnonzero : ~ (3 # 2 == 0)%Q) by discriminate.
  assert (Hlow : (1 <= 3 # 2)%Q) by discriminate.
  assert (Hhigh :
    (3 # 2 <= inject_Z (Z.of_nat (List.length (body sampleTalk))))%Q)
    by discriminate.
  assert (Hfraction : forall k : Z, ~ (3 # 2 == inject_Z k)%Q)
    by (intros k; unfold Qeq; cbn; lia).
  split; [now repeat split|].
  exact (proj2 (proj2 (one_paragraph_by_its_number sampleTalk halfwayRequest
                         (3 # 2)%Q eq_refl Hnonzero))
           Hlow Hhigh Hfraction).
Defined.

Lemma paragraph_by_number_and_by_range_witness :
  1 <= 3 <= Z.of_nat (List.length (body sampleTalk)) /\
  exists t,
    talkReply sampleTalk
              (forParagraph 3 fragmentRequest) =
      Normal (OneParagraph (session sampleTalk) (title sampleTalk)
                (speaker sampleTalk) (inject_Z 3) (Some t)) /\
    talkReply sampleTalk
              (forParagraphRange (NumberToString 3) fragmentRequest) =
      Normal (SelectedParagraphs (session sampleTalk) (title sampleTalk)
                (speaker sampleTalk) [mkItem 3 t]).
Proof.
  split; [cbn; lia|].
  apply (paragraph_by_number_and_by_range sampleTalk
           fragmentRequest 3).
  cbn; lia.
Defined.

(* ================================================================== *)
(** ** The list of sessions *)
(* ================================================================== *)

Lemma str_leb_total (a b : str) : str_leb a b = false -> str_leb b a = true.
Proof.
  revert b; induction a as [|c a IH]; intros [|d b]; cbn [str_leb];
    try discriminate; try reflexivity.
  destruct (c <? d)%N eqn:Ecd; [discriminate|].
  destruct (d <? c)%N eqn:Edc; [reflexivity|]. apply IH.
Qed.

Lemma insertSorted_Permutation (x : str) (xs : list str) :
  Permutation (insertSorted x xs) (x :: xs).
Proof.
  induction xs as [|y ys IH]; cbn [insertSorted]; [reflexivity|].
  destruct (str_leb x y); [reflexivity|].
  rewrite IH. apply perm_swap.
Qed.

Lemma sort_Permutation (xs : list str) : Permutation (sort xs) xs.
Proof.
  induction xs as [|x xs IH]; cbn [sort]; [reflexivity|].
  rewrite insertSorted_Permutation. now constructor.
Qed.

Lemma insertSorted_Sorted (x : str) (xs : list str) :
  Sorted (fun a b => str_leb a b = true) xs ->
  Sorted (fun a b => str_leb a b = true) (insertSorted x xs).
Proof.
  induction 1 as [|y ys Hs IH Hhd]; cbn [insertSorted];
    [repeat constructor|].
  destruct (str_leb x y) eqn:E.
  - repeat constructor; assumption.
  - constructor; [exact IH|].
    apply str_leb_total in E.
    destruct Hhd as [|z zs Hyz]; cbn [insertSorted].
    + now constructor.
    + destruct (str_leb x z); now constructor.
Qed.

Lemma sort_Sorted (xs : list str) :
  Sorted (fun a b => str_leb a b = true) (sort xs).
Proof.
  induction xs as [|x xs IH]; cbn [sort]; [constructor|].
  now apply insertSorted_Sorted.
Qed.

Lemma countTalks_of_keys {V} (sessions0 : list (str * list V))
    (names : list str) :
  (forall s, In s names -> In s (keys sessions0)) ->
  exists index,
    countTalks sessions0 names = Normal index /\
    map fst index = names /\
    forall s n, In (s, n) index ->
      exists talks, property sessions0 s = Some talks /\
                    n = Z.of_nat (List.length talks).
Proof.
  induction names as [|s names IH]; intros Hkeys; cbn [countTalks].
  - exists []. repeat split. intros s n [].
  - destruct (property_of_key sessions0 s) as [talks Htalks];
      [apply Hkeys; now left|].
    destruct IH as (index & Hcount & Hnames & Hentries);
      [intros s' Hs'; apply Hkeys; now right|].
    rewrite Htalks, Hcount.
    exists ((s, Z.of_nat (List.length talks)) :: index).
    split; [reflexivity|]. split; [cbn [map fst]; now rewrite Hnames|].
    intros s' n [[= <- <-] | Hin]; [eauto | now apply Hentries].
Qed.

(** The index of the sessions. *)
Lemma session_index (session0 : option str)
    (conferenceData : ConferenceData) :
  truthy_str session0 = false ->
  exists index,
    listConferenceTalks session0 conferenceData =
      Normal (SessionIndex index) /\
    Permutation (map fst index) (keys (sessions conferenceData)) /\
    Sorted (fun a b => str_leb a b = true) (map fst index) /\
    forall s n, In (s, n) index ->
      exists talks, property (sessions conferenceData) s = Some talks /\
                    n = Z.of_nat (List.length talks).
Proof.
  intros Hnone. unfold listConferenceTalks. rewrite Hnone.
  destruct (countTalks_of_keys (sessions conferenceData)
              (sort (keys (sessions conferenceData))))
    as (index & Hcount & Hnames & Hentries).
  { intros s Hs. eapply Permutation_in; [apply sort_Permutation | exact Hs]. }
  rewrite Hcount. exists index. rewrite Hnames.
  split; [reflexivity|]. split; [apply sort_Permutation|].
  split; [apply sort_Sorted | exact Hentries].
Qed.

(** X19: asked for no session, [listConferenceTalks] does not fail: it returns
    one entry for each session of the loaded talks, in the ascending order
    of the session names, each with the number of talks of the session. *)
Theorem session_index_is_sorted_and_complete (session0 : option str)
    (conferenceData : ConferenceData) :
  truthy_str session0 = false ->
  exists index,
    listConferenceTalks session0 conferenceData =
      Normal (SessionIndex index) /\
    Permutation (map fst index) (keys (sessions conferenceData)) /\
    Sorted (fun a b => str_leb a b = true) (map fst index) /\
    forall s n, In (s, n) index ->
      exists talks, property (sessions conferenceData) s = Some talks /\
                    n = Z.of_nat (List.length talks).
Proof. apply session_index. Qed.

(** X20: the index and the listing of a session agree: a session of the index
    (under a name that is not empty) can be listed, and its listing has as
    many talks as the index says. *)
Theorem indexed_sessions_can_be_listed (conferenceData : ConferenceData)
    (index : list (str * Z)) (s : str) (n : Z) :
  listConferenceTalks None conferenceData = Normal (SessionIndex index) ->
  In (s, n) index ->
  s <> [] ->
  exists entries,
    listConferenceTalks (Some s) conferenceData =
      Normal (SessionTalks s n entries) /\
    n = Z.of_nat (List.length entries).
Proof.
  intros Hindex Hin Hs.
  destruct (session_index None conferenceData eq_refl)
    as (index' & Hindex' & _ & _ & Hentries).
  rewrite Hindex in Hindex'. injection Hindex' as <-.
  destruct (Hentries s n Hin) as (talks & Htalks & ->).
  unfold listConferenceTalks.
  assert (Ht : truthy_str (Some s) = true) by now destruct s.
  rewrite Ht. cbn [ToString]. rewrite (get_own _ _ _ Htalks).
  eexists. split; [reflexivity|]. now rewrite length_map.
Qed.

(* ================================================================== *)
(** ** Selections of ascending verses *)
(* ================================================================== *)

Lemma StronglySorted_app_lt {X} (key : X -> Z) (l1 l2 : list X) :
  StronglySorted Z.lt (map key (l1 ++ l2)) ->
  forall x y, In x l1 -> In y l2 -> key x < key y.
Proof.
  induction l1 as [|a l1 IH]; cbn [app map]; intros Hs x y Hx Hy;
    [destruct Hx|].
  inversion Hs as [|k ks Hs' Hall]; subst.
  destruct Hx as [-> | Hx]; [|now apply IH].
  rewrite Forall_forall in Hall. apply Hall.
  apply in_map, in_or_app. now right.
Qed.

Lemma Subsequence_StronglySorted {X} (R : X -> X -> Prop) (xs ys : list X) :
  Subsequence xs ys -> StronglySorted R ys -> StronglySorted R xs.
Proof.
  induction 1 as [|y xs ys Hsub IH|x xs ys Hsub IH]; intros Hs.
  - constructor.
  - inversion Hs; subst. now apply IH.
  - inversion Hs as [|k ks Hs' Hall]; subst. constructor; [now apply IH|].
    rewrite Forall_forall in *. intros z Hz. apply Hall.
    eapply Subsequence_In; eauto.
Qed.

Lemma StronglySorted_NoDup (ks : list Z) :
  StronglySorted Z.lt ks -> NoDup ks.
Proof.
  induction 1 as [|k ks Hs IH Hall]; constructor; [|exact IH].
  intros Hin. rewrite Forall_forall in Hall. apply Hall in Hin. lia.
Qed.

Lemma sorted_between_ends {X} (key : X -> Z) (x : X) (rest : list X) :
  StronglySorted Z.lt (map key (x :: rest)) ->
  forall u, In u (x :: rest) -> key x <= key u <= key (last rest x).
Proof.
  revert x; induction rest as [|y rest IH]; intros x Hs u Hu.
  - destruct Hu as [<- | []]. cbn [last]. lia.
  - rewrite last_cons. cbn [map] in Hs.
    inversion Hs as [|k ks Hs' Hall]; subst.
    assert (Hxy : key x < key y)
      by (apply Forall_inv in Hall; exact Hall).
    pose proof (IH y Hs' y (or_introl eq_refl)) as Hy.
    destruct Hu as [<- | Hu]; [lia|].
    pose proof (IH y Hs' u Hu). lia.
Qed.

(** A subsequence of a sequence without repetition that holds exactly the
    elements that pass a test is what the test filters. *)
Lemma filter_is_the_subsequence {X} (q : X -> bool) (vs U : list X) :
  Subsequence vs U -> NoDup U ->
  (forall u, In u U -> (q u = true <-> In u vs)) ->
  filter q U = vs.
Proof.
  induction 1 as [|y xs ys Hsub IH|x xs ys Hsub IH]; intros Hnd Hq.
  - reflexivity.
  - inversion Hnd as [|k ks Hnotin Hnd']; subst. cbn [filter].
    destruct (q y) eqn:Ey.
    + apply (Hq y (or_introl eq_refl)) in Ey. exfalso. apply Hnotin.
      eapply Subsequence_In; eauto.
    + apply IH; [exact Hnd'|]. intros u Hu. apply Hq. now right.
  - inversion Hnd as [|k ks Hnotin Hnd']; subst. cbn [filter].
    rewrite (proj2 (Hq x (or_introl eq_refl))) by now left.
    f_equal. apply IH; [exact Hnd'|]. intros u Hu.
    rewrite (Hq u (or_intror Hu)). split.
    + intros [-> | Hin]; [contradiction | exact Hin].
    + now right.
Qed.

Lemma interval_test_between (a b : num) (x y u : Z) :
  geb x a && leb x b = true -> geb y a && leb y b = true ->
  x <= u <= y ->
  geb u a && leb u b = true.
Proof.
  destruct a, b; cbn [geb leb]; rewrite ?andb_false_r; try discriminate.
  rewrite !andb_true_iff, !Z.leb_le. lia.
Qed.

Section Ascending.
Context {A : Type} `{HasVerse A}.

Lemma slice_is_a_run (U : list A) (a : num) (b : option num) (x y u : A) :
  ascending U ->
  In x (slice U a b) -> In y (slice U a b) -> In u U ->
  verse x <= verse u <= verse y ->
  In u (slice U a b).
Proof.
  unfold slice.
  set (k := Z.to_nat (relativeIndex _ (ToIntegerOrInfinity a))).
  set (n := Z.to_nat (_ - _)). intros Hasc Hx Hy Hu Hbetween.
  assert (HW : StronglySorted Z.lt (map verse (skipn k U))).
  { eapply Subsequence_StronglySorted; [|exact Hasc].
    apply Subsequence_map, skipn_Subsequence. }
  assert (HxW : In x (skipn k U))
    by (eapply Subsequence_In; [apply firstn_Subsequence | exact Hx]).
  assert (HuW : In u (skipn k U)).
  { rewrite <- (firstn_skipn k U) in Hu. apply in_app_or in Hu.
    destruct Hu as [Hu | Hu]; [|exact Hu].
    unfold ascending in Hasc. rewrite <- (firstn_skipn k U) in Hasc.
    pose proof (StronglySorted_app_lt verse _ _ Hasc u x Hu HxW). lia. }
  rewrite <- (firstn_skipn n (skipn k U)) in HuW.
  apply in_app_or in HuW. destruct HuW as [HuW | HuW]; [exact HuW|].
  rewrite <- (firstn_skipn n (skipn k U)) in HW.
  pose proof (StronglySorted_app_lt verse _ _ HW y u Hy HuW). lia.
Qed.

(** On verses in ascending order, the resolver selects a run without gaps:
    a verse whose number lies between the numbers of two selected verses
    is selected. *)
Lemma parseVerseRange_run (rangeStr : str) (U selected : list A)
    (x y u : A) :
  ascending U ->
  parseVerseRange rangeStr U = Normal selected ->
  In x selected -> In y selected -> In u U ->
  verse x <= verse u <= verse y ->
  In u selected.
Proof.
  intros Hasc. unfold parseVerseRange.
  destruct (includes rangeStr (lit ":")).
  1: destruct (destructure2 (split rangeStr 58%N)) as [position countStr];
     destruct (strict_eq_str position (lit "first"));
       [intros [= <-]; now apply slice_is_a_run|];
     destruct (strict_eq_str position (lit "last"));
       [intros [= <-]; now apply slice_is_a_run|].
  all: destruct (includes rangeStr (lit "-"));
    [destruct (destructure2 (split rangeStr 45%N)) as [startStr endStr];
     intros [= <-]; rewrite !filter_In;
     intros [_ Hx] [_ Hy] Hu Hbetween; split; [exact Hu|];
     exact (interval_test_between _ _ _ _ _ Hx Hy Hbetween)|];
    destruct (parseInt (Some rangeStr)) as [|n]; cbn [isNaN negb];
      [discriminate|];
    intros [= <-]; rewrite !filter_In;
    intros [_ Hx] [_ Hy] Hu Hbetween; split; [exact Hu|];
    cbn [strict_eq] in *; apply Z.eqb_eq in Hx, Hy; apply Z.eqb_eq; lia.
Qed.

(** On verses in ascending order with numbers that are not negative, a
    selection that is not empty is selected again by the expression
    [first-last] made of the numbers of its first and last verse. *)
Lemma parseVerseRange_between (rangeStr : str) (U : list A) (x : A)
    (rest : list A) :
  ascending U ->
  (forall u, In u U -> 0 <= verse u) ->
  parseVerseRange rangeStr U = Normal (x :: rest) ->
  parseVerseRange (rangeBetween x (last rest x)) U = Normal (x :: rest).
Proof.
  intros Hasc Hpos Hsel.
  pose proof (parseVerseRange_Subsequence _ _ _ Hsel) as Hsub.
  assert (Hends : forall u, In u (x :: rest) ->
                            verse x <= verse u <= verse (last rest x)).
  { apply sorted_between_ends.
    eapply Subsequence_StronglySorted; [|exact Hasc].
    now apply Subsequence_map. }
  assert (Hlast : In (last rest x) (x :: rest)).
  { destruct rest as [|y rest']; [now left|]. right.
    rewrite <- last_cons with (x := x).
    destruct (exists_last (l := y :: rest') ltac:(discriminate))
      as (front & z & Heq).
    rewrite Heq, last_cons, last_last. apply in_or_app. right. now left. }
  assert (Hx0 : 0 <= verse x)
    by (apply Hpos; eapply Subsequence_In; [exact Hsub | now left]).
  assert (Hl0 : 0 <= verse (last rest x))
    by (apply Hpos; eapply Subsequence_In; eauto).
  unfold rangeBetween.
  destruct (NumberToString_plain (verse x) Hx0) as [Hxc Hxh].
  destruct (NumberToString_plain (verse (last rest x)) Hl0) as [Hlc Hlh].
  change (lit "-" ++ NumberToString (verse (last rest x)))
    with (45%N :: NumberToString (verse (last rest x))).
  rewrite parseVerseRange_interval by assumption.
  rewrite split_without by exact Hlh. cbn [nth_error].
  rewrite !parseInt_NumberToString. cbn [geb leb]. f_equal.
  apply filter_is_the_subsequence; [exact Hsub | |].
  - apply (NoDup_map_inv verse). now apply StronglySorted_NoDup.
  - intros u Hu. rewrite andb_true_iff, !Z.leb_le. split.
    + intros Hbetween.
      apply (parseVerseRange_run _ _ _ x (last rest x) u Hasc Hsel);
        [now left | exact Hlast | exact Hu | exact Hbetween].
    + apply Hends.
Qed.

End Ascending.

(** X21: on verses in ascending order, the resolver selects a run without gaps,
    whatever the expression: a verse whose number lies between the numbers
    of two selected verses is selected too. *)
Theorem selection_has_no_gaps `{HasVerse} (rangeStr : str)
    (U selected : list A) (x y u : A) :
  ascending U ->
  parseVerseRange rangeStr U = Normal selected ->
  In x selected -> In y selected -> In u U ->
  verse x <= verse u <= verse y ->
  In u selected.
Proof. apply parseVerseRange_run. Qed.

Lemma sampleVerses_ascending : ascending sampleVerses.
Proof. repeat constructor; cbn; lia. Qed.

Lemma selection_has_no_gaps_witness :
  (ascending sampleVerses /\
   parseVerseRange (lit "1-3") sampleVerses = Normal sampleVerses /\
   verse (sampleVerse 1) <= verse (sampleVerse 2) <= verse (sampleVerse 3))
  /\ In (sampleVerse 2) sampleVerses.
Proof.
  split; [split; [exact sampleVerses_ascending | split;
                  [reflexivity | cbn; lia]]|].
  apply (selection_has_no_gaps (lit "1-3") sampleVerses sampleVerses
           (sampleVerse 1) (sampleVerse 3) (sampleVerse 2)
           sampleVerses_ascending eq_refl);
    cbn; auto; lia.
Defined.

(* ================================================================== *)
(** ** The reference of a range names the range *)
(* ================================================================== *)

Lemma NumberToString_not_empty (z : Z) (s : str) :
  truthy_str (Some (NumberToString z ++ s)) = true.
Proof.
  destruct (Z.lt_ge_cases z 0) as [Hz | Hz].
  - now rewrite NumberToString_negative.
  - rewrite NumberToString_nonnegative by exact Hz.
    destruct (decimal_numeral z Hz) as [[Hne _] _].
    now destruct (decimal z).
Qed.

(** X22: in the web-scraping revision, when the verses of the page are in
    ascending order with numbers that are not negative, the reference of a
    reply to a range request names the verses of the reply: it ends with
    [:first-last], and the same request with the range [first-last] gets
    the same reply. *)
Theorem reference_names_the_range (fetch : str -> Fetched)
    (args : ScriptureArgs) (result : ScriptureResult) :
  (forall url ok status statusText chapterTitle allVerses,
     fetch url = Response ok status statusText chapterTitle allVerses ->
     ascending allVerses /\ forall u, In u allVerses -> 0 <= verse u) ->
  truthy_int (ga_verse args) = false ->
  truthy_str (ga_verseRange args) = true ->
  getScripture fetch args = Normal result ->
  exists first last,
    res_reference result =
      chapterReference args ++ lit ":" ++ rangeBetween first last /\
    getScripture fetch (withVerseRange (rangeBetween first last) args) =
      Normal result.
Proof.
  intros Hpage Hverse Hrange. unfold getScripture.
  change (ga_collection (withVerseRange _ args)) with (ga_collection args).
  destruct (collectionCodeOf (ga_collection args))
    as [collectionCode|]; [|discriminate].
  change (fun r => urlOf collectionCode (withVerseRange r args))
    with (fun _ : str => urlOf collectionCode args).
  destruct (fetch (urlOf collectionCode args))
    as [e|ok status statusText chapterTitle allVerses] eqn:Hfetch;
    [discriminate|].
  destruct (Hpage _ _ _ _ _ _ Hfetch) as [Hasc Hpos].
  destruct ok; cbn [negb]; [|discriminate].
  unfold buildResult at 1. rewrite Hverse, Hrange.
  destruct (parseVerseRange (ToString (ga_verseRange args)) allVerses)
    as [[|first rest]|e] eqn:Hsel; [discriminate| |discriminate].
  rewrite nth_error_last. cbn [nth_error]. intros [= <-].
  exists first, (last rest first). split; [reflexivity|].
  change (urlOf collectionCode
            (withVerseRange (rangeBetween first (last rest first)) args))
    with (urlOf collectionCode args).
  rewrite Hfetch. cbn [negb]. unfold buildResult.
  cbn [withVerseRange ga_verse ga_verseRange ToString].
  rewrite Hverse. unfold rangeBetween at 1.
  rewrite NumberToString_not_empty.
  rewrite (parseVerseRange_between _ _ _ _ Hasc Hpos Hsel).
  rewrite nth_error_last. reflexivity.
Qed.

Lemma samplePage_ascending (url : str) (ok : bool) (status : Z)
    (statusText chapterTitle : str) (allVerses : list ScrapedVerse) :
  samplePage url = Response ok status statusText chapterTitle allVerses ->
  ascending allVerses /\ forall u, In u allVerses -> 0 <= verse u.
Proof.
  intros [= <- <- <- <- <-]. split.
  - repeat constructor; cbn; lia.
  - cbn. intros u Hu.
    repeat (destruct Hu as [<- | Hu]; [cbn; lia|]). destruct Hu.
Qed.

Lemma reference_names_the_range_witness :
  exists result,
    getScripture samplePage (rangeRequest (lit "last:3")) = Normal result /\
    res_reference result = lit "book-of-mormon 1-ne 3:4-6" /\
    getScripture samplePage (rangeRequest (lit "4-6")) = Normal result.
Proof.
  eexists. split; [reflexivity|]. split; [reflexivity|].
  destruct (reference_names_the_range samplePage
              (rangeRequest (lit "last:3")) _ samplePage_ascending
              eq_refl eq_refl eq_refl) as (first & last & Href & Hagain).
  cbn in Href. injection Href as Hbetween.
  change (withVerseRange (rangeBetween first last)
                         (rangeRequest (lit "last:3")))
    with (rangeRequest (rangeBetween first last)) in Hagain.
  rewrite <- Hbetween in Hagain. exact Hagain.
Defined.

Lemma session_index_is_sorted_and_complete_witness :
  truthy_str None = false /\
  exists index,
    listConferenceTalks None sampleConference = Normal (SessionIndex index) /\
    Permutation (map fst index) (keys (sessions sampleConference)).
Proof.
  split; [reflexivity|].
  destruct (session_index_is_sorted_and_complete None sampleConference
              eq_refl) as (index & Hindex & Hperm & _).
  exists index. split; [exact Hindex | exact Hperm].
Defined.

Lemma indexed_sessions_can_be_listed_witness :
  (listConferenceTalks None sampleConference =
     Normal (SessionIndex [(lit "2008-10", 1)]) /\
   In (lit "2008-10", 1) [(lit "2008-10", 1)] /\
   lit "2008-10" <> []) /\
  exists entries,
    listConferenceTalks (Some (lit "2008-10")) sampleConference =
      Normal (SessionTalks (lit "2008-10") 1 entries) /\
    1 = Z.of_nat (List.length entries).
Proof.
  split; [split; [reflexivity | split; [now left | discriminate]]|].
  apply (indexed_sessions_can_be_listed sampleConference
           [(lit "2008-10", 1)] (lit "2008-10") 1);
    [reflexivity | now left | discriminate].
Defined.

(* ================================================================== *)
(** ** Text after the number *)
(* ================================================================== *)

Lemma digitsPrefix_stops (s t : str) (c : char) :
  forallb isDecimalDigit s = true ->
  radixDigit 10 c = None ->
  digitsPrefix 10 (s ++ c :: t) = map (fun d => Z.of_N d - 48) s.
Proof.
  intros Hs Hc. induction s as [|d s IH]; cbn [app digitsPrefix map].
  - now rewrite Hc.
  - cbn [forallb] in Hs. apply andb_true_iff in Hs. destruct Hs as [Hd Hs].
    rewrite IH by exact Hs. each_digit d Hd; reflexivity.
Qed.

(** [parseInt] reads a numeral and ignores what follows it, when that
    starts with a code unit that is neither a decimal digit nor [x] or
    [X]. *)
Lemma parseInt_ignores_the_rest (s t : str) (c : char) :
  isNumeral s ->
  isDecimalDigit c = false -> c <> 120%N -> c <> 88%N ->
  parseInt (Some (s ++ c :: t)) = parseInt (Some s).
Proof.
  intros Hs Hc Hx HX. rewrite (parseInt_numeral s Hs).
  destruct Hs as [Hne Hd]. unfold parseInt, ToString.
  assert (Hrad : radixDigit 10 c = None).
  { unfold radixDigit, digitValue. unfold isDecimalDigit in Hc. rewrite Hc.
    destruct ((97 <=? c)%N && (c <=? 122)%N) eqn:E1.
    - apply andb_true_iff in E1. destruct E1 as [E1 _].
      apply N.leb_le in E1.
      now rewrite (proj2 (Z.ltb_ge (Z.of_N c - 87) 10)) by lia.
    - destruct ((65 <=? c)%N && (c <=? 90)%N) eqn:E2; [|reflexivity].
      apply andb_true_iff in E2. destruct E2 as [E2 _].
      apply N.leb_le in E2.
      now rewrite (proj2 (Z.ltb_ge (Z.of_N c - 55) 10)) by lia. }
  destruct s as [|d s]; [contradiction|]. cbn [forallb] in Hd.
  apply andb_true_iff in Hd. destruct Hd as [Hd Hds].
  assert (Hshape : trimStart ((d :: s) ++ c :: t) = (d :: s) ++ c :: t /\
                   stripSign ((d :: s) ++ c :: t) = (1, (d :: s) ++ c :: t) /\
                   stripPrefix ((d :: s) ++ c :: t) =
                     (10, (d :: s) ++ c :: t)).
  { cbn [app trimStart stripSign stripPrefix].
    destruct s as [|d' s].
    - cbn [app]. each_digit d Hd; (split; [reflexivity|]);
        (split; [reflexivity|]); try reflexivity.
      destruct c as [|p]; [reflexivity|].
      do 7 (destruct p as [p|p|]; try reflexivity); contradiction.
    - cbn [forallb] in Hds. apply andb_true_iff in Hds.
      destruct Hds as [Hd' _]. cbn [app].
      each_digit d Hd; (split; [reflexivity|]); (split; [reflexivity|]);
        try reflexivity.
      each_digit d' Hd'; reflexivity. }
  destruct Hshape as (-> & -> & ->).
  rewrite digitsPrefix_stops; [| cbn [forallb]; now rewrite Hd, Hds | exact Hrad].
  cbn [map]. unfold decimalValue. cbn [map]. now rewrite Z.mul_1_l.
Qed.

(** X23: text after the number is not an error: a numeral followed by text that
    starts with a code unit other than a digit, [x], [X], and that holds
    neither colon nor hyphen, selects what the numeral alone selects. *)
Theorem text_after_the_number_is_ignored `{HasVerse} (s t : str) (c : char)
    (U : list A) :
  isNumeral s ->
  isDecimalDigit c = false -> c <> 120%N -> c <> 88%N ->
  ~ In 58%N (c :: t) -> ~ In 45%N (c :: t) ->
  parseVerseRange (s ++ c :: t) U = parseVerseRange s U /\
  parseVerseRange s U =
    Normal (filter (fun v => verse v =? decimalValue s) U).
Proof.
  intros Hs Hc Hx HX Hcolon Hhyphen.
  pose proof (numeral_no_colon s Hs) as Hsc.
  pose proof (numeral_no_hyphen s Hs) as Hsh.
  rewrite !parseVerseRange_single; try assumption.
  - rewrite parseInt_ignores_the_rest by assumption.
    now rewrite parseInt_numeral.
  - intros Hin. apply in_app_or in Hin. tauto.
  - intros Hin. apply in_app_or in Hin. tauto.
Qed.

Lemma text_after_the_number_is_ignored_witness :
  (isNumeral (lit "2") /\ isDecimalDigit 110%N = false) /\
  parseVerseRange (lit "2" ++ 110%N :: lit "d") sampleVerses =
    parseVerseRange (lit "2") sampleVerses.
Proof.
  assert (Hnumeral : isNumeral (lit "2"))
    by (split; [discriminate | reflexivity]).
  split; [split; [exact Hnumeral | reflexivity]|].
  apply (text_after_the_number_is_ignored (lit "2") (lit "d") 110%N
           sampleVerses Hnumeral).
  - reflexivity.
  - discriminate.
  - discriminate.
  - not_in_literal.
  - not_in_literal.
Defined.

(* ================================================================== *)
(** ** The talk search with a limit that is not positive *)
(* ================================================================== *)

Section TalkSearchLimit.
Context `{CaseFolding}.

Lemma collect_first_hit {Y M} (hit : Y -> bool) (record : Y -> M)
    (limit : Z) (T : list Y) :
  limit <= 0 ->
  afterLoop (forOf (collectStep hit record limit) T []) =
  firstn 1 (map record (filter hit T)).
Proof.
  intros Hlimit. induction T as [|y T IH]; cbn [forOf filter];
    [reflexivity|].
  unfold collectStep at 1. destruct (hit y); [|exact IH].
  cbn [app List.length map firstn].
  now rewrite (proj2 (Z.geb_le (Z.of_nat 1) limit)) by lia.
Qed.

(** X24: with a limit of zero or less, [searchConferenceTalks] looks at one talk
    only, the first of those to search: it returns the first matching
    paragraph of that talk, or nothing when that talk has none, even if
    other talks have matching paragraphs. *)
Theorem nonpositive_limit_searches_one_talk (args : TalkSearchArgs)
    (conferenceData : ConferenceData) (talk : ConferenceTalkMeta)
    (others : list ConferenceTalkMeta) :
  talkLimitOf args <= 0 ->
  talksToSearch args conferenceData = talk :: others ->
  exists results,
    searchConferenceTalks args conferenceData =
      Normal (mkTalkSearchResponse (ts_query args)
                (Z.of_nat (List.length results)) results) /\
    results =
      firstn 1 (map talkMatchOf
                    (filter (paragraphHit args)
                            (map (pair talk) (entriesFrom 0 (body talk))))).
Proof.
  intros Hlimit Htalks. eexists. split; [|reflexivity].
  assert (Hloop :
    afterLoop (forOf (talkStep (toLowerCase (ts_query args))
                               (talkLimitOf args)) (talk :: others) []) =
    firstn 1 (map talkMatchOf
                  (filter (paragraphHit args)
                          (map (pair talk) (entriesFrom 0 (body talk)))))).
  { cbn [forOf]. unfold talkStep at 1. rewrite paragraphs_loop.
    rewrite collect_first_hit by exact Hlimit.
    now rewrite (proj2 (Z.geb_le _ (talkLimitOf args))) by lia. }
  unfold searchConferenceTalks. now rewrite Htalks, Hloop.
Qed.

End TalkSearchLimit.

Lemma nonpositive_limit_searches_one_talk_witness :
  (talkLimitOf (mkTalkSearchArgs (lit "amen") None (Some 0)) <= 0 /\
   talksToSearch (mkTalkSearchArgs (lit "amen") None (Some 0))
                 sampleConference = [sampleTalk]) /\
  exists results,
    searchConferenceTalks (H := asciiLowerCase)
      (mkTalkSearchArgs (lit "amen") None (Some 0)) sampleConference =
      Normal (mkTalkSearchResponse (lit "amen")
                (Z.of_nat (List.length results)) results) /\
    map tm_paragraph results = [3].
Proof.
  split; [split; [discriminate | reflexivity]|].
  destruct (nonpositive_limit_searches_one_talk (H := asciiLowerCase)
              (mkTalkSearchArgs (lit "amen") None (Some 0))
              sampleConference sampleTalk [] ltac:(discriminate) eq_refl)
    as (results & Hreply & Hresults).
  exists results. split; [exact Hreply|]. now rewrite Hresults.
Defined.
